(** * MRDF multi-profile editor: a shallow embedding of the binary core

    Source: [mrdf_multi_editorV0.1.py].  The embedding covers the scalar
    codec ([read_scalar], [write_scalar]), the record parser ([parse_mrdf]),
    the profile registry and detector ([get_profile_by_key],
    [detect_profile]) and the four edit operations of [MrdfEditorApp]
    ([apply_edit], [revert_field], [_parse_hex_bytes],
    [apply_hex_overwrite]).

    Conventions.
    - A Python [bytes]/[bytearray] is a [list byte]; an [int] is a [Z]; a
      [float] is a [spec_float] of the Standard Library read at the binary64
      format (no NaN payload, as in [SpecFloat]); a [str] is a [string]
      (its characters are taken as ASCII; non-ASCII text is outside the
      model).
    - A call that may raise returns a [result]; a [try]/[except] is a
      [match] on it.
    - [write_scalar] mutates its bytearray argument: it returns the
      bytearray as it is after the call together with the call's result.
    - The methods of [MrdfEditorApp] read Tk variables and write the
      buffers; the Tk variables they read are gathered in [Widgets], the
      attributes they write in [Buffers], and the message box a method
      ends with is its [dialog]. *)

From Stdlib Require Import ZArith List Ascii Lia Bool.
From Stdlib Require Import Strings.Byte.
From Stdlib Require Import Floats.SpecFloat.
From Stdlib Require Import Sorting.Sorted Sorting.Permutation.
From stdpp Require Import gmap strings.
Import ListNotations.
Local Open Scope string_scope.
Local Open Scope list_scope.
Local Open Scope Z_scope.

(** ** Python runtime *)

Module Py.

(** The exceptions the modelled code can meet.  [OutOfBounds] is the
    [ValueError] that [read_scalar] and [write_scalar] raise themselves;
    [ValueError] stands for every other [ValueError]. *)
Inductive exn :=
| OutOfBounds
| ValueError
| OverflowError
| StructError
| IndexError.

Inductive result (A : Type) :=
| Ok (a : A)
| Raise (e : exn).
Arguments Ok {A} a.
Arguments Raise {A} e.

Definition bind {A B} (r : result A) (k : A -> result B) : result B :=
  match r with
  | Ok a => k a
  | Raise e => Raise e
  end.

(** A Python value as the codec meets it: an [int] or a [float]. *)
Inductive value :=
| Int (z : Z)
| Float (x : spec_float).

(** *** Sequences: [len], [s[a:b]], [s[a:b] = x] *)

Definition len {A} (l : list A) : Z := Z.of_nat (length l).

Definition slice_index (n i : Z) : Z :=
  if i <? 0 then Z.max 0 (i + n) else Z.min i n.

Definition slice {A} (l : list A) (a b : Z) : list A :=
  let a' := slice_index (len l) a in
  let b' := slice_index (len l) b in
  firstn (Z.to_nat (b' - a')) (skipn (Z.to_nat a') l).

Definition slice_assign {A} (l : list A) (a b : Z) (x : list A) : list A :=
  let a' := slice_index (len l) a in
  let b' := Z.max a' (slice_index (len l) b) in
  firstn (Z.to_nat a') l ++ x ++ skipn (Z.to_nat b') l.

(** *** [int(v)] and [float(v)] on numbers *)

Definition float_of_Z (z : Z) : spec_float := binary_normalize 53 1024 z 0 false.

Definition float (v : value) : result spec_float :=
  match v with
  | Float x => Ok x
  | Int z =>
      match float_of_Z z with
      | S754_infinity _ => Raise OverflowError
      | x => Ok x
      end
  end.

Definition int (v : value) : result Z :=
  match v with
  | Int z => Ok z
  | Float S754_nan => Raise ValueError
  | Float (S754_infinity _) => Raise OverflowError
  | Float (S754_zero _) => Ok 0
  | Float (S754_finite s m e) =>
      let a := match e with
               | Zneg k => Zpos m / 2 ^ Zpos k
               | _ => Zpos m * 2 ^ e
               end in
      Ok (if s then - a else a)
  end.

(** *** [a < b] and [a <= b] on numbers

    Two floats compare as [SFcompare] has it (no order with a NaN); an
    [int] and a [float] compare exactly. *)

Definition compare_Z_float (z : Z) (x : spec_float) : option comparison :=
  match x with
  | S754_nan => None
  | S754_infinity s => Some (if s then Gt else Lt)
  | S754_zero _ => Some (z ?= 0)
  | S754_finite s m e =>
      let v := if s then Zneg m else Zpos m in
      Some match e with
           | Zneg k => z * 2 ^ Zpos k ?= v
           | _ => z ?= v * 2 ^ e
           end
  end.

Definition compare (a b : value) : option comparison :=
  match a, b with
  | Int x, Int y => Some (x ?= y)
  | Float x, Float y => SFcompare x y
  | Int x, Float y => compare_Z_float x y
  | Float x, Int y => option_map CompOpp (compare_Z_float y x)
  end.

Definition lt (a b : value) : bool :=
  match compare a b with
  | Some Lt => true
  | _ => false
  end.

Definition le (a b : value) : bool :=
  match compare a b with
  | Some (Lt | Eq) => true
  | _ => false
  end.

(** *** [str] methods *)

Definition code (c : ascii) : Z := Z.of_N (N_of_ascii c).

Definition isspace (c : ascii) : bool :=
  let n := code c in
  ((9 <=? n) && (n <=? 13)) || ((28 <=? n) && (n <=? 32)).

Definition lower_char (c : ascii) : ascii :=
  let n := code c in
  if (65 <=? n) && (n <=? 90) then ascii_of_N (Z.to_N (n + 32)) else c.

Fixpoint lower (s : string) : string :=
  match s with
  | EmptyString => EmptyString
  | String c r => String (lower_char c) (lower r)
  end.

Fixpoint lstrip (s : string) : string :=
  match s with
  | EmptyString => EmptyString
  | String c r => if isspace c then lstrip r else s
  end.

Fixpoint rstrip (s : string) : string :=
  match s with
  | EmptyString => EmptyString
  | String c r =>
      match rstrip r with
      | EmptyString => if isspace c then EmptyString else String c EmptyString
      | r' => String c r'
      end
  end.

Definition strip (s : string) : string := rstrip (lstrip s).

(** [s.replace(a, b)] for one-character [a] and [b]. *)
Fixpoint replace (a b : ascii) (s : string) : string :=
  match s with
  | EmptyString => EmptyString
  | String c r => String (if Ascii.eqb c a then b else c) (replace a b r)
  end.

(** [s.split()]: the maximal runs of non-whitespace characters. *)
Fixpoint split (s : string) : list string :=
  match s with
  | EmptyString => []
  | String c r =>
      if isspace c then split r
      else match r with
           | EmptyString => [String c EmptyString]
           | String c' _ =>
               if isspace c' then String c EmptyString :: split r
               else match split r with
                    | t :: ts => String c t :: ts
                    | [] => [String c EmptyString]
                    end
           end
  end.

Definition startswith (s p : string) : bool := String.prefix p s.

(** [needle in s] *)
Fixpoint contains (needle s : string) : bool :=
  String.prefix needle s ||
  match s with
  | EmptyString => false
  | String _ r => contains needle r
  end.

(** *** [int(s, base)] on a [str] *)

Definition digit_value (c : ascii) : option Z :=
  let n := code c in
  if (48 <=? n) && (n <=? 57) then Some (n - 48)
  else if (97 <=? n) && (n <=? 122) then Some (n - 87)
  else if (65 <=? n) && (n <=? 90) then Some (n - 55)
  else None.

(** Digits with single underscores between them; [after_digit] tells
    whether the previous character was a digit. *)
Fixpoint int_digits (base acc : Z) (after_digit : bool) (s : string) : option Z :=
  match s with
  | EmptyString => if after_digit then Some acc else None
  | String c r =>
      if Ascii.eqb c "_" then
        if after_digit then int_digits base acc false r else None
      else
        match digit_value c with
        | Some d => if d <? base then int_digits base (acc * base + d) true r else None
        | None => None
        end
  end.

Definition int_sign (s : string) : bool * string :=
  match s with
  | String "+" r => (false, r)
  | String "-" r => (true, r)
  | _ => (false, s)
  end.

(** The [0x] prefix that base 16 accepts, and the one underscore that may
    follow it. *)
Definition int_prefix (base : Z) (s : string) : string :=
  if base =? 16 then
    match s with
    | String "0" (String x r) =>
        if Ascii.eqb x "x" || Ascii.eqb x "X" then
          match r with
          | String "_" r' => r'
          | _ => r
          end
        else s
    | _ => s
    end
  else s.

(** The white space that [int] skips at both ends of an ASCII [str]:
    the C locale's, which has not the separators 28 to 31 of
    [str.strip]. *)
Definition int_isspace (c : ascii) : bool :=
  let n := code c in
  ((9 <=? n) && (n <=? 13)) || (n =? 32).

Fixpoint int_lstrip (s : string) : string :=
  match s with
  | EmptyString => EmptyString
  | String c r => if int_isspace c then int_lstrip r else s
  end.

Fixpoint int_rstrip (s : string) : string :=
  match s with
  | EmptyString => EmptyString
  | String c r =>
      match int_rstrip r with
      | EmptyString => if int_isspace c then EmptyString else String c EmptyString
      | r' => String c r'
      end
  end.

(** [sys.int_info.default_max_str_digits]: the most digits a [str] may
    have to be converted to an [int], or an [int] to a [str], in a base
    that is not a power of two. *)
Definition int_max_str_digits : Z := 4300.

Definition is_binary_base (base : Z) : bool :=
  (base =? 2) || (base =? 4) || (base =? 8) || (base =? 16) || (base =? 32).

(** The digits of a literal, not counting its underscores. *)
Fixpoint count_digits (s : string) : Z :=
  match s with
  | EmptyString => 0
  | String c r => if Ascii.eqb c "_" then count_digits r else 1 + count_digits r
  end.

Definition int_of_str (base : Z) (s : string) : result Z :=
  let '(neg, body) := int_sign (int_rstrip (int_lstrip s)) in
  let literal := int_prefix base body in
  match int_digits base 0 false literal with
  | Some n =>
      if negb (is_binary_base base) && (int_max_str_digits <? count_digits literal)
      then Raise ValueError
      else Ok (if neg then - n else n)
  | None => Raise ValueError
  end.

End Py.

Notation "'let*' x ':=' r 'in' k" := (Py.bind r (fun x => k))
  (at level 10, x name, r at level 100, k at level 200, only parsing).

(** ** The [struct] module, for the four formats the editor uses *)

Module F32.

(** IEEE-754 binary32 next to Python's binary64.  [of_f64] is the C cast
    [(float)x], round to nearest even; [to_f64] is the exact widening. *)
Definition of_f64 (x : spec_float) : spec_float :=
  match x with
  | S754_finite s m e => binary_round 24 128 s m e
  | _ => x
  end.

Definition to_f64 (x : spec_float) : spec_float :=
  match x with
  | S754_finite s m e => binary_round 53 1024 s m e
  | _ => x
  end.

(** The last step of [binary_round_aux]: the float of a rounded mantissa
    and exponent. *)
Definition SF_of_rounded (prec emax : Z) (sx : bool) (m e : Z) : spec_float :=
  match m with
  | Z0 => S754_zero sx
  | Zpos p => if e <=? emax - prec then S754_finite sx p e else S754_infinity sx
  | Zneg _ => S754_nan
  end.

(** A finite double whose cast is infinite: [struct.pack] refuses it. *)
Definition overflows (x : spec_float) : bool :=
  match x, of_f64 x with
  | S754_finite _ _ _, S754_infinity _ => true
  | _, _ => false
  end.

Definition sign_bit (s : bool) : Z := if s then 2 ^ 31 else 0.

(** The 32-bit pattern of a binary32 value: sign, biased exponent and
    fraction.  A finite [m * 2^e] in canonical form has biased exponent
    [e + 150] and fraction [m - 2^23] when normal, and biased exponent
    [0] = [e + 149] and fraction [m] when subnormal. *)
Definition bits (x : spec_float) : Z :=
  match x with
  | S754_zero s => sign_bit s
  | S754_infinity s => sign_bit s + 0x7F800000
  | S754_nan => 0x7FC00000
  | S754_finite s m e => sign_bit s + (e + 149) * 2 ^ 23 + Zpos m
  end.

Definition of_bits (w : Z) : spec_float :=
  let s := Z.testbit w 31 in
  let E := (w / 2 ^ 23) mod 256 in
  let M := w mod 2 ^ 23 in
  if E =? 0 then
    match M with
    | Zpos p => S754_finite s p (-149)
    | _ => S754_zero s
    end
  else if E =? 255 then
    if M =? 0 then S754_infinity s else S754_nan
  else
    match M + 2 ^ 23 with
    | Zpos p => S754_finite s p (E - 150)
    | _ => S754_nan
    end.

End F32.

Module Struct.
Import Py.

(** The format strings ["<f"], ["<i"], ["<I"] and ["<B"]. *)
Inductive fmt := fmt_f | fmt_i | fmt_I | fmt_B.

Definition calcsize (f : fmt) : Z :=
  match f with
  | fmt_B => 1
  | _ => 4
  end.

Definition byte_of_Z (z : Z) : byte :=
  match Byte.of_N (Z.to_N (z mod 256)) with
  | Some b => b
  | None => x00
  end.

Definition Z_of_byte (b : byte) : Z := Z.of_N (Byte.to_N b).

(** Little-endian bytes of a word, and back. *)
Fixpoint le_bytes (n : nat) (w : Z) : list byte :=
  match n with
  | O => []
  | S k => byte_of_Z w :: le_bytes k (w / 256)
  end.

Fixpoint le_word (bs : list byte) : Z :=
  match bs with
  | [] => 0
  | b :: t => Z_of_byte b + 256 * le_word t
  end.

(** [struct.pack(fmt, v)].  ["<f"] raises [OverflowError] when a finite
    double rounds to an infinite float; the integer formats raise
    [struct.error] outside their range. *)
Definition pack (f : fmt) (v : value) : result (list byte) :=
  match f with
  | fmt_f =>
      let* x := Py.float v in
      if F32.overflows x then Raise OverflowError
      else Ok (le_bytes 4 (F32.bits (F32.of_f64 x)))
  | fmt_i =>
      match v with
      | Int z =>
          if (- 2 ^ 31 <=? z) && (z <=? 2 ^ 31 - 1)
          then Ok (le_bytes 4 (z mod 2 ^ 32)) else Raise StructError
      | Float _ => Raise StructError
      end
  | fmt_I =>
      match v with
      | Int z =>
          if (0 <=? z) && (z <=? 2 ^ 32 - 1)
          then Ok (le_bytes 4 z) else Raise StructError
      | Float _ => Raise StructError
      end
  | fmt_B =>
      match v with
      | Int z =>
          if (0 <=? z) && (z <=? 255)
          then Ok (le_bytes 1 z) else Raise StructError
      | Float _ => Raise StructError
      end
  end.

Definition decode (f : fmt) (w : Z) : value :=
  match f with
  | fmt_f => Float (F32.to_f64 (F32.of_bits w))
  | fmt_i => Int (if w <? 2 ^ 31 then w else w - 2 ^ 32)
  | fmt_I => Int w
  | fmt_B => Int w
  end.

(** [struct.unpack_from(fmt, blob, off)[0]]: a negative offset counts
    from the end; [struct.error] when fewer than [calcsize] bytes are
    left. *)
Definition unpack_from (f : fmt) (blob : list byte) (off : Z) : result value :=
  let off' := if off <? 0 then off + len blob else off in
  if (off' <? 0) || (len blob - off' <? calcsize f) then Raise StructError
  else Ok (decode f (le_word (slice blob off' (off' + calcsize f)))).

End Struct.

(** ** Data model *)

Import Py.

(** [Scalar = Literal["float", "int32", "uint32", "bool32", "uint8"]] *)
Inductive Scalar := K_float | K_int32 | K_uint32 | K_bool32 | K_uint8.

Record MrdfFieldDef := mk_def {
  name : string;
  section : string;
  offset : Z;
  scalar : Scalar;
  notes : string;
  enum : option (list (Z * string))
}.

(** The attribute [offset] of an instance is [inst_offset] here, as
    [offset] names the attribute of the definition. *)
Record MrdfFieldInstance := {
  definition : MrdfFieldDef;
  inst_offset : Z;
  raw : list byte;
  value : Py.value
}.

(** ** Binary helpers *)

Definition _FMT (scalar : Scalar) : Struct.fmt * Z :=
  match scalar with
  | K_float => (Struct.fmt_f, 4)
  | K_int32 => (Struct.fmt_i, 4)
  | K_uint32 => (Struct.fmt_I, 4)
  | K_bool32 => (Struct.fmt_I, 4)
  | K_uint8 => (Struct.fmt_B, 1)
  end.

Definition width (scalar : Scalar) : Z := snd (_FMT scalar).

Definition read_scalar (blob : list byte) (off : Z) (scalar : Scalar)
  : result (Py.value * list byte) :=
  let '(fmt, n) := _FMT scalar in
  if (off <? 0) || (off + n >? len blob) then Raise OutOfBounds
  else
    let raw := slice blob off (off + n) in
    let* v := Struct.unpack_from fmt blob off in
    match scalar with
    | K_bool32 =>
        let* i := Py.int v in
        Ok (Int (if negb (i =? 0) then 1 else 0), raw)
    | _ => Ok (v, raw)
    end.

(** The first component is [buf] after the call, whether the call
    returned or raised. *)
Definition write_scalar (buf : list byte) (off : Z) (scalar : Scalar) (v : Py.value)
  : list byte * result (list byte) :=
  let '(fmt, n) := _FMT scalar in
  if (off <? 0) || (off + n >? len buf) then (buf, Raise OutOfBounds)
  else
    let packed :=
      match scalar with
      | K_float =>
          let* x := Py.float v in
          Struct.pack fmt (Float x)
      | K_uint8 =>
          let* iv := Py.int v in
          Struct.pack fmt (Int (Z.land iv 0xFF))
      | _ =>
          let* iv := Py.int v in
          let iv := match scalar with
                    | K_bool32 => if negb (iv =? 0) then 1 else 0
                    | _ => iv
                    end in
          Struct.pack fmt (Int (Z.land iv 0xFFFFFFFF))
      end in
    match packed with
    | Ok packed => (slice_assign buf off (off + n) packed, Ok packed)
    | Raise e => (buf, Raise e)
    end.

(** [insts.sort(key=lambda i: (i.definition.section, i.offset))]: the
    tuples compare by section, then by offset; the sort is stable.  An
    insertion that passes only strictly smaller elements is such a sort. *)
Definition sort_key (i : MrdfFieldInstance) : string * Z :=
  (section (definition i), inst_offset i).

Definition key_lt (a b : string * Z) : bool :=
  match String.compare (fst a) (fst b) with
  | Lt => true
  | Eq => snd a <? snd b
  | Gt => false
  end.

Fixpoint insert_by_key (x : MrdfFieldInstance) (l : list MrdfFieldInstance)
  : list MrdfFieldInstance :=
  match l with
  | [] => [x]
  | y :: t =>
      if key_lt (sort_key y) (sort_key x) then y :: insert_by_key x t
      else x :: l
  end.

Fixpoint sort_by_key (l : list MrdfFieldInstance) : list MrdfFieldInstance :=
  match l with
  | [] => []
  | x :: t => insert_by_key x (sort_by_key t)
  end.

(** The loop of [parse_mrdf]: one instance per definition that decodes,
    in table order. *)
Fixpoint decode_defs (blob : list byte) (defs : list MrdfFieldDef)
  : list MrdfFieldInstance :=
  match defs with
  | [] => []
  | d :: rest =>
      match read_scalar blob (offset d) (scalar d) with
      | Ok (v, raw) =>
          {| definition := d; inst_offset := offset d; raw := raw; value := v |}
            :: decode_defs blob rest
      | Raise _ => decode_defs blob rest
      end
  end.

Definition parse_mrdf (blob : list byte) (defs : list MrdfFieldDef)
  : list MrdfFieldInstance :=
  sort_by_key (decode_defs blob defs).

(** ** MRDF definitions: STATS *)

Definition ENGINE_TYPE : list (Z * string) := [
    (0x00, "Don't use");
    (0x01, "V6");
    (0x02, "V8");
    (0x03, "V10");
    (0x04, "V12");
    (0x05, "Straight 4");
    (0x06, "Straight 5");
    (0x07, "Straight 6");
    (0x08, "Rotary 2");
    (0x09, "Rotary 3");
    (0x0A, "Flat 4");
    (0x0B, "Flat 6");
    (0x0C, "W16");
    (0x0D, "W12");
    (0x0E, "Single Cylinder");
    (0x0F, "Twin Cylinder");
    (0x10, "Flat 8");
    (0x11, "Flat 12")
  ].

Definition DRIVETRAIN : list (Z * string) := [(0, "RWD"); (1, "AWD"); (2, "FWD")].
Definition BOOST_TYPE : list (Z * string) :=
  [(0, "Natural Aspiration"); (1, "Supercharged"); (2, "Turbo")].
Definition ASPIRATION : list (Z * string) := [(0, "Naturally aspirated"); (1, "Boosted")].
Definition SHIFT_TYPE : list (Z * string) := [(0, "H Pattern"); (1, "Sequential")].

Definition TYRE_BITS : list (Z * string) := [
    (0x01, "Soft / Semi Slick");
    (0x02, "Medium");
    (0x04, "Hard");
    (0x08, "Intermediate");
    (0x10, "Wet");
    (0x20, "Extreme");
    (0x40, "All Weather")
  ].

Definition STATS_MRDF_DEFS : list MrdfFieldDef := [
    mk_def "TopSpeed_mps" "PERFORMANCE" 0x20 K_float
      "Top speed in meters/sec. MPH*0.447" None;
    mk_def "Accel_0_100_kmh" "PERFORMANCE" 0x24 K_float
      "0-100km/h time (seconds)" None;
    mk_def "Gear_for_100_kmh" "PERFORMANCE" 0x28 K_uint32
      "Gear needed to reach 100km/h" None;
    mk_def "Accel_0_160_kmh" "PERFORMANCE" 0x2c K_float
      "0-160km/h time (seconds)" None;
    mk_def "Gear_for_160_kmh" "PERFORMANCE" 0x30 K_uint32
      "Gear needed to reach 160km/h" None;
    mk_def "Braking_100_0_kmh" "PERFORMANCE" 0x34 K_float
      "100-0km/h time (seconds)" None;
    mk_def "PerformanceIndex_PI" "PERFORMANCE" 0x38 K_float
      "Performance rating (not used in-game)" None;
    mk_def "Mass_kg" "PERFORMANCE" 0x3c K_float
      "Mass in kg" None;
    mk_def "NumGears" "DRIVETRAIN" 0x40 K_uint32
      "Number of gears in transmission" None;
    mk_def "Torque_lbft" "DRIVETRAIN" 0x44 K_float
      "Torque in lb-ft" None;
    mk_def "HP_SAE_Net" "DRIVETRAIN" 0x48 K_float
      "Horsepower (SAE Net)" None;
    mk_def "DrivetrainType" "DRIVETRAIN" 0x4c K_uint32
      "00=RWD,01=AWD,02=FWD" (Some DRIVETRAIN);
    mk_def "BoostType" "ENGINE" 0x50 K_uint32
      "0=NA,1=Supercharged,2=Turbo" (Some BOOST_TYPE);
    mk_def "Aspiration" "ENGINE" 0x54 K_uint32
      "0=NA,1=Boosted" (Some ASPIRATION);
    mk_def "HandlingPerformance" "HANDLING" 0x58 K_float
      "Handling performance" None;
    mk_def "Unknown_0x5C" "UNKNOWN" 0x5c K_uint32
      "Unknown" None;
    mk_def "Unknown_0x60" "UNKNOWN" 0x60 K_uint32
      "Unknown" None;
    mk_def "EngineType" "ENGINE" 0x64 K_uint32
      "Engine type enum" (Some ENGINE_TYPE);
    mk_def "TierLevel" "META" 0x68 K_uint32
      "Tier level" None;
    mk_def "Unknown_0x6C" "UNKNOWN" 0x6c K_float
      "Unknown float" None;
    mk_def "Unknown_0x70" "UNKNOWN" 0x70 K_float
      "Unknown float" None;
    mk_def "Unknown_0x74" "UNKNOWN" 0x74 K_uint32
      "Unknown (often 0x80000000 in sample)" None;
    mk_def "Unknown_0x78" "UNKNOWN" 0x78 K_float
      "Unknown float" None;
    mk_def "Unknown_0x7C" "UNKNOWN" 0x7c K_float
      "Unknown float" None;
    mk_def "BodyHeightAdjust_m" "CHASSIS" 0x80 K_float
      "Menu-only body height adjust (m)" None;
    mk_def "Wheelbase_m" "CHASSIS" 0x84 K_float
      "Wheelbase (m)" None;
    mk_def "RearWeightDistribution" "CHASSIS" 0x88 K_float
      "Rear weight distribution (0..1)" None;
    mk_def "ABS" "ASSISTS" 0x8c K_bool32
      "ABS enabled (1=true)" None;
    mk_def "TC" "ASSISTS" 0x90 K_bool32
      "Traction Control (1=true)" None;
    mk_def "SC" "ASSISTS" 0x94 K_bool32
      "Stability Control (1=true)" None;
    mk_def "CorneringDifficulty" "HANDLING" 0x98 K_uint32
      "Cornering difficulty (1,2,3)" None;
    mk_def "CorneringSpeed" "HANDLING" 0x9c K_uint32
      "Cornering speed (1,2,3)" None;
    mk_def "EngineDisplacement" "ENGINE" 0xa0 K_float
      "Engine displacement (units: litres)" None;
    mk_def "ShiftType" "DRIVETRAIN" 0xa4 K_uint32
      "00=H Pattern,01=Sequential" (Some SHIFT_TYPE);
    mk_def "DRS_Enabled" "AERO" 0xa8 K_bool32
      "DRS available (1=true)" None;
    mk_def "BoostButton" "ENGINE" 0xac K_bool32
      "Boost button available (1=true)" None;
    mk_def "AdjustableTurbo" "ENGINE" 0xb0 K_bool32
      "Adjustable turbo available (1=true)" None;
    mk_def "OnboardRollBars" "CHASSIS" 0xb4 K_bool32
      "Onboard roll bars adjustable (1=true)" None;
    mk_def "OnboardBrakeBias" "BRAKES" 0xb8 K_bool32
      "Onboard brake bias adjustable (1=true)" None;
    mk_def "TyreAvailability" "TYRES" 0xbc K_uint32
      "Tyre availability bitmask in low byte (0x40=All Weather override; else bits 0-5: Soft/Med/Hard/Inter/Wet/Unknown)" None;
    mk_def "Headlights" "ELECTRICAL" 0xc0 K_bool32
      "Headlights available (1=true)" None;
    mk_def "PitLimiter" "DRIVETRAIN" 0xc4 K_bool32
      "Pit limiter available (1=true)" None
  ].

(** ** MRDF definitions: PHYSICS TWEAKER *)

Definition TICK_RATE : list (Z * string) := [(180, "180 Hz"); (360, "360 Hz"); (540, "540 Hz")].
Definition BOOL01 : list (Z * string) := [(0, "False"); (1, "True")].

Definition PHYSICS_MRDF_DEFS : list MrdfFieldDef := [
    mk_def "BrakeGlowMinTemp" "BRAKES" 0x0030 K_float
      "Brake glow minimum temp (float)" None;
    mk_def "BrakeGlowMaxTemp" "BRAKES" 0x0034 K_float
      "Brake glow maximum temp (float)" None;
    mk_def "BrakeGlowScaleAI" "BRAKES" 0x0038 K_float
      "Brake glow scale for AI (float)" None;
    mk_def "BrakeGlowScalePlayer" "BRAKES" 0x003c K_float
      "Brake glow scale for Player (float)" None;
    mk_def "ContinuousCDThickness" "JOINTS" 0x0048 K_float
      "Continuous CD Thickness (float)" None;
    mk_def "JointIterations" "JOINTS" 0x004c K_uint32
      "Joint Iterations (often looks integer in dumps)" None;
    mk_def "JointStrength" "JOINTS" 0x0050 K_float
      "Joint Strength (float)" None;
    mk_def "EnableAntiFlipAid" "ANTI-FLIP" 0x0054 K_uint32
      "Enable Anti Flip Aid (0/1)" (Some BOOL01);
    mk_def "AntiFlipMinAngle" "ANTI-FLIP" 0x0058 K_float
      "Anti Flip Minimum Angle (deg)" None;
    mk_def "AntiFlipMaxAngle" "ANTI-FLIP" 0x005c K_float
      "Anti Flip Maximum Angle (deg)" None;
    mk_def "AntiFlipTorqueForce" "ANTI-FLIP" 0x0060 K_float
      "Anti Flip Torque Fixing Force" None;
    mk_def "AntiFlipOrientForce" "ANTI-FLIP" 0x0064 K_float
      "Anti Flip Orientation Fixing Force" None;
    mk_def "MinBumpStopForce" "SUSPENSION" 0x02f0 K_float
      "Minimum Bump Stop Force" None;
    mk_def "MaxBumpStopForce" "SUSPENSION" 0x02f4 K_float
      "Maximum Bump Stop Force" None;
    mk_def "DraftMinSpeed" "DRAFTING" 0x02f8 K_float
      "Drafting Minimum Speed" None;
    mk_def "DraftRampSpeed" "DRAFTING" 0x02fc K_float
      "Drafting Ramp Speed" None;
    mk_def "DraftMaxSpeed" "DRAFTING" 0x0300 K_float
      "Drafting Maximum Speed" None;
    mk_def "DraftMaxDistFront" "DRAFTING" 0x0304 K_float
      "Drafting Max Distance In Front" None;
    mk_def "DraftMinLatFront" "DRAFTING" 0x0308 K_float
      "Drafting Min Lateral In Front" None;
    mk_def "DraftMaxLatFront" "DRAFTING" 0x030c K_float
      "Drafting Max Lateral In Front" None;
    mk_def "DraftMaxDistBehind" "DRAFTING" 0x0310 K_float
      "Drafting Max Distance Behind" None;
    mk_def "DraftMinLatBehind" "DRAFTING" 0x0314 K_float
      "Drafting Min Lateral Behind" None;
    mk_def "DraftMaxLatBehind" "DRAFTING" 0x0318 K_float
      "Drafting Max Lateral Behind" None;
    mk_def "DraftAirScale" "DRAFTING" 0x031c K_float
      "Drafting Air Scale" None;
    mk_def "LowSpeedTCAtRest" "ASSISTS" 0x0320 K_float
      "Low Speed TC At Rest" None;
    mk_def "LowSpeedTCSpeedThresh" "ASSISTS" 0x0324 K_float
      "Low Speed TC Speed Threshold" None;
    mk_def "LowSpeedGripAtRest" "ASSISTS" 0x0328 K_float
      "Low Speed Grip At Rest" None;
    mk_def "LowSpeedGripSpeedTh" "ASSISTS" 0x032c K_float
      "Low Speed Grip Speed Threshold" None;
    mk_def "AutoResetDisableCollT" "RESET" 0x0330 K_float
      "Auto Reset - Time Collision Is Disabled (s)" None;
    mk_def "AutoResetMinSpeedMPH" "RESET" 0x0334 K_float
      "Auto Reset - Minimum Speed in MPH" None;
    mk_def "AutoClutch" "ASSISTS" 0x0378 K_uint32
      "Auto Clutch (0/1)" None;
    mk_def "SteeringHelpFunction" "ASSISTS" 0x037c K_uint32
      "Steering help function (int)" None;
    mk_def "PhysicsTickRate" "PHYSICS" 0x0380 K_uint32
      "Physics tick rate" (Some TICK_RATE);
    mk_def "AutoReverse" "ASSISTS" 0x0384 K_uint32
      "Auto reverse (0/1)" (Some BOOL01);
    mk_def "AutoShiftOverrideTime" "ASSISTS" 0x0388 K_float
      "Auto shift override time (s)" None;
    mk_def "ManShiftOverrideTime" "ASSISTS" 0x038c K_float
      "Manual shift override time (s)" None;
    mk_def "AIStrengthNovice" "AI" 0x03b0 K_float
      "AI Strength Novice" None;
    mk_def "AIStrengthAmateur" "AI" 0x03b4 K_float
      "AI Strength Amateur" None;
    mk_def "AIStrengthPro" "AI" 0x03b8 K_float
      "AI Strength Pro" None;
    mk_def "AIAggressionNovice" "AI" 0x03bc K_float
      "AI Aggression Novice" None;
    mk_def "AIAggressionNormal" "AI" 0x03c0 K_float
      "AI Aggression Normal" None;
    mk_def "AIAggressionXP" "AI" 0x03c4 K_float
      "AI Aggression XP" None;
    mk_def "AIAggressionPro" "AI" 0x03c8 K_float
      "AI Aggression Pro" None;
    mk_def "FuelMult" "AI" 0x03d4 K_uint32
      "Fuel mult (int)" None;
    mk_def "TyreMult" "AI" 0x03d8 K_uint32
      "Tire mult (int)" None
  ].

(** ** Profile system *)

Record MrdfProfile := {
  key : string;
  label : string;
  defs : list MrdfFieldDef
}.

Definition stats_profile : MrdfProfile :=
  {| key := "stats"; label := "Statistics MRDF"; defs := STATS_MRDF_DEFS |}.

Definition physics_profile : MrdfProfile :=
  {| key := "physics"; label := "Physics Tweaker MRDF"; defs := PHYSICS_MRDF_DEFS |}.

Definition PROFILES : list MrdfProfile := [stats_profile; physics_profile].

(** [PROFILES[0]] *)
Definition first_profile (ps : list MrdfProfile) : result MrdfProfile :=
  match ps with
  | p :: _ => Ok p
  | [] => Raise IndexError
  end.

Definition get_profile_by_key (k : string) : result MrdfProfile :=
  match List.find (fun p => String.eqb (key p) k) PROFILES with
  | Some p => Ok p
  | None => first_profile PROFILES
  end.

(** The float literals of [detect_profile]. *)
Definition lit (z : Z) : Py.value := Float (float_of_Z z).

Section Detector.

(** [os.sep] *)
Variable os_sep : string.

Definition path_hint (lower : string) : bool :=
  contains "physicstweaker" lower
  || contains (String.append os_sep (String.append "physics" os_sep)) lower.

(** The body of the first [try]: [Ok (Some p)] when it returns [p],
    [Ok None] when it falls through. *)
Definition physics_heuristic (blob : list byte) : result (option MrdfProfile) :=
  let* bmin := Struct.unpack_from Struct.fmt_f blob 0x0030 in
  let* bmax := Struct.unpack_from Struct.fmt_f blob 0x0034 in
  let* ai := Struct.unpack_from Struct.fmt_f blob 0x0038 in
  let* pl := Struct.unpack_from Struct.fmt_f blob 0x003C in
  if lt (lit 100) bmin && lt bmin (lit 5000)
     && (lt (lit 100) bmax && lt bmax (lit 10000))
     && (le (lit 0) ai && le ai (lit 10))
     && (le (lit 0) pl && le pl (lit 10))
  then let* p := get_profile_by_key "physics" in Ok (Some p)
  else Ok None.

(** The body of the second [try]. *)
Definition stats_heuristic (blob : list byte) : result (option MrdfProfile) :=
  let* wb := Struct.unpack_from Struct.fmt_f blob 0x84 in
  if lt (lit 1) wb && lt wb (lit 6)
  then let* p := get_profile_by_key "stats" in Ok (Some p)
  else Ok None.

(** [file_path or <empty str>] is [file_path] itself for a [str]. *)
Definition detect_profile (file_path : string) (blob : list byte) : result MrdfProfile :=
  let lower := Py.lower file_path in
  if path_hint lower then get_profile_by_key "physics"
  else
    match physics_heuristic blob with
    | Ok (Some p) => Ok p
    | Ok None | Raise _ =>
        match stats_heuristic blob with
        | Ok (Some p) => Ok p
        | Ok None | Raise _ => get_profile_by_key "stats"
        end
    end.

End Detector.

(** ** The editor *)

(** The Tk variables and the selection that the edit operations read. *)
Record Widgets := {
  _selected : option MrdfFieldInstance;
  _editor_var : string;
  _enum_choice_var : string;
  _bitmask_vars : list (Z * bool);
  hex_edit_var : string;
  _hex_sel_start : option Z;
  _hex_sel_len : option Z
}.

(** The attributes of the application that the edit operations write. *)
Record Buffers := {
  original_blob : option (list byte);
  working_blob : option (list byte);
  edits : gmap Z Py.value;
  profile : MrdfProfile;
  instances : list MrdfFieldInstance
}.

(** The message box an operation ends with, or none. *)
Inductive dialog :=
| Silent
| InvalidEdit (e : exn)
| WriteFailed (e : exn)
| Applied
| HexParseFailed (e : exn)
| ByteCountMismatch (target provided : Z)
| Overwritten (n start : Z).

Definition set_working (st : Buffers) (w : list byte) (e : gmap Z Py.value) : Buffers :=
  {| original_blob := original_blob st;
     working_blob := Some w;
     edits := e;
     profile := profile st;
     instances := instances st |}.

(** Of the attributes in [Buffers], [refresh_parse] assigns [instances];
    the rest of it, and [_refresh_hex_view], rebuild widgets. *)
Definition refresh_parse (st : Buffers) : Buffers :=
  match working_blob st with
  | None => st
  | Some w =>
      {| original_blob := original_blob st;
         working_blob := working_blob st;
         edits := edits st;
         profile := profile st;
         instances := parse_mrdf w (defs (profile st)) |}
  end.

Definition is_empty (s : string) : bool :=
  match s with
  | EmptyString => true
  | _ => false
  end.

Section Editor.

(** [float(s)] on a [str]. *)
Variable float_of_str : string -> result spec_float.

(** The first [try] of [apply_edit]: the new value from the widgets. *)
Definition new_value (ui : Widgets) (d : MrdfFieldDef) : result Py.value :=
  if String.eqb (name d) "TyreAvailability" then
    Ok (Int (fold_left
               (fun (new_val : Z) (mv : Z * bool) =>
                  if snd mv then Z.lor new_val (fst mv) else new_val)
               (_bitmask_vars ui) 0))
  else if match enum d with Some _ => true | None => false end
          && negb (is_empty (strip (_enum_choice_var ui))) then
    match split (_enum_choice_var ui) with
    | s :: _ => let* n := int_of_str 10 s in Ok (Int n)
    | [] => Raise IndexError
    end
  else
    let s := strip (_editor_var ui) in
    match scalar d with
    | K_float => let* x := float_of_str s in Ok (Float x)
    | _ =>
        let* n := (if startswith (lower s) "0x" then int_of_str 16 s
                   else int_of_str 10 s) in
        Ok (Int n)
    end.

Definition apply_edit (ui : Widgets) (st : Buffers) : Buffers * dialog :=
  match _selected ui, working_blob st with
  | Some inst, Some work =>
      let d := definition inst in
      match new_value ui d with
      | Raise e => (st, InvalidEdit e)
      | Ok new_val =>
          match write_scalar work (offset d) (scalar d) new_val with
          | (out, Ok _) =>
              (refresh_parse
                 (set_working st out (<[offset d := new_val]> (edits st))),
               Applied)
          | (_, Raise e) => (st, WriteFailed e)
          end
      end
  | _, _ => (st, Silent)
  end.

End Editor.

Definition revert_field (ui : Widgets) (st : Buffers) : Buffers :=
  match _selected ui, original_blob st, working_blob st with
  | Some inst, Some orig, Some work =>
      let d := definition inst in
      match edits st !! offset d with
      | None => st
      | Some _ =>
          let n := snd (_FMT (scalar d)) in
          refresh_parse
            (set_working st
               (slice_assign work (offset d) (offset d + n)
                  (slice orig (offset d) (offset d + n)))
               (delete (offset d) (edits st)))
      end
  | _, _, _ => st
  end.

(** [payload.hex(" ").upper()], the text the overwrite entry is filled
    with when a field is selected. *)
Definition hex_digit_upper (n : Z) : ascii :=
  ascii_of_N (Z.to_N (if n <? 10 then 48 + n else 55 + n)).

Definition hex_byte_upper (b : byte) : string :=
  let n := Struct.Z_of_byte b in
  String (hex_digit_upper (n / 16)) (String (hex_digit_upper (n mod 16)) EmptyString).

Fixpoint hex_upper (bs : list byte) : string :=
  match bs with
  | [] => EmptyString
  | [b] => hex_byte_upper b
  | b :: t => String.append (hex_byte_upper b) (String " " (hex_upper t))
  end.

(** [bytes(int(p, 16) for p in parts)] *)
Fixpoint bytes_of_hex_parts (parts : list string) : result (list byte) :=
  match parts with
  | [] => Ok []
  | p :: rest =>
      let* v := int_of_str 16 p in
      if (0 <=? v) && (v <=? 255) then
        let* bs := bytes_of_hex_parts rest in
        Ok (Struct.byte_of_Z v :: bs)
      else Raise ValueError
  end.

Definition hex_parts (s : string) : list string :=
  split (replace "," " " (strip s)).

Definition _parse_hex_bytes (s : string) : result (list byte) :=
  let s' := strip s in
  if is_empty s' then Ok []
  else
    match bytes_of_hex_parts (split (replace "," " " s')) with
    | Ok bs => Ok bs
    | Raise _ => Raise ValueError
    end.

Definition apply_hex_overwrite (ui : Widgets) (st : Buffers) : Buffers * dialog :=
  match working_blob st with
  | None => (st, Silent)
  | Some work =>
      match _hex_sel_start ui, _hex_sel_len ui with
      | Some start, Some n =>
          match _parse_hex_bytes (hex_edit_var ui) with
          | Raise e => (st, HexParseFailed e)
          | Ok new_bytes =>
              if negb (len new_bytes =? n) then
                (st, ByteCountMismatch n (len new_bytes))
              else
                (refresh_parse
                   (set_working st
                      (slice_assign work start (start + n) new_bytes)
                      (edits st)),
                 Overwritten n start)
          end
      | _, _ => (st, Silent)
      end
  end.

(** ** What the specification expects of the codec *)

(** The value a decode returns after an encode of [v], "normalized per the
    kind's semantics": float32 precision for ["float"], [0]/[1] for
    ["bool32"], the low byte for ["uint8"], and 32-bit unsigned and two's
    complement wrap-around for ["uint32"] and ["int32"]. *)
Definition normalized (scalar : Scalar) (v : Py.value) : result Py.value :=
  match scalar with
  | K_float => let* x := Py.float v in Ok (Float (F32.to_f64 (F32.of_f64 x)))
  | K_bool32 => let* iv := Py.int v in Ok (Int (if iv =? 0 then 0 else 1))
  | K_uint8 => let* iv := Py.int v in Ok (Int (iv mod 2 ^ 8))
  | K_uint32 => let* iv := Py.int v in Ok (Int (iv mod 2 ^ 32))
  | K_int32 => let* iv := Py.int v in Ok (Int ((iv + 2 ^ 31) mod 2 ^ 32 - 2 ^ 31))
  end.

(** The values of a kind that its format takes after conversion and
    masking: a number for the unsigned kinds, a number whose float32
    rounding is not an overflow for ["float"].  The ["int32"] kind is left
    to [int32_packs]. *)
Definition encodable (scalar : Scalar) (v : Py.value) : Prop :=
  match scalar with
  | K_float => exists x, Py.float v = Ok x /\ F32.overflows x = false
  | K_int32 => False
  | _ => exists iv, Py.int v = Ok iv
  end.

(** ["<i"] takes the masked value only below [2^31]. *)
Definition int32_packs (iv : Z) : bool := iv mod 2 ^ 32 <? 2 ^ 31.

(** The bytes that [write_scalar] hands to the slice assignment, with the
    masks read as remainders. *)
Definition packed_bytes (scalar : Scalar) (v : Py.value) : result (list byte) :=
  match scalar with
  | K_float => let* x := Py.float v in Struct.pack Struct.fmt_f (Float x)
  | K_uint8 => let* iv := Py.int v in Struct.pack Struct.fmt_B (Int (iv mod 2 ^ 8))
  | K_uint32 => let* iv := Py.int v in Struct.pack Struct.fmt_I (Int (iv mod 2 ^ 32))
  | K_bool32 =>
      let* iv := Py.int v in Struct.pack Struct.fmt_I (Int (if iv =? 0 then 0 else 1))
  | K_int32 => let* iv := Py.int v in Struct.pack Struct.fmt_i (Int (iv mod 2 ^ 32))
  end.

(** ** What the specification expects of the parser *)

(** "Sorted by (section, offset) ascending, section compared
    lexicographically, offset numerically." *)
Definition section_offset_le (a b : MrdfFieldInstance) : Prop :=
  String.ltb (section (definition a)) (section (definition b)) = true
  \/ (section (definition a) = section (definition b) /\ inst_offset a <= inst_offset b).

(** A definition whose decode succeeds on [blob]. *)
Definition decodes (blob : list byte) (d : MrdfFieldDef) : bool :=
  match read_scalar blob (offset d) (scalar d) with
  | Ok _ => true
  | Raise _ => false
  end.

(** An instance as a decode of its definition on [blob] makes it. *)
Definition instance_of (blob : list byte) (i : MrdfFieldInstance) : Prop :=
  inst_offset i = offset (definition i)
  /\ read_scalar blob (offset (definition i)) (scalar (definition i)) = Ok (value i, raw i).

(** ** What the specification expects of the detector *)

(** The float32 that a decode reads at [off], if it reads one. *)
Definition float_at (blob : list byte) (off : Z) : option Py.value :=
  match read_scalar blob off K_float with
  | Ok (v, _) => Some v
  | Raise _ => None
  end.

(** Rule 2: the four brake-glow floats decode and lie in (100, 5000),
    (100, 10000), [0, 10] and [0, 10]. *)
Definition physics_plausible (blob : list byte) : bool :=
  match float_at blob 0x0030, float_at blob 0x0034,
        float_at blob 0x0038, float_at blob 0x003C with
  | Some bmin, Some bmax, Some ai, Some pl =>
      lt (lit 100) bmin && lt bmin (lit 5000)
      && (lt (lit 100) bmax && lt bmax (lit 10000))
      && (le (lit 0) ai && le ai (lit 10))
      && (le (lit 0) pl && le pl (lit 10))
  | _, _, _, _ => false
  end.

(** Rule 3: the wheelbase float decodes and lies in (1.0, 6.0). *)
Definition stats_plausible (blob : list byte) : bool :=
  match float_at blob 0x84 with
  | Some wb => lt (lit 1) wb && lt wb (lit 6)
  | None => false
  end.

(** [needle] is a substring of [s]: [s] is some text, then [needle],
    then some text. *)
Definition occurs (needle s : string) : Prop :=
  exists pre post, s = String.append pre (String.append needle post).

(** Rule 1: the path, letters lowercased, has [physicstweaker] as a
    substring, or [physics] between two path separators. *)
Definition path_hints_physics (os_sep file_path : string) : Prop :=
  occurs "physicstweaker" (Py.lower file_path)
  \/ occurs (String.append os_sep (String.append "physics" os_sep)) (Py.lower file_path).

(** ** What the specification expects of the hex literal *)

Definition is_hex_digit (c : ascii) : bool :=
  match digit_value c with
  | Some d => d <? 16
  | None => false
  end.

(** "Two-digit hexadecimal byte tokens." *)
Definition two_hex_digits (t : string) : bool :=
  match t with
  | String a (String b EmptyString) => is_hex_digit a && is_hex_digit b
  | _ => false
  end.

Definition hex_digit_value (c : ascii) : Z :=
  match digit_value c with
  | Some d => d
  | None => 0
  end.

(** The byte a two-digit token denotes. *)
Definition hex_pair_byte (t : string) : byte :=
  match t with
  | String a (String b _) => Struct.byte_of_Z (16 * hex_digit_value a + hex_digit_value b)
  | _ => x00
  end.

(** A token that [int(_, 16)] reads as the value of the byte [b]. *)
Definition reads_as_byte (t : string) (b : byte) : Prop :=
  exists v, int_of_str 16 t = Ok v /\ 0 <= v <= 255 /\ b = Struct.byte_of_Z v.

(** ** Sample inputs *)

Definition zeros4 : list byte := [x00; x00; x00; x00].

(** The double [2^128], the least power of two that float32 cannot hold. *)
Definition two_pow_128 : spec_float := S754_finite false 4503599627370496 76.

(** The float32 encodings of [600.0], [1200.0], [1.0] and [1.0]. *)
Definition brake_glow_example : list byte :=
  [x00; x00; x16; x44;  x00; x00; x96; x44;  x00; x00; x80; x3f;  x00; x00; x80; x3f].

(** A parser of plain decimal literals, [[sign] digits [. digits]], rounded
    to the nearest double: the part of [float(s)] that the sample runs
    need. *)
Fixpoint read_decimal (s : string) (m : Z) (frac : option Z) (seen : bool)
  : option (Z * Z) :=
  match s with
  | EmptyString =>
      if seen then Some (m, match frac with Some k => k | None => 0 end) else None
  | String c r =>
      if Ascii.eqb c "." then
        match frac with
        | None => read_decimal r m (Some 0) seen
        | Some _ => None
        end
      else
        match digit_value c with
        | Some d =>
            if d <? 10 then read_decimal r (m * 10 + d) (option_map Z.succ frac) true
            else None
        | None => None
        end
  end.

Definition decimal_float_of_str (s : string) : result spec_float :=
  let '(neg, body) := int_sign (strip s) in
  match read_decimal body 0 None false with
  | Some (Zpos p, k) =>
      Ok (SFdiv 53 1024 (S754_finite neg p 0) (S754_finite false (Z.to_pos (10 ^ k)) 0))
  | Some (_, _) => Ok (S754_zero neg)
  | None => Raise ValueError
  end.

(** A file of 48 zero bytes, opened under the stats profile. *)
Definition blob48 : list byte := repeat x00 48.

Definition opened48 : Buffers :=
  {| original_blob := Some blob48;
     working_blob := Some blob48;
     edits := ∅;
     profile := stats_profile;
     instances := parse_mrdf blob48 STATS_MRDF_DEFS |}.

(** The fields [Gear_for_100_kmh] (uint32 at 0x28) and [TopSpeed_mps]
    (float at 0x20) of the stats table, as parsed from [blob48]. *)
Definition gear_def : MrdfFieldDef :=
  mk_def "Gear_for_100_kmh" "PERFORMANCE" 0x28 K_uint32
    "Gear needed to reach 100km/h" None.

Definition gear_inst : MrdfFieldInstance :=
  {| definition := gear_def; inst_offset := 0x28; raw := zeros4; value := Int 0 |}.

Definition speed_def : MrdfFieldDef :=
  mk_def "TopSpeed_mps" "PERFORMANCE" 0x20 K_float
    "Top speed in meters/sec. MPH*0.447" None.

Definition speed_inst : MrdfFieldInstance :=
  {| definition := speed_def; inst_offset := 0x20; raw := zeros4;
     value := Float (S754_zero false) |}.

(** The widgets with a field selected, its bytes as the overwrite target,
    and the two entries filled in. *)
Definition widgets (sel : MrdfFieldInstance) (editor hex : string) : Widgets :=
  {| _selected := Some sel;
     _editor_var := editor;
     _enum_choice_var := EmptyString;
     _bitmask_vars := map (fun mb : Z * string => (fst mb, false)) TYRE_BITS;
     hex_edit_var := hex;
     _hex_sel_start := Some (inst_offset sel);
     _hex_sel_len := Some (snd (_FMT (scalar (definition sel)))) |}.


(** ** Further observations on the codec *)

(** The values a decode of each kind can return. *)
Definition value_of_kind (scalar : Scalar) (v : Py.value) : Prop :=
  match scalar with
  | K_float => exists x, v = Float x /\ valid_binary 53 1024 x = true
  | K_int32 => exists z, v = Int z /\ - 2 ^ 31 <= z < 2 ^ 31
  | K_uint32 => exists z, v = Int z /\ 0 <= z < 2 ^ 32
  | K_bool32 => v = Int 0 \/ v = Int 1
  | K_uint8 => exists z, v = Int z /\ 0 <= z < 2 ^ 8
  end.

(** Two byte ranges [[a, a + n)] and [[b, b + m)] that do not meet. *)
Definition disjoint_ranges (a n b m : Z) : Prop := a + n <= b \/ b + m <= a.

(** Two buffers of one length that agree at every index outside
    [[off, off + n)]. *)
Definition same_outside (off n : Z) (a b : list byte) : Prop :=
  len a = len b
  /\ forall i : nat, Z.of_nat i < off \/ off + n <= Z.of_nat i -> a !! i = b !! i.

(** ** Further observations on the parser *)

(** A definition whose bytes lie within [blob]. *)
Definition in_range (blob : list byte) (d : MrdfFieldDef) : bool :=
  (0 <=? offset d) && (offset d + width (scalar d) <=? len blob).

(** An instance whose bytes do not meet the range [[off, off + n)]. *)
Definition away_from (off n : Z) (i : MrdfFieldInstance) : bool :=
  (off + n <=? inst_offset i)
  || (inst_offset i + width (scalar (definition i)) <=? off).

(** A profile whose fields do not overlap. *)
Fixpoint pairwise_disjoint (defs : list MrdfFieldDef) : bool :=
  match defs with
  | [] => true
  | d :: rest =>
      forallb (fun d' =>
                 (offset d + width (scalar d) <=? offset d')
                 || (offset d' + width (scalar d') <=? offset d)) rest
      && pairwise_disjoint rest
  end.

(** ** The rest of the editor *)

(** The value the tree and the editor show for an instance: the pending
    edit at its offset, if there is one. *)
Definition _current_value (st : Buffers) (inst : MrdfFieldInstance) : Py.value :=
  match edits st !! inst_offset inst with
  | Some v => v
  | None => value inst
  end.

(** [self.profile = p] *)
Definition with_profile (st : Buffers) (p : MrdfProfile) : Buffers :=
  {| original_blob := original_blob st;
     working_blob := working_blob st;
     edits := edits st;
     profile := p;
     instances := instances st |}.

(** [label] is what the profile combobox holds. *)
Definition on_profile_changed (label' : string) (st : Buffers) : Buffers :=
  refresh_parse
    match List.find (fun p => String.eqb (label p) label') PROFILES with
    | Some p => with_profile st p
    | None => st
    end.

Definition _set_profile (p : MrdfProfile) (st : Buffers) : Buffers :=
  refresh_parse (with_profile st p).

(** [open_file] from the point where [path] has been chosen and [blob]
    read from it. *)
Definition open_file (os_sep path : string) (blob : list byte) (st : Buffers) : Buffers :=
  let st' := {| original_blob := Some blob;
                working_blob := Some blob;
                edits := ∅;
                profile := profile st;
                instances := instances st |} in
  match detect_profile os_sep path blob with
  | Ok detected => _set_profile detected st'
  | Raise _ => st'
  end.

(** [confirmed] is the answer to the yes/no box. *)
Definition discard_edits (confirmed : bool) (st : Buffers) : Buffers :=
  match original_blob st with
  | None => st
  | Some orig =>
      if negb confirmed then st
      else refresh_parse (set_working st orig ∅)
  end.

(** The message box [revert_hex_overwrite] ends with, or none. *)
Inductive revert_dialog :=
| RevertSilent
| RevertFailed
| Reverted (n start : Z).

Definition revert_hex_overwrite (ui : Widgets) (st : Buffers) : Buffers * revert_dialog :=
  match original_blob st, working_blob st with
  | Some orig, Some work =>
      match _hex_sel_start ui, _hex_sel_len ui with
      | Some start, Some n =>
          if len orig <? start + n then (st, RevertFailed)
          else
            (refresh_parse
               (set_working st
                  (slice_assign work start (start + n) (slice orig start (start + n)))
                  (edits st)),
             Reverted n start)
      | _, _ => (st, RevertSilent)
      end
  | _, _ => (st, RevertSilent)
  end.

(** The commands the menus and buttons are bound to, each with the
    widgets as they are when it is invoked. *)
Inductive command :=
| ApplyEdit (ui : Widgets)
| RevertField (ui : Widgets)
| Overwrite (ui : Widgets)
| RevertBytes (ui : Widgets)
| Discard (confirmed : bool)
| ProfileChanged (label' : string)
| Reparse.

Section Commands.

Variable float_of_str : string -> result spec_float.

Definition invoke (st : Buffers) (c : command) : Buffers :=
  match c with
  | ApplyEdit ui => fst (apply_edit float_of_str ui st)
  | RevertField ui => revert_field ui st
  | Overwrite ui => fst (apply_hex_overwrite ui st)
  | RevertBytes ui => fst (revert_hex_overwrite ui st)
  | Discard confirmed => discard_edits confirmed st
  | ProfileChanged label' => on_profile_changed label' st
  | Reparse => refresh_parse st
  end.

(** The state after a sequence of commands. *)
Definition invoke_all (st : Buffers) (cs : list command) : Buffers :=
  fold_left invoke cs st.

End Commands.

(** The overwrite target of a command lies within a buffer of [n] bytes. *)
Definition target_within (n : Z) (c : command) : Prop :=
  match c with
  | Overwrite ui =>
      match _hex_sel_start ui, _hex_sel_len ui with
      | Some start, Some k => 0 <= start /\ start + k <= n
      | _, _ => True
      end
  | _ => True
  end.

(** The application before a file is opened. *)
Definition initial : Buffers :=
  {| original_blob := None;
     working_blob := None;
     edits := ∅;
     profile := stats_profile;
     instances := [] |}.

(** A state with [blob] as the snapshot taken at open whose instances are
    the parse of its working buffer under its profile, a registered one. *)
Definition consistent (blob : list byte) (st : Buffers) : Prop :=
  original_blob st = Some blob
  /\ In (profile st) PROFILES
  /\ exists work,
      working_blob st = Some work
      /\ instances st = parse_mrdf work (defs (profile st)).

(** ** Numbers as text *)

Fixpoint string_forall (p : ascii -> bool) (s : string) : bool :=
  match s with
  | EmptyString => true
  | String c r => p c && string_forall p r
  end.

(** The digits of [n] in [base], most significant first, in front of
    [acc]: [0 <= n], [fuel] at least their number. *)
Fixpoint digits_acc (base : Z) (fuel : nat) (n : Z) (acc : string) : string :=
  match fuel with
  | O => acc
  | S fuel' =>
      let acc' := String (hex_digit_upper (n mod base)) acc in
      if n <? base then acc' else digits_acc base fuel' (n / base) acc'
  end.

Definition digits (base n : Z) : string :=
  digits_acc base (S (Z.to_nat (Z.log2 n))) n EmptyString.

(** [str(z)] on an [int], which [f"{z}"] gives too.  CPython, from 3.11
    on, raises [ValueError] when [z] has more than [int_max_str_digits]
    decimal digits, the sign not counted. *)
Definition str_of_Z (z : Z) : result string :=
  let s := digits 10 (Z.abs z) in
  if int_max_str_digits <? Z.of_nat (String.length s) then Raise ValueError
  else Ok (if z <? 0 then String "-" s else s).

Fixpoint fill (n : nat) (c : ascii) (s : string) : string :=
  match n with
  | O => s
  | S n' => String c (fill n' c s)
  end.

(** [s.ljust(w)] *)
Definition ljust (w : nat) (s : string) : string :=
  String.append s (fill (w - String.length s) " " EmptyString).

(** The format [{z:08X}]. *)
Definition format_08X (z : Z) : string :=
  if z <? 0 then
    let s := digits 16 (- z) in String "-" (fill (7 - String.length s) "0" s)
  else
    let s := digits 16 z in fill (8 - String.length s) "0" s.

(** ** The hex view *)

Definition is_printable (b : Z) : bool := (32 <=? b) && (b <=? 126).

Definition clamp (n lo hi : Z) : Z := Z.max lo (Z.min hi n).

(** [range(start, stop, step)] *)
Definition range (start stop step : Z) : result (list Z) :=
  if step =? 0 then Raise ValueError
  else
    let n := if 0 <? step
             then (if start <? stop then (stop - start - 1) / step + 1 else 0)
             else (if stop <? start then (start - stop - 1) / (- step) + 1 else 0) in
    Ok (map (fun i => start + Z.of_nat i * step) (seq 0 (Z.to_nat n))).

Fixpoint ascii_part (chunk : list byte) : string :=
  match chunk with
  | [] => EmptyString
  | x :: rest =>
      String (if is_printable (Struct.Z_of_byte x) then ascii_of_byte x else "."%char)
        (ascii_part rest)
  end.

Definition hex_line (blob : list byte) (bytes_per_line off : Z) : string :=
  let chunk := slice blob off (off + bytes_per_line) in
  let hex_part := ljust (Z.to_nat (bytes_per_line * 3 - 1)) (hex_upper chunk) in
  String.append (format_08X off)
    (String.append "  "
       (String.append hex_part
          (String.append "  |" (String.append (ascii_part chunk) "|")))).

Definition format_hex_lines (blob : list byte) (start nbytes bytes_per_line : Z)
  : result (list string) :=
  let end_ := Z.min (len blob) (start + nbytes) in
  let* offs := range start end_ bytes_per_line in
  Ok (map (hex_line blob bytes_per_line) offs).

(** The attributes of the hex view: the offset its page starts at, its
    lines, the index from a line's offset to its place in the text, and
    the ranges that carry the tag of the selected value, each a line
    number with two columns.  The tag holds what [tag_add] gave it since
    [tag_remove] last cleared it or the text was last deleted; a range
    added twice is in it once. *)
Record HexView := {
  hex_anchor : Z;
  hex_text : list string;
  _hex_line_index : gmap Z Z;
  sel_value : gset (Z * Z * Z)
}.

Definition hex_bytes_per_page : Z := 16 * 64.

(** The loop of [_refresh_hex_view] over [enumerate(lines)]. *)
Fixpoint index_lines (idx : Z) (lines : list string) (index : gmap Z Z)
  : result (gmap Z Z) :=
  match lines with
  | [] => Ok index
  | line :: rest =>
      match split line with
      | [] => Raise IndexError
      | tok :: _ =>
          let* off := int_of_str 16 tok in
          index_lines (idx + 1) rest (<[off := idx]> index)
      end
  end.

(** The loop of [_tag_range_in_hex] over [range(sel_start, sel_end)]. *)
Fixpoint tag_offsets (index : gmap Z Z) (offs : list Z) : list (Z * Z * Z) :=
  match offs with
  | [] => []
  | off :: rest =>
      let line_off := (off / 16) * 16 in
      let byte_i := off - line_off in
      match index !! line_off with
      | None => tag_offsets index rest
      | Some line_idx =>
          let line_no := line_idx + 1 in
          let c0 := 10 + byte_i * 3 in
          (line_no, c0, c0 + 2) :: tag_offsets index rest
      end
  end.

(** The ranges [_tag_range_in_hex] adds to the tag, in the order of its
    calls of [tag_add]. *)
Definition _tag_range_in_hex (working : option (list byte)) (hv : HexView)
    (start length : Z) : result (list (Z * Z * Z)) :=
  match working with
  | None => Ok []
  | Some _ =>
      if length <=? 0 then Ok []
      else
        let page_start := hex_anchor hv in
        let page_end := hex_anchor hv + hex_bytes_per_page in
        let sel_start := Z.max start page_start in
        let sel_end := Z.min (start + length) page_end in
        if sel_end <=? sel_start then Ok []
        else
          let* offs := range sel_start sel_end 1 in
          Ok (tag_offsets (_hex_line_index hv) offs)
  end.

Definition with_target (ui : Widgets) (start length : Z) (hex : string) : Widgets :=
  {| _selected := _selected ui;
     _editor_var := _editor_var ui;
     _enum_choice_var := _enum_choice_var ui;
     _bitmask_vars := _bitmask_vars ui;
     hex_edit_var := hex;
     _hex_sel_start := Some start;
     _hex_sel_len := Some length |}.

(** Where a dump whose page starts at [anchor], on a line boundary, has
    the two digits of the byte at [off]: the line, counted from one, and
    the columns from the first to past the second. *)
Definition digits_range (anchor off : Z) : Z * Z * Z :=
  let line_no := (off / 16 * 16 - anchor) / 16 + 1 in
  let c0 := 10 + (off mod 16) * 3 in
  (line_no, c0, c0 + 2).

Definition with_tags (hv : HexView) (tags : gset (Z * Z * Z)) : HexView :=
  {| hex_anchor := hex_anchor hv; hex_text := hex_text hv;
     _hex_line_index := _hex_line_index hv; sel_value := tags |}.

(** [_highlight_selected_in_hex] from the point where the anchor is
    settled: the target, the entry and the tag, which keeps the ranges it
    has and takes those of [inst]. *)
Definition highlight (working : option (list byte)) (inst : MrdfFieldInstance)
    (ui : Widgets) (hv : HexView) : result (Widgets * HexView) :=
  match working with
  | None => Ok (ui, hv)
  | Some work =>
      let start := inst_offset inst in
      let length := snd (_FMT (scalar (definition inst))) in
      let payload := slice work start (start + length) in
      let* tags := _tag_range_in_hex working hv start length in
      Ok (with_target ui start length (hex_upper payload),
          with_tags hv (sel_value hv ∪ list_to_set tags))
  end.

(** The text is deleted and written anew, which leaves the tag with no
    range; the call for the selected field, with [refresh_only] set, then
    clears a tag that has none and goes on as [highlight]. *)
Definition _refresh_hex_view (working : option (list byte)) (ui : Widgets) (hv : HexView)
  : result (Widgets * HexView) :=
  match working with
  | None =>
      Ok (ui, {| hex_anchor := hex_anchor hv; hex_text := [];
                 _hex_line_index := _hex_line_index hv; sel_value := ∅ |})
  | Some blob =>
      let anchor := (hex_anchor hv / 16) * 16 in
      let anchor := clamp anchor 0 (Z.max 0 (len blob - 1)) in
      let* lines := format_hex_lines blob anchor hex_bytes_per_page 16 in
      let* index := index_lines 0 lines ∅ in
      let hv' := {| hex_anchor := anchor; hex_text := lines;
                    _hex_line_index := index; sel_value := ∅ |} in
      match _selected ui with
      | Some sel => highlight working sel ui hv'
      | None => Ok (ui, hv')
      end
  end.

Definition with_anchor (hv : HexView) (anchor : Z) : HexView :=
  {| hex_anchor := anchor; hex_text := hex_text hv;
     _hex_line_index := _hex_line_index hv; sel_value := sel_value hv |}.

(** The tag is cleared on entry only: with [refresh_only] unset, the
    ranges that the call of [_refresh_hex_view] tagged for the field
    selected in [ui] stay, and those of [inst] are added. *)
Definition _highlight_selected_in_hex (working : option (list byte))
    (inst : MrdfFieldInstance) (refresh_only : bool) (ui : Widgets) (hv : HexView)
  : result (Widgets * HexView) :=
  let hv := with_tags hv ∅ in
  match working with
  | None => Ok (ui, hv)
  | Some work =>
      if refresh_only then highlight working inst ui hv
      else
        let anchor := (inst_offset inst / 16) * 16 in
        let anchor := clamp (anchor - 16 * 4) 0 (Z.max 0 (len work - 1)) in
        let* r := _refresh_hex_view working ui (with_anchor hv anchor) in
        highlight working inst (fst r) (snd r)
  end.

Definition hex_page (working : option (list byte)) (direction : Z)
    (ui : Widgets) (hv : HexView) : result (Widgets * HexView) :=
  match working with
  | None => Ok (ui, hv)
  | Some work =>
      let anchor := hex_anchor hv + direction * hex_bytes_per_page in
      let anchor := clamp anchor 0 (Z.max 0 (len work - 1)) in
      _refresh_hex_view working ui (with_anchor hv anchor)
  end.

(** [hex_jump]; the [bool] tells whether it ended with the error box. *)
Definition hex_jump (working : option (list byte)) (jump_var : string)
    (ui : Widgets) (hv : HexView) : result (Widgets * HexView) * bool :=
  match working with
  | None => (Ok (ui, hv), false)
  | Some work =>
      let s := strip jump_var in
      match (if startswith (lower s) "0x" then int_of_str 16 s else int_of_str 16 s) with
      | Raise _ => (Ok (ui, hv), true)
      | Ok off =>
          let off := clamp off 0 (Z.max 0 (len work - 1)) in
          (_refresh_hex_view working ui (with_anchor hv ((off / 16) * 16)), false)
      end
  end.

(** ** Selecting a field *)

(** [sep.join(parts)] *)
Fixpoint join (sep : string) (parts : list string) : string :=
  match parts with
  | [] => EmptyString
  | [p] => p
  | p :: rest => String.append p (String.append sep (join sep rest))
  end.

(** [e.get(iv, "Unknown")] on the table of an enumeration. *)
Definition enum_get (e : list (Z * string)) (iv : Z) : string :=
  match List.find (fun kv => fst kv =? iv) e with
  | Some kv => snd kv
  | None => "Unknown"
  end.

(** The text [f"{iv} ({label})"], the label looked up first. *)
Definition enum_text (e : list (Z * string)) (iv : Z) : result string :=
  let label := enum_get e iv in
  let* s := str_of_Z iv in
  Ok (String.append s (String.append " (" (String.append label ")"))).

(** The checkboxes as [_on_select] sets them from the low byte. *)
Definition bits_of (byte_val : Z) (vars : list (Z * bool)) : list (Z * bool) :=
  map (fun mv : Z * bool => (fst mv, negb (Z.land byte_val (fst mv) =? 0))) vars.

Section Select.

(** [str(x)] and the format [{x:.6g}] on a float. *)
Variable str_of_float : spec_float -> string.
Variable format_6g : spec_float -> string.

Definition str (v : Py.value) : result string :=
  match v with
  | Int z => str_of_Z z
  | Float x => Ok (str_of_float x)
  end.

Definition _value_to_string (d : MrdfFieldDef) (v : Py.value) : result string :=
  if String.eqb (name d) "TyreAvailability" then
    let* i := Py.int v in
    let byte_val := Z.land i 0xFF in
    let parts :=
      map snd
        (List.filter (fun ml : Z * string => negb (Z.land byte_val (fst ml) =? 0))
           TYRE_BITS) in
    Ok (String.append "0x"
          (String.append (hex_byte_upper (Struct.byte_of_Z byte_val))
             (String.append " ("
                (String.append
                   match parts with
                   | [] => "None"
                   | _ => join ", " parts
                   end
                   ")"))))
  else
    match enum d with
    | Some e => let* iv := Py.int v in enum_text e iv
    | None =>
        match scalar d with
        | K_float => let* x := Py.float v in Ok (format_6g x)
        | _ => let* i := Py.int v in str_of_Z i
        end
    end.

(** [_on_select] from the point where the instance of the selected row
    has been found, on the widgets that the edit operations read and on
    the hex view.  An exception leaves through the event loop. *)
Definition _on_select (st : Buffers) (inst : MrdfFieldInstance)
    (ui : Widgets) (hv : HexView) : result (Widgets * HexView) :=
  let d := definition inst in
  let current := _current_value st inst in
  let* shown := _value_to_string d current in
  let* editor :=
    match scalar d with
    | K_float => let* x := Py.float current in Ok (str_of_float x)
    | _ => str current
    end in
  let* choice :=
    match enum d with
    | Some e => let* iv := Py.int current in enum_text e iv
    | None => Ok (_enum_choice_var ui)
    end in
  let* bits :=
    if String.eqb (name d) "TyreAvailability" then
      let* c := Py.int current in Ok (bits_of (Z.land c 0xFF) (_bitmask_vars ui))
    else Ok (_bitmask_vars ui) in
  _highlight_selected_in_hex (working_blob st) inst false
    {| _selected := Some inst;
       _editor_var := editor;
       _enum_choice_var := choice;
       _bitmask_vars := bits;
       hex_edit_var := hex_edit_var ui;
       _hex_sel_start := _hex_sel_start ui;
       _hex_sel_len := _hex_sel_len ui |} hv.

End Select.

(** ** The tree *)

(** Whether the filter keeps an instance. *)
Definition matches (filter_txt : string) (inst : MrdfFieldInstance) : bool :=
  is_empty filter_txt
  || negb (negb (contains filter_txt (lower (section (definition inst))))
           && negb (contains filter_txt (lower (name (definition inst))))).

(** [sections.setdefault(sec, []).append(inst)], the dict as the list of
    its items in the order the keys came in. *)
Fixpoint setdefault_append (sec : string) (inst : MrdfFieldInstance)
    (sections : list (string * list MrdfFieldInstance))
  : list (string * list MrdfFieldInstance) :=
  match sections with
  | [] => [(sec, [inst])]
  | (s, g) :: rest =>
      if String.eqb s sec then (s, g ++ [inst]) :: rest
      else (s, g) :: setdefault_append sec inst rest
  end.

Definition group_sections (filter_txt : string) (insts : list MrdfFieldInstance)
  : list (string * list MrdfFieldInstance) :=
  fold_left
    (fun sections inst =>
       if matches filter_txt inst
       then setdefault_append (section (definition inst)) inst sections
       else sections)
    insts [].

(** [sections[sec]]; the keys asked for are those of the dict. *)
Fixpoint dict_get (sec : string) (sections : list (string * list MrdfFieldInstance))
  : list MrdfFieldInstance :=
  match sections with
  | [] => []
  | (s, g) :: rest => if String.eqb s sec then g else dict_get sec rest
  end.

(** [sorted] on strs, and on instances with the offset as the key: stable
    insertion sorts. *)
Fixpoint insert_str (s : string) (l : list string) : list string :=
  match l with
  | [] => [s]
  | x :: rest => if String.ltb x s then x :: insert_str s rest else s :: l
  end.

Definition sorted_strs (l : list string) : list string := fold_right insert_str [] l.

Fixpoint insert_by_offset (i : MrdfFieldInstance) (l : list MrdfFieldInstance)
  : list MrdfFieldInstance :=
  match l with
  | [] => [i]
  | x :: rest =>
      if inst_offset x <? inst_offset i then x :: insert_by_offset i rest else i :: l
  end.

Definition sorted_by_offset (l : list MrdfFieldInstance) : list MrdfFieldInstance :=
  fold_right insert_by_offset [] l.

Section Tree.

Variable format_6g : spec_float -> string.

(** The rows under a section: each instance with the text of its value
    column; the other columns are fields of the instance. *)
Fixpoint show_rows (st : Buffers) (insts : list MrdfFieldInstance)
  : result (list (MrdfFieldInstance * string)) :=
  match insts with
  | [] => Ok []
  | inst :: rest =>
      let* shown := _value_to_string format_6g (definition inst) (_current_value st inst) in
      let* rows := show_rows st rest in
      Ok ((inst, shown) :: rows)
  end.

Fixpoint show_sections (st : Buffers) (secs : list (string * list MrdfFieldInstance))
  : result (list (string * list (MrdfFieldInstance * string))) :=
  match secs with
  | [] => Ok []
  | (sec, insts) :: rest =>
      let* rows := show_rows st insts in
      let* nodes := show_sections st rest in
      Ok ((sec, rows) :: nodes)
  end.

(** The tree [_rebuild_tree] builds: the section nodes in order, each
    with its rows in order.  [filter_var] is what the filter entry holds. *)
Definition _rebuild_tree (filter_var : string) (st : Buffers)
  : result (list (string * list (MrdfFieldInstance * string))) :=
  let filter_txt := lower (strip filter_var) in
  let sections := group_sections filter_txt (instances st) in
  show_sections st
    (map (fun sec => (sec, sorted_by_offset (dict_get sec sections)))
       (sorted_strs (map fst sections))).

End Tree.

(** ** More sample inputs *)

(** The hex view before anything is shown. *)
Definition blank_view : HexView :=
  {| hex_anchor := 0; hex_text := []; _hex_line_index := ∅; sel_value := ∅ |}.

(** A stats file of 192 bytes whose tyre mask at 0xBC holds 0x85, and the
    field as parsed from it. *)
Definition blob_tyres : list byte := repeat x00 0xBC ++ [x85; x00; x00; x00].

Definition opened_tyres : Buffers :=
  {| original_blob := Some blob_tyres;
     working_blob := Some blob_tyres;
     edits := ∅;
     profile := stats_profile;
     instances := parse_mrdf blob_tyres STATS_MRDF_DEFS |}.

Definition tyre_inst : MrdfFieldInstance :=
  {| definition :=
       mk_def "TyreAvailability" "TYRES" 0xbc K_uint32
         "Tyre availability bitmask in low byte (0x40=All Weather override; else bits 0-5: Soft/Med/Hard/Inter/Wet/Unknown)" None;
     inst_offset := 0xbc;
     raw := [x85; x00; x00; x00];
     value := Int 0x85 |}.

(** The widgets after the tyre field of a larger file was selected and a
    file of 48 bytes opened: no field is selected, and the overwrite
    target, which only a selection sets, is still the four bytes at 0xBC;
    the entry holds four bytes. *)
Definition stale_target_widgets : Widgets :=
  {| _selected := None;
     _editor_var := EmptyString;
     _enum_choice_var := EmptyString;
     _bitmask_vars := map (fun mb : Z * string => (fst mb, false)) TYRE_BITS;
     hex_edit_var := "85 00 00 00";
     _hex_sel_start := Some 0xBC;
     _hex_sel_len := Some 4 |}.

(** * Properties *)
(** ** Slices *)

Section Slices.
Context {A : Type}.
Implicit Types l x : list A.

Lemma len_nonneg l : 0 <= len l.
Proof. unfold len. lia. Qed.

Lemma slice_index_in_range n i : 0 <= i <= n -> slice_index n i = i.
Proof. intros H. unfold slice_index. destruct (Z.ltb_spec i 0); lia. Qed.

Lemma slice_in_range l a b :
  0 <= a -> a <= b -> b <= len l ->
  slice l a b = take (Z.to_nat (b - a)) (drop (Z.to_nat a) l).
Proof.
  intros Ha Hab Hb. unfold slice. rewrite !slice_index_in_range by lia. reflexivity.
Qed.

Lemma slice_assign_in_range l a b x :
  0 <= a -> a <= b -> b <= len l ->
  slice_assign l a b x = take (Z.to_nat a) l ++ x ++ drop (Z.to_nat b) l.
Proof.
  intros Ha Hab Hb. unfold slice_assign. rewrite !slice_index_in_range by lia.
  rewrite Z.max_r by lia. reflexivity.
Qed.

Lemma len_slice l a n :
  0 <= a -> 0 <= n -> a + n <= len l -> len (slice l a (a + n)) = n.
Proof.
  intros Ha Hn Hb. rewrite slice_in_range by lia. unfold len in *.
  rewrite length_take, length_drop. lia.
Qed.

Lemma length_slice_assign l a n x :
  0 <= a -> a + n <= len l -> len x = n ->
  length (slice_assign l a (a + n) x) = length l.
Proof.
  intros Ha Hb Hx. pose proof (len_nonneg x).
  rewrite slice_assign_in_range by lia. unfold len in *.
  rewrite !length_app, length_take, length_drop. lia.
Qed.

Lemma len_slice_assign l a n x :
  0 <= a -> a + n <= len l -> len x = n ->
  len (slice_assign l a (a + n) x) = len l.
Proof.
  intros. unfold len. rewrite (length_slice_assign l a n x) by assumption. reflexivity.
Qed.

Lemma slice_slice_assign l a n x :
  0 <= a -> a + n <= len l -> len x = n ->
  slice (slice_assign l a (a + n) x) a (a + n) = x.
Proof.
  intros Ha Hb Hx. pose proof (len_nonneg x).
  pose proof (len_slice_assign l a n x Ha Hb Hx) as Hl.
  rewrite slice_in_range by lia. rewrite slice_assign_in_range by lia.
  unfold len in *.
  rewrite drop_app_length' by (rewrite length_take; lia).
  apply take_app_length'. lia.
Qed.

Lemma lookup_slice_assign_outside l a n x (i : nat) :
  0 <= a -> a + n <= len l -> len x = n ->
  Z.of_nat i < a \/ a + n <= Z.of_nat i ->
  slice_assign l a (a + n) x !! i = l !! i.
Proof.
  intros Ha Hb Hx Hi. pose proof (len_nonneg x).
  rewrite slice_assign_in_range by lia. unfold len in *.
  destruct Hi as [Hi|Hi].
  - rewrite lookup_app_l by (rewrite length_take; lia).
    apply lookup_take_lt. lia.
  - rewrite lookup_app_r by (rewrite length_take; lia).
    rewrite lookup_app_r by (rewrite length_take; lia).
    rewrite lookup_drop. f_equal. rewrite length_take. lia.
Qed.

Lemma slice_assign_slice_same l a n :
  0 <= a -> 0 <= n -> a + n <= len l ->
  slice_assign l a (a + n) (slice l a (a + n)) = l.
Proof.
  intros Ha Hn Hb. rewrite slice_assign_in_range, slice_in_range by lia.
  replace (Z.to_nat (a + n)) with (Z.to_nat a + Z.to_nat (a + n - a))%nat by lia.
  rewrite <- (take_drop (Z.to_nat a) l) at 4.
  f_equal. rewrite <- drop_drop. apply take_drop.
Qed.
End Slices.

(** ** Little-endian words *)

Lemma Z_of_byte_range b : 0 <= Struct.Z_of_byte b < 256.
Proof.
  unfold Struct.Z_of_byte. pose proof (Byte.to_N_bounded b). lia.
Qed.

Lemma Z_of_byte_of_Z z : Struct.Z_of_byte (Struct.byte_of_Z z) = z mod 256.
Proof.
  unfold Struct.Z_of_byte, Struct.byte_of_Z.
  pose proof (Z.mod_pos_bound z 256 ltac:(lia)) as Hr.
  destruct (Byte.of_N (Z.to_N (z mod 256))) as [b|] eqn:E.
  - apply Byte.to_of_N in E. rewrite E. lia.
  - apply Byte.of_N_None_iff in E. lia.
Qed.

Lemma byte_of_Z_of_byte b : Struct.byte_of_Z (Struct.Z_of_byte b) = b.
Proof.
  unfold Struct.Z_of_byte, Struct.byte_of_Z.
  pose proof (Byte.to_N_bounded b).
  rewrite Z.mod_small by lia. rewrite N2Z.id, Byte.of_to_N. reflexivity.
Qed.

Lemma length_le_bytes n w : length (Struct.le_bytes n w) = n.
Proof. revert w. induction n as [|n IH]; intros w; cbn; [reflexivity|]. rewrite IH. reflexivity. Qed.

Lemma le_word_le_bytes n w :
  Struct.le_word (Struct.le_bytes n w) = w mod 2 ^ (8 * Z.of_nat n).
Proof.
  revert w. induction n as [|n IH]; intros w.
  - cbn. rewrite Z.mod_1_r. reflexivity.
  - cbn [Struct.le_bytes Struct.le_word]. rewrite Z_of_byte_of_Z, IH.
    replace (8 * Z.of_nat (S n)) with (8 + 8 * Z.of_nat n) by lia.
    rewrite Z.pow_add_r by lia. change (2 ^ 8) with 256.
    rewrite Z.rem_mul_r; [reflexivity|lia|]. apply Z.pow_pos_nonneg; lia.
Qed.

(** ** Rounding to a binary format gives a value of the format *)

Lemma digits2_pos_bounds (m : positive) :
  2 ^ (Zpos (digits2_pos m) - 1) <= Zpos m < 2 ^ Zpos (digits2_pos m).
Proof.
  induction m as [p IH | p IH | ]; cbn [digits2_pos].
  - rewrite Pos2Z.inj_succ.
    replace (Z.succ (Zpos (digits2_pos p)) - 1) with (Z.succ (Zpos (digits2_pos p) - 1)) by lia.
    rewrite !Z.pow_succ_r by lia. lia.
  - rewrite Pos2Z.inj_succ.
    replace (Z.succ (Zpos (digits2_pos p)) - 1) with (Z.succ (Zpos (digits2_pos p) - 1)) by lia.
    rewrite !Z.pow_succ_r by lia. lia.
  - cbn. lia.
Qed.

Lemma Zdigits2_nonneg m : 0 <= Zdigits2 m.
Proof. destruct m; cbn; lia. Qed.

Lemma Zdigits2_bounds m : 0 < m -> 2 ^ (Zdigits2 m - 1) <= m < 2 ^ Zdigits2 m.
Proof. destruct m; try lia. intros _. apply digits2_pos_bounds. Qed.

Lemma Zdigits2_pos m : 0 < m -> 0 < Zdigits2 m.
Proof. destruct m; cbn; lia. Qed.

Lemma Zdigits2_le m k : 0 < m -> 0 <= k -> m < 2 ^ k -> Zdigits2 m <= k.
Proof.
  intros Hm Hk Hlt. destruct (Z_le_gt_dec (Zdigits2 m) k) as [|Hgt]; [assumption|].
  pose proof (Zdigits2_bounds m Hm) as [Hlo _].
  assert (2 ^ k <= 2 ^ (Zdigits2 m - 1)) by (apply Z.pow_le_mono_r; lia). lia.
Qed.

Lemma Zdigits2_gt m k : 0 <= k -> 2 ^ k <= m -> k < Zdigits2 m.
Proof.
  intros Hk Hle. assert (0 < m) by (pose proof (Z.pow_pos_nonneg 2 k); lia).
  destruct (Z_lt_le_dec k (Zdigits2 m)) as [|Hge]; [assumption|].
  pose proof (Zdigits2_bounds m H) as [_ Hhi].
  assert (2 ^ Zdigits2 m <= 2 ^ k) by (apply Z.pow_le_mono_r; lia). lia.
Qed.

Lemma Zdigits2_unique m k : 0 < k -> 2 ^ (k - 1) <= m < 2 ^ k -> Zdigits2 m = k.
Proof.
  intros Hk [Hlo Hhi].
  assert (0 < m) by (pose proof (Z.pow_pos_nonneg 2 (k - 1)); lia).
  pose proof (Zdigits2_le m k H ltac:(lia) Hhi).
  pose proof (Zdigits2_gt m (k - 1) ltac:(lia) Hlo). lia.
Qed.

Lemma shr_1_m mrs : 0 <= shr_m mrs -> shr_m (shr_1 mrs) = shr_m mrs / 2.
Proof.
  destruct mrs as [m r s]; cbn [shr_m]. intros Hm.
  rewrite <- Z.div2_div.
  destruct m as [|[p|p|]|p]; try reflexivity; lia.
Qed.

Lemma iter_shr_1_m p : forall mrs, 0 <= shr_m mrs ->
  shr_m (SpecFloat.iter_pos shr_1 p mrs) = shr_m mrs / 2 ^ Zpos p.
Proof.
  induction p as [p IH | p IH | ]; intros mrs Hm; cbn [SpecFloat.iter_pos].
  - assert (Hp : 0 < 2 ^ Zpos p) by (apply Z.pow_pos_nonneg; lia).
    assert (H1 : 0 <= shr_m (shr_1 mrs)) by (rewrite shr_1_m by assumption; apply Z.div_pos; lia).
    assert (H2 : 0 <= shr_m (SpecFloat.iter_pos shr_1 p (shr_1 mrs))) by (rewrite IH by assumption; apply Z.div_pos; lia).
    rewrite IH by assumption. rewrite IH by assumption. rewrite shr_1_m by assumption.
    rewrite !Z.div_div by lia.
    replace (Zpos p~1) with (1 + Zpos p + Zpos p) by lia.
    rewrite !Z.pow_add_r by lia. rewrite Z.pow_1_r. f_equal. ring.
  - assert (Hp : 0 < 2 ^ Zpos p) by (apply Z.pow_pos_nonneg; lia).
    assert (H2 : 0 <= shr_m (SpecFloat.iter_pos shr_1 p mrs)) by (rewrite IH by assumption; apply Z.div_pos; lia).
    rewrite IH by assumption. rewrite IH by assumption.
    rewrite !Z.div_div by lia.
    replace (Zpos p~0) with (Zpos p + Zpos p) by lia.
    rewrite !Z.pow_add_r by lia. f_equal.
  - rewrite shr_1_m by assumption. reflexivity.
Qed.

Lemma iter_xO_mul d : forall m, Zpos (Pos.iter xO m d) = Zpos m * 2 ^ Zpos d.
Proof.
  induction d as [|d IH] using Pos.peano_ind; intros m.
  - cbn [Pos.iter]. rewrite Z.pow_1_r. lia.
  - rewrite Pos.iter_succ, Pos2Z.inj_xO, IH, Pos2Z.inj_succ, Z.pow_succ_r by lia. lia.
Qed.

Section Valid.
Variables prec emax : Z.
Hypothesis Hprec : 0 < prec.
Local Abbreviation fexp := (SpecFloat.fexp prec emax).
Local Abbreviation emin := (SpecFloat.emin prec emax).
Local Abbreviation SF_of_rounded := (F32.SF_of_rounded prec emax).

(* second shr_fexp, at loc_Exact *)
Lemma shr_fexp_m m e l :
  0 <= m ->
  let n := fexp (Zdigits2 m + e) - e in
  shr_m (fst (shr_fexp prec emax m e l)) = (if 0 <? n then m / 2 ^ n else m)
  /\ snd (shr_fexp prec emax m e l) = (if 0 <? n then e + n else e).
Proof.
  intros Hm n. unfold shr_fexp, shr. fold n.
  destruct n as [|p|p] eqn:En; cbn [fst snd Z.ltb Z.compare].
  - split; [destruct l as [|[]]|]; reflexivity.
  - split; [|reflexivity]. rewrite iter_shr_1_m; [|destruct l as [|[]]; exact Hm].
    destruct l as [|[]]; reflexivity.
  - split; [destruct l as [|[]]|]; reflexivity.
Qed.

Lemma div_pow2_digits m d n :
  0 < m -> Zdigits2 m = d -> 0 <= n < d ->
  0 < m / 2 ^ n /\ Zdigits2 (m / 2 ^ n) = d - n.
Proof.
  intros Hm Hd Hn. pose proof (Zdigits2_bounds m Hm) as [Hlo Hhi]. rewrite Hd in Hlo, Hhi.
  assert (Hp : 0 < 2 ^ n) by (apply Z.pow_pos_nonneg; lia).
  assert (Hlo' : 2 ^ (d - n - 1) <= m / 2 ^ n).
  { apply Z.div_le_lower_bound; [lia|]. rewrite <- Z.pow_add_r by lia.
    replace (n + (d - n - 1)) with (d - 1) by lia. exact Hlo. }
  assert (Hhi' : m / 2 ^ n < 2 ^ (d - n)).
  { apply Z.div_lt_upper_bound; [lia|]. rewrite <- Z.pow_add_r by lia.
    replace (n + (d - n)) with d by lia. exact Hhi. }
  assert (0 < 2 ^ (d - n - 1)) by (apply Z.pow_pos_nonneg; lia).
  split; [lia|]. apply Zdigits2_unique; [lia|]. split; assumption.
Qed.

Lemma div_pow2_zero m n : 0 < m -> Zdigits2 m <= n -> m / 2 ^ n = 0.
Proof.
  intros Hm Hn. apply Z.div_small. pose proof (Zdigits2_bounds m Hm) as [_ Hhi].
  pose proof (Zdigits2_pos m Hm).
  assert (2 ^ Zdigits2 m <= 2 ^ n) by (apply Z.pow_le_mono_r; lia). lia.
Qed.


Lemma round_nearest_even_range m l :
  m <= round_nearest_even m l <= m + 1.
Proof. destruct l as [|[]]; cbn; try destruct (Z.even m); lia. Qed.

Lemma fexp_ge_emin e : emin <= fexp e.
Proof. unfold SpecFloat.fexp. lia. Qed.

(* first shift: the truncated mantissa fits the precision and sits at
   its canonical exponent *)
Lemma first_shift m e :
  0 <= m -> e <= fexp (Zdigits2 m + e) ->
  let n := fexp (Zdigits2 m + e) - e in
  let m1 := if 0 <? n then m / 2 ^ n else m in
  let e1 := if 0 <? n then e + n else e in
  0 <= m1 /\ emin <= e1 /\
  (m1 = 0 -> e1 = emin) /\
  (0 < m1 -> fexp (Zdigits2 m1 + e1) = e1 /\ Zdigits2 m1 <= prec).
Proof.
  intros Hm He n m1 e1.
  assert (He1 : e1 = fexp (Zdigits2 m + e)).
  { unfold e1. destruct (Z.ltb_spec 0 n); unfold n in *; lia. }
  assert (Hm1 : m1 = m / 2 ^ n).
  { unfold m1. destruct (Z.ltb_spec 0 n); [reflexivity|].
    replace n with 0 by (unfold n in *; lia). rewrite Z.pow_0_r, Z.div_1_r. reflexivity. }
  assert (Hn : 0 <= n) by (unfold n; lia).
  assert (Hp : 0 < 2 ^ n) by (apply Z.pow_pos_nonneg; lia).
  clearbody m1 e1. subst m1.
  split; [apply Z.div_pos; lia|].
  split; [rewrite He1; apply fexp_ge_emin|].
  destruct (Z.eq_dec m 0) as [->|Hm0].
  - rewrite Z.div_0_l by lia. split; [|lia]. intros _.
    cbn [Zdigits2] in *. unfold SpecFloat.fexp in *. lia.
  - destruct (Z_lt_le_dec n (Zdigits2 m)) as [Hlt|Hge].
    + destruct (div_pow2_digits m (Zdigits2 m) n ltac:(lia) eq_refl ltac:(lia)) as [Hpos Hd].
      split; [lia|]. intros _. rewrite Hd.
      unfold n in *. unfold SpecFloat.fexp in *. split; lia.
    + rewrite (div_pow2_zero m n) by lia. split; [|lia]. intros _.
      pose proof (Zdigits2_pos m ltac:(lia)).
      unfold n in *. unfold SpecFloat.fexp in *. lia.
Qed.

Lemma SF_of_rounded_valid sx m e :
  0 <= m -> (m = 0 \/ fexp (Zdigits2 m + e) = e) ->
  valid_binary prec emax (SF_of_rounded sx m e) = true.
Proof.
  intros Hm Hc. destruct m as [|p|p]; cbn [F32.SF_of_rounded]; [reflexivity| |lia].
  destruct (Z.leb_spec e (emax - prec)); [|reflexivity].
  cbn [valid_binary]. unfold bounded, canonical_mantissa.
  destruct Hc as [|Hc]; [discriminate|]. cbn [Zdigits2] in Hc. rewrite Hc.
  rewrite Z.eqb_refl. cbn. apply Z.leb_le. assumption.
Qed.

Lemma binary_round_aux_valid sx mx ex lx :
  0 <= mx -> ex <= fexp (Zdigits2 mx + ex) ->
  valid_binary prec emax (binary_round_aux prec emax sx mx ex lx) = true.
Proof.
  intros Hm He. unfold binary_round_aux.
  pose proof (shr_fexp_m mx ex lx Hm) as [Hs1 Hs2].
  destruct (shr_fexp prec emax mx ex lx) as [mrs1 e1]. cbn [fst snd] in Hs1, Hs2.
  pose proof (first_shift mx ex Hm He) as (Hm1 & Hemin & Hz & Hc).
  cbv zeta in Hs1, Hs2, Hm1, Hemin, Hz, Hc.
  rewrite <- Hs1, <- Hs2 in *. clear Hs1 Hs2.
  set (m1 := shr_m mrs1) in *.
  pose proof (round_nearest_even_range m1 (loc_of_shr_record mrs1)) as Hr.
  set (m2 := round_nearest_even m1 (loc_of_shr_record mrs1)) in *.
  assert (Hm2 : 0 <= m2) by lia.
  pose proof (shr_fexp_m m2 e1 loc_Exact Hm2) as [Ht1 Ht2].
  destruct (shr_fexp prec emax m2 e1 loc_Exact) as [mrs2 e2]. cbn [fst snd] in Ht1, Ht2.
  cbv zeta in Ht1, Ht2.
  change (valid_binary prec emax (SF_of_rounded sx (shr_m mrs2) e2) = true).
  rewrite Ht1, Ht2. clear Ht1 Ht2.
  destruct (Z.eq_dec m2 0) as [E0|N0].
  { (* rounded to zero *)
    rewrite E0, Zdiv_0_l. destruct (_ <? _); reflexivity. }
  destruct (Z.eq_dec m1 0) as [E1|N1].
  { (* the mantissa was shifted out and the round bit gives one *)
    assert (m2 = 1) by lia. specialize (Hz E1). subst e1.
    replace m2 with 1 by lia. cbn [Zdigits2 digits2_pos].
    assert (Hf : fexp (1 + emin) = emin) by (unfold SpecFloat.fexp; lia).
    rewrite Hf, Z.sub_diag. cbn [Z.ltb Z.compare].
    apply SF_of_rounded_valid; [lia|]. right. exact Hf. }
  destruct (Hc ltac:(lia)) as [Hcan Hk].
  pose proof (Zdigits2_bounds m1 ltac:(lia)) as [Hlo Hhi].
  pose proof (Zdigits2_pos m1 ltac:(lia)) as Hkpos.
  set (k := Zdigits2 m1) in *.
  destruct (Z_lt_le_dec m2 (2 ^ k)) as [Hlt|Hge].
  { (* same number of digits *)
    assert (Hd2 : Zdigits2 m2 = k) by (apply Zdigits2_unique; lia).
    rewrite Hd2, Hcan, Z.sub_diag. cbn [Z.ltb Z.compare].
    apply SF_of_rounded_valid; [lia|]. right. rewrite Hd2. exact Hcan. }
  (* the mantissa carried into one more digit *)
  assert (E2 : m2 = 2 ^ k) by lia.
  assert (Hd2 : Zdigits2 m2 = k + 1).
  { apply Zdigits2_unique; [lia|]. rewrite E2. replace (k + 1 - 1) with k by lia.
    split; [lia|]. apply Z.pow_lt_mono_r; lia. }
  rewrite Hd2.
  destruct (Z.eq_dec k prec) as [Ek|Nk].
  - assert (Hf : fexp (k + 1 + e1) = e1 + 1) by (unfold SpecFloat.fexp in *; lia).
    rewrite Hf. replace (e1 + 1 - e1) with 1 by lia. cbn [Z.ltb Z.compare].
    rewrite Z.pow_1_r.
    assert (Hm3 : m2 / 2 = 2 ^ (k - 1)).
    { rewrite E2. replace k with (Z.succ (k - 1)) at 1 by lia.
      rewrite Z.pow_succ_r by lia. rewrite Z.mul_comm, Z.div_mul; lia. }
    rewrite Hm3.
    assert (0 < 2 ^ (k - 1)) by (apply Z.pow_pos_nonneg; lia).
    apply SF_of_rounded_valid; [lia|]. right.
    assert (Hd3 : Zdigits2 (2 ^ (k - 1)) = k).
    { apply Zdigits2_unique; [lia|]. split; [lia|]. apply Z.pow_lt_mono_r; lia. }
    rewrite Hd3. unfold SpecFloat.fexp in *. lia.
  - assert (Hf : fexp (k + 1 + e1) = e1) by (unfold SpecFloat.fexp in *; lia).
    rewrite Hf, Z.sub_diag. cbn [Z.ltb Z.compare].
    apply SF_of_rounded_valid; [lia|]. right. rewrite Hd2. exact Hf.
Qed.

Lemma binary_round_valid sx mx ex :
  valid_binary prec emax (binary_round prec emax sx mx ex) = true.
Proof.
  unfold binary_round, shl_align.
  set (fe := fexp (Zpos (digits2_pos mx) + ex)).
  destruct (fe - ex) as [|d|d] eqn:Ed.
  - apply binary_round_aux_valid; [lia|]. cbn [Zdigits2]. fold fe. lia.
  - apply binary_round_aux_valid; [lia|]. cbn [Zdigits2]. fold fe. lia.
  - apply binary_round_aux_valid; [lia|].
    pose proof (digits2_pos_bounds mx) as [Hlo Hhi].
    assert (Hd : Zdigits2 (Zpos (Pos.iter xO mx d)) = Zpos (digits2_pos mx) + Zpos d).
    { apply Zdigits2_unique; [lia|]. rewrite iter_xO_mul.
      assert (0 < 2 ^ Zpos d) by (apply Z.pow_pos_nonneg; lia).
      replace (Zpos (digits2_pos mx) + Zpos d - 1) with ((Zpos (digits2_pos mx) - 1) + Zpos d) by lia.
      rewrite !Z.pow_add_r by lia. split; nia. }
    rewrite Hd. replace (Zpos (digits2_pos mx) + Zpos d + fe) with (Zpos (digits2_pos mx) + ex) by lia.
    fold fe. lia.
Qed.

End Valid.


(** ** The binary32 bit pattern *)

Lemma valid_binary32_finite s m e :
  valid_binary 24 128 (S754_finite s m e) = true ->
  Zpos m < 2 ^ 24 /\ -149 <= e <= 104 /\ (Zpos m < 2 ^ 23 -> e = -149).
Proof.
  cbn [valid_binary]. unfold bounded, canonical_mantissa. intros H.
  apply andb_prop in H as [Hc Hb]. apply Z.eqb_eq in Hc. apply Z.leb_le in Hb.
  pose proof (digits2_pos_bounds m) as [Hlo Hhi].
  set (d := Zpos (digits2_pos m)) in *.
  assert (Hd : 0 < d) by (unfold d; lia).
  unfold SpecFloat.fexp, SpecFloat.emin in Hc.
  assert (Hcase : (d = 24 /\ -149 <= e) \/ (d < 24 /\ e = -149)) by lia.
  assert (H24 : 2 ^ d <= 2 ^ 24) by (apply Z.pow_le_mono_r; lia).
  split; [lia|]. split; [lia|]. intros Hsub.
  destruct Hcase as [[Ed _]|[_ He]]; [|exact He].
  rewrite Ed in Hlo. change (2 ^ (24 - 1)) with (2 ^ 23) in Hlo. lia.
Qed.

Lemma f32_word_fields s E M :
  0 <= E < 256 -> 0 <= M < 2 ^ 23 ->
  let w := F32.sign_bit s + E * 2 ^ 23 + M in
  Z.testbit w 31 = s /\ (w / 2 ^ 23) mod 256 = E /\ w mod 2 ^ 23 = M.
Proof.
  intros HE HM w. subst w.
  change (2 ^ 23) with 8388608 in *.
  split; [|split].
  - rewrite Z.testbit_odd, Z.shiftr_div_pow2 by lia.
    change (2 ^ 31) with 2147483648.
    destruct s; unfold F32.sign_bit; change (2 ^ 31) with 2147483648.
    + replace ((2147483648 + E * 8388608 + M) / 2147483648) with 1; [reflexivity|].
      apply Z.div_unique with (r := E * 8388608 + M); lia.
    + replace ((0 + E * 8388608 + M) / 2147483648) with 0; [reflexivity|].
      symmetry. apply Z.div_small. lia.
  - destruct s; unfold F32.sign_bit; change (2 ^ 31) with 2147483648.
    + replace ((2147483648 + E * 8388608 + M) / 8388608) with (256 + E).
      * replace (256 + E) with (E + 1 * 256) by lia. rewrite Z.mod_add by lia.
        apply Z.mod_small. lia.
      * apply Z.div_unique with (r := M); lia.
    + replace ((0 + E * 8388608 + M) / 8388608) with E.
      * apply Z.mod_small. lia.
      * apply Z.div_unique with (r := M); lia.
  - destruct s; unfold F32.sign_bit; change (2 ^ 31) with 2147483648.
    + symmetry. apply Z.mod_unique with (q := 256 + E); lia.
    + symmetry. apply Z.mod_unique with (q := E); lia.
Qed.

Lemma f32_bits_range y :
  valid_binary 24 128 y = true -> 0 <= F32.bits y < 2 ^ 32.
Proof.
  intros Hv. destruct y as [s|s| |s m e]; cbn [F32.bits].
  - destruct s; cbn; lia.
  - destruct s; cbn; lia.
  - cbn. lia.
  - apply valid_binary32_finite in Hv as (Hm & He & _).
    change (2 ^ 24) with 16777216 in Hm. change (2 ^ 23) with 8388608. change (2 ^ 32) with 4294967296.
    destruct s; unfold F32.sign_bit; change (2 ^ 31) with 2147483648; lia.
Qed.

Lemma f32_of_bits_bits y :
  valid_binary 24 128 y = true -> F32.of_bits (F32.bits y) = y.
Proof.
  intros Hv. destruct y as [s|s| |s m e].
  - destruct s; reflexivity.
  - destruct s; reflexivity.
  - reflexivity.
  - apply valid_binary32_finite in Hv as (Hm & He & Hsub).
    cbn [F32.bits]. unfold F32.of_bits.
    destruct (Z_lt_le_dec (Zpos m) (2 ^ 23)) as [Hlt|Hge].
    + specialize (Hsub Hlt). subst e.
      destruct (f32_word_fields s 0 (Zpos m) ltac:(lia) ltac:(lia)) as (Hs & HE & HM).
      cbv zeta in Hs, HE, HM. change (-149 + 149) with 0.
      rewrite Hs, HE, HM. reflexivity.
    + change (2 ^ 24) with (2 * 2 ^ 23) in Hm.
      destruct (f32_word_fields s (e + 150) (Zpos m - 2 ^ 23) ltac:(lia) ltac:(lia)) as (Hs & HE & HM).
      cbv zeta in Hs, HE, HM.
      replace (F32.sign_bit s + (e + 149) * 2 ^ 23 + Zpos m)
        with (F32.sign_bit s + (e + 150) * 2 ^ 23 + (Zpos m - 2 ^ 23)) by lia.
      rewrite Hs, HE, HM.
      destruct (Z.eqb_spec (e + 150) 0); [lia|].
      destruct (Z.eqb_spec (e + 150) 255); [lia|].
      replace (Zpos m - 2 ^ 23 + 2 ^ 23) with (Zpos m) by lia.
      f_equal. lia.
Qed.

Lemma f32_of_f64_valid x :
  valid_binary 24 128 (F32.of_f64 x) = true.
Proof.
  destruct x as [s|s| |s m e]; try reflexivity.
  apply binary_round_valid. lia.
Qed.

Lemma f32_to_f64_valid x :
  valid_binary 53 1024 (F32.to_f64 x) = true.
Proof.
  destruct x as [s|s| |s m e]; try reflexivity.
  apply binary_round_valid. lia.
Qed.

(** ** [struct.pack] and [struct.unpack_from] *)

Lemma Ok_inj {A} (a b : A) : Ok a = Ok b -> a = b.
Proof. congruence. Qed.

Lemma unpack_from_in_range f blob off :
  0 <= off -> off + Struct.calcsize f <= len blob ->
  Struct.unpack_from f blob off
  = Ok (Struct.decode f (Struct.le_word (slice blob off (off + Struct.calcsize f)))).
Proof.
  intros Ho Hb. unfold Struct.unpack_from.
  rewrite (proj2 (Z.ltb_ge off 0)) by lia. rewrite (proj2 (Z.ltb_ge off 0)) by lia.
  rewrite (proj2 (Z.ltb_ge (len blob - off) _)) by lia. reflexivity.
Qed.

Lemma unpack_from_short f blob off :
  0 <= off -> len blob < off + Struct.calcsize f ->
  Struct.unpack_from f blob off = Raise StructError.
Proof.
  intros Ho Hb. unfold Struct.unpack_from.
  rewrite (proj2 (Z.ltb_ge off 0)) by lia. rewrite (proj2 (Z.ltb_ge off 0)) by lia.
  rewrite (proj2 (Z.ltb_lt (len blob - off) _)) by lia. reflexivity.
Qed.

Lemma pack_length f v bs : Struct.pack f v = Ok bs -> len bs = Struct.calcsize f.
Proof.
  unfold Struct.pack, len. destruct f.
  - destruct (Py.float v) as [x|e]; cbn [bind]; [|discriminate].
    destruct (F32.overflows x); [discriminate|].
    intros <-%Ok_inj. rewrite length_le_bytes. reflexivity.
  - destruct v as [z|x]; [|discriminate].
    destruct (_ && _); [|discriminate]. intros <-%Ok_inj. rewrite length_le_bytes. reflexivity.
  - destruct v as [z|x]; [|discriminate].
    destruct (_ && _); [|discriminate]. intros <-%Ok_inj. rewrite length_le_bytes. reflexivity.
  - destruct v as [z|x]; [|discriminate].
    destruct (_ && _); [|discriminate]. intros <-%Ok_inj. rewrite length_le_bytes. reflexivity.
Qed.

(** Decoding the packed bytes gives the packed integer back. *)
Lemma decode_pack_int f z bs :
  f <> Struct.fmt_f ->
  Struct.pack f (Int z) = Ok bs -> Struct.decode f (Struct.le_word bs) = Int z.
Proof.
  intros Hf. unfold Struct.pack. destruct f; [congruence| | |].
  - destruct ((- 2 ^ 31 <=? z) && (z <=? 2 ^ 31 - 1)) eqn:Erange; [|discriminate].
    apply andb_true_iff in Erange as [H1 H2]. apply Z.leb_le in H1, H2. intros <-%Ok_inj. cbn [Struct.decode].
    rewrite le_word_le_bytes. change (2 ^ (8 * Z.of_nat 4)) with (2 ^ 32).
    rewrite Z.mod_mod by lia.
    change (2 ^ 31) with 2147483648 in *. change (2 ^ 32) with 4294967296 in *.
    f_equal. destruct (Z.ltb_spec (z mod 4294967296) 2147483648) as [Hlt|Hge].
    + destruct (Z_lt_le_dec z 0).
      * assert (z mod 4294967296 = z + 4294967296)
          by (symmetry; apply Z.mod_unique with (q := -1); lia). lia.
      * apply Z.mod_small. lia.
    + destruct (Z_lt_le_dec z 0).
      * assert (z mod 4294967296 = z + 4294967296)
          by (symmetry; apply Z.mod_unique with (q := -1); lia). lia.
      * rewrite Z.mod_small in Hge by lia. lia.
  - destruct ((0 <=? z) && (z <=? 2 ^ 32 - 1)) eqn:Erange; [|discriminate].
    apply andb_true_iff in Erange as [H1 H2]. apply Z.leb_le in H1, H2. intros <-%Ok_inj. cbn [Struct.decode].
    rewrite le_word_le_bytes. change (2 ^ (8 * Z.of_nat 4)) with (2 ^ 32).
    f_equal. apply Z.mod_small. lia.
  - destruct ((0 <=? z) && (z <=? 255)) eqn:Erange; [|discriminate].
    apply andb_true_iff in Erange as [H1 H2]. apply Z.leb_le in H1, H2. intros <-%Ok_inj. cbn [Struct.decode].
    rewrite le_word_le_bytes. change (2 ^ (8 * Z.of_nat 1)) with 256.
    f_equal. apply Z.mod_small. lia.
Qed.

(** Decoding a packed float gives its float32 rounding, widened. *)
Lemma decode_pack_float x bs :
  Struct.pack Struct.fmt_f (Float x) = Ok bs ->
  Struct.decode Struct.fmt_f (Struct.le_word bs) = Float (F32.to_f64 (F32.of_f64 x)).
Proof.
  unfold Struct.pack. cbn [Py.float bind].
  destruct (F32.overflows x); [discriminate|]. intros <-%Ok_inj. cbn [Struct.decode].
  rewrite le_word_le_bytes. change (2 ^ (8 * Z.of_nat 4)) with (2 ^ 32).
  rewrite Z.mod_small by (apply f32_bits_range, f32_of_f64_valid).
  rewrite f32_of_bits_bits by apply f32_of_f64_valid. reflexivity.
Qed.

(** ** [read_scalar] and [write_scalar] *)

Lemma bounds_check_false off n l :
  0 <= off -> off + n <= l -> (off <? 0) || (off + n >? l) = false.
Proof.
  intros. rewrite Z.gtb_ltb. apply orb_false_iff. split; apply Z.ltb_ge; lia.
Qed.

Lemma bounds_check_true off n l :
  off < 0 \/ l < off + n -> (off <? 0) || (off + n >? l) = true.
Proof.
  intros H. rewrite Z.gtb_ltb. apply orb_true_iff.
  destruct H; [left|right]; apply Z.ltb_lt; lia.
Qed.

Lemma width_calcsize scalar : width scalar = Struct.calcsize (fst (_FMT scalar)).
Proof. destruct scalar; reflexivity. Qed.

Lemma width_pos scalar : 0 < width scalar.
Proof. destruct scalar; cbn; lia. Qed.

Lemma land_ones_32 z : Z.land z 0xFFFFFFFF = z mod 2 ^ 32.
Proof. change 0xFFFFFFFF with (Z.ones 32). apply Z.land_ones. lia. Qed.

Lemma land_ones_8 z : Z.land z 0xFF = z mod 2 ^ 8.
Proof. change 0xFF with (Z.ones 8). apply Z.land_ones. lia. Qed.

Lemma write_scalar_in_range buf off scalar v :
  0 <= off -> off + width scalar <= len buf ->
  write_scalar buf off scalar v
  = match packed_bytes scalar v with
    | Ok packed => (slice_assign buf off (off + width scalar) packed, Ok packed)
    | Raise e => (buf, Raise e)
    end.
Proof.
  intros Ho Hb. unfold write_scalar, packed_bytes.
  destruct scalar; cbn [_FMT width snd] in *;
    rewrite bounds_check_false by lia.
  - reflexivity.
  - destruct (Py.int v) as [iv|e]; cbn [bind]; [|reflexivity].
    rewrite land_ones_32. reflexivity.
  - destruct (Py.int v) as [iv|e]; cbn [bind]; [|reflexivity].
    rewrite land_ones_32. reflexivity.
  - destruct (Py.int v) as [iv|e]; cbn [bind]; [|reflexivity].
    destruct (Z.eqb_spec iv 0); reflexivity.
  - destruct (Py.int v) as [iv|e]; cbn [bind]; [|reflexivity].
    rewrite land_ones_8. reflexivity.
Qed.

Lemma write_scalar_out_of_range buf off scalar v :
  off < 0 \/ len buf < off + width scalar ->
  write_scalar buf off scalar v = (buf, Raise OutOfBounds).
Proof.
  intros H. unfold write_scalar.
  destruct scalar; cbn [_FMT width snd] in *;
    rewrite bounds_check_true by lia; reflexivity.
Qed.

Lemma packed_bytes_length scalar v packed :
  packed_bytes scalar v = Ok packed -> len packed = width scalar.
Proof.
  unfold packed_bytes.
  destruct scalar;
    [destruct (Py.float v) as [x|e] | destruct (Py.int v) as [iv|e] ..];
    cbn [bind]; try discriminate; intros H; apply pack_length in H; exact H.
Qed.

Lemma packed_bytes_not_OutOfBounds scalar v : packed_bytes scalar v <> Raise OutOfBounds.
Proof.
  unfold packed_bytes.
  assert (Hf : forall w, Py.float w <> Raise OutOfBounds).
  { intros [z|x]; cbn; [destruct (float_of_Z z)|]; discriminate. }
  assert (Hi : forall w, Py.int w <> Raise OutOfBounds).
  { intros [z|[]]; cbn; discriminate. }
  assert (Hp : forall f w, Struct.pack f w <> Raise OutOfBounds).
  { intros f w. unfold Struct.pack. destruct f.
    - specialize (Hf w). destruct (Py.float w); cbn [bind]; [|congruence].
      destruct (F32.overflows a); discriminate.
    - destruct w; [destruct (_ && _)|]; discriminate.
    - destruct w; [destruct (_ && _)|]; discriminate.
    - destruct w; [destruct (_ && _)|]; discriminate. }
  destruct scalar;
    [pose proof (Hf v) as Hv; destruct (Py.float v) as [x|e]
    | pose proof (Hi v) as Hv; destruct (Py.int v) as [iv|e] ..];
    cbn [bind]; solve [apply Hp | congruence].
Qed.

(** When the packing step returns. *)
Lemma packed_bytes_encodable scalar v :
  encodable scalar v -> exists packed, packed_bytes scalar v = Ok packed.
Proof.
  unfold encodable, packed_bytes. destruct scalar.
  - intros (x & -> & Hx). cbn [bind Struct.pack Py.float]. rewrite Hx. eauto.
  - intros [].
  - intros (iv & ->). cbn [bind Struct.pack].
    pose proof (Z.mod_pos_bound iv (2 ^ 32) ltac:(lia)).
    destruct ((0 <=? iv mod 2 ^ 32) && (iv mod 2 ^ 32 <=? 2 ^ 32 - 1)) eqn:Hn; [eauto|].
    exfalso. apply andb_false_iff in Hn as [Hn|Hn]; apply Z.leb_gt in Hn; lia.
  - intros (iv & ->). cbn [bind Struct.pack]. destruct (iv =? 0); cbn; eauto.
  - intros (iv & ->). cbn [bind Struct.pack].
    pose proof (Z.mod_pos_bound iv (2 ^ 8) ltac:(lia)). change (2 ^ 8) with 256 in *.
    destruct ((0 <=? iv mod 256) && (iv mod 256 <=? 255)) eqn:Hn; [eauto|].
    exfalso. apply andb_false_iff in Hn as [Hn|Hn]; apply Z.leb_gt in Hn; lia.
Qed.

Lemma packed_bytes_int32 iv :
  packed_bytes K_int32 (Int iv)
  = if int32_packs iv then Ok (Struct.le_bytes 4 (iv mod 2 ^ 32)) else Raise StructError.
Proof.
  unfold packed_bytes, int32_packs. cbn [bind Py.int Struct.pack].
  pose proof (Z.mod_pos_bound iv (2 ^ 32) ltac:(lia)).
  rewrite Z.mod_mod by lia.
  change (2 ^ 31) with 2147483648 in *. change (2 ^ 32) with 4294967296 in *.
  destruct (Z.ltb_spec (iv mod 4294967296) 2147483648) as [Hlt|Hge].
  - rewrite (proj2 (Z.leb_le _ _)) by lia. rewrite (proj2 (Z.leb_le _ _)) by lia.
    reflexivity.
  - rewrite (proj2 (Z.leb_gt (iv mod 4294967296) _)) by lia.
    rewrite andb_false_r. reflexivity.
Qed.

Lemma read_scalar_in_range blob off scalar :
  0 <= off -> off + width scalar <= len blob ->
  read_scalar blob off scalar
  = let raw := slice blob off (off + width scalar) in
    let v := Struct.decode (fst (_FMT scalar)) (Struct.le_word raw) in
    match scalar with
    | K_bool32 => let* i := Py.int v in Ok (Int (if i =? 0 then 0 else 1), raw)
    | _ => Ok (v, raw)
    end.
Proof.
  intros Ho Hb. unfold read_scalar.
  destruct scalar; cbn [_FMT width snd fst] in *;
    rewrite bounds_check_false by lia;
    rewrite unpack_from_in_range by (cbn; lia); cbn [bind Struct.calcsize]; try reflexivity.
  cbn [Struct.decode Py.int bind]. destruct (Z.eqb_spec (Struct.le_word (slice blob off (off + 4))) 0); reflexivity.
Qed.

Lemma read_scalar_out_of_range blob off scalar :
  off < 0 \/ len blob < off + width scalar ->
  read_scalar blob off scalar = Raise OutOfBounds.
Proof.
  intros H. unfold read_scalar.
  destruct scalar; cbn [_FMT width snd] in *;
    rewrite bounds_check_true by lia; reflexivity.
Qed.

(** A decode in range returns; it fails, with [OutOfBounds], exactly out
    of range. *)
Lemma read_scalar_OutOfBounds_iff blob off scalar :
  read_scalar blob off scalar = Raise OutOfBounds
  <-> off < 0 \/ off + width scalar > len blob.
Proof.
  split.
  - intros H. destruct (Z_lt_le_dec off 0); [lia|].
    destruct (Z_lt_le_dec (len blob) (off + width scalar)); [lia|].
    rewrite read_scalar_in_range in H by lia. cbv zeta in H.
    destruct scalar; discriminate.
  - intros H. apply read_scalar_out_of_range. lia.
Qed.

Lemma write_scalar_OutOfBounds_iff buf off scalar v :
  snd (write_scalar buf off scalar v) = Raise OutOfBounds
  <-> off < 0 \/ off + width scalar > len buf.
Proof.
  split.
  - intros H. destruct (Z_lt_le_dec off 0); [lia|].
    destruct (Z_lt_le_dec (len buf) (off + width scalar)); [lia|].
    rewrite write_scalar_in_range in H by lia.
    pose proof (packed_bytes_not_OutOfBounds scalar v) as Hn.
    destruct (packed_bytes scalar v); cbn [snd] in H; congruence.
  - intros H. rewrite write_scalar_out_of_range by lia. reflexivity.
Qed.

(** Bounds on concrete buffers. *)
Ltac in_bounds :=
  first [ lia
        | unfold len, width; cbn; lia
        | vm_compute; intros; discriminate
        | vm_compute; reflexivity ].

Lemma wrap_signed_small iv :
  iv mod 2 ^ 32 < 2 ^ 31 -> (iv + 2 ^ 31) mod 2 ^ 32 - 2 ^ 31 = iv mod 2 ^ 32.
Proof.
  intros H. pose proof (Z.mod_pos_bound iv (2 ^ 32) ltac:(lia)) as Hr.
  pose proof (Z.div_mod iv (2 ^ 32) ltac:(lia)) as Hd.
  change (2 ^ 31) with 2147483648 in *. change (2 ^ 32) with 4294967296 in *.
  assert ((iv + 2147483648) mod 4294967296 = iv mod 4294967296 + 2147483648); [|lia].
  symmetry. apply Z.mod_unique with (q := iv / 4294967296); lia.
Qed.

Lemma pack_int32_range z bs :
  Struct.pack Struct.fmt_i (Int z) = Ok bs -> - 2 ^ 31 <= z <= 2 ^ 31 - 1.
Proof.
  cbn [Struct.pack]. destruct ((- 2 ^ 31 <=? z) && (z <=? 2 ^ 31 - 1)) eqn:E; [|discriminate].
  intros _. apply andb_true_iff in E as [H1 H2]. apply Z.leb_le in H1, H2. lia.
Qed.

(** What a decode of the packed bytes gives, kind by kind. *)
Lemma decode_packed_bytes scalar v packed :
  packed_bytes scalar v = Ok packed ->
  exists nv, normalized scalar v = Ok nv /\
    match scalar with
    | K_bool32 =>
        let* i := Py.int (Struct.decode (fst (_FMT scalar)) (Struct.le_word packed)) in
        Ok (Int (if i =? 0 then 0 else 1))
    | _ => Ok (Struct.decode (fst (_FMT scalar)) (Struct.le_word packed))
    end = Ok nv.
Proof.
  unfold packed_bytes, normalized. destruct scalar; cbn [_FMT fst].
  - destruct (Py.float v) as [x|e]; cbn [bind]; [|discriminate].
    intros H. rewrite (decode_pack_float _ _ H). eauto.
  - destruct (Py.int v) as [iv|e]; cbn [bind]; [|discriminate].
    intros H. rewrite (decode_pack_int Struct.fmt_i _ _ ltac:(discriminate) H).
    apply pack_int32_range in H. rewrite wrap_signed_small by lia. eauto.
  - destruct (Py.int v) as [iv|e]; cbn [bind]; [|discriminate].
    intros H. rewrite (decode_pack_int Struct.fmt_I _ _ ltac:(discriminate) H). eauto.
  - destruct (Py.int v) as [iv|e]; cbn [bind]; [|discriminate].
    intros H. rewrite (decode_pack_int Struct.fmt_I _ _ ltac:(discriminate) H). cbn [Py.int bind].
    destruct (iv =? 0); eauto.
  - destruct (Py.int v) as [iv|e]; cbn [bind]; [|discriminate].
    intros H. rewrite (decode_pack_int Struct.fmt_B _ _ ltac:(discriminate) H). eauto.
Qed.

(** C1 (amended).  For every buffer, kind, value and offset in bounds,
    [write_scalar] leaves the length of the buffer and every byte outside
    [[off, off + width)] as they were, whether it returns or raises; when
    it returns it has written exactly [width] bytes, the packed ones, at
    [off]; when it raises it has written nothing; and it returns for every
    [encodable] value: a number for ["uint8"], ["uint32"] and ["bool32"],
    a number whose float32 rounding does not overflow for ["float"]. *)
Theorem write_scalar_frame buf off scalar v :
  0 <= off -> off + width scalar <= len buf ->
  let after := fst (write_scalar buf off scalar v) in
  let res := snd (write_scalar buf off scalar v) in
  length after = length buf
  /\ (forall i : nat,
        Z.of_nat i < off \/ off + width scalar <= Z.of_nat i -> after !! i = buf !! i)
  /\ (forall packed, res = Ok packed ->
        len packed = width scalar /\ slice after off (off + width scalar) = packed)
  /\ (forall e, res = Raise e -> after = buf)
  /\ (encodable scalar v -> exists packed, res = Ok packed).
Proof.
  intros Ho Hb after res. subst after res.
  rewrite write_scalar_in_range by assumption.
  destruct (packed_bytes scalar v) as [packed|e] eqn:Ep; cbn [fst snd].
  - pose proof (packed_bytes_length _ _ _ Ep) as Hl.
    split; [apply length_slice_assign; assumption|].
    split; [intros i Hi; apply lookup_slice_assign_outside; assumption|].
    split; [|split; [discriminate|eauto]].
    intros packed' <-%Ok_inj. split; [assumption|].
    apply slice_slice_assign; assumption.
  - split; [reflexivity|]. split; [reflexivity|].
    split; [discriminate|]. split; [reflexivity|].
    intros He. apply packed_bytes_encodable in He as [packed Hp]. congruence.
Qed.

Lemma write_scalar_frame_witness :
  0 <= 0 /\ 0 + width K_uint32 <= len zeros4 /\
  length (fst (write_scalar zeros4 0 K_uint32 (Int 5))) = length zeros4.
Proof.
  split; [lia|]. split; [in_bounds|].
  apply (write_scalar_frame zeros4 0 K_uint32 (Int 5)); in_bounds.
Defined.

(** C1 as stated fails: in bounds, for the double [2^128] and the kind
    ["float"], [write_scalar] raises [OverflowError] and writes no byte. *)
Lemma write_scalar_float_overflow :
  0 <= 0 /\ 0 + width K_float <= len zeros4 /\
  write_scalar zeros4 0 K_float (Float two_pow_128) = (zeros4, Raise OverflowError).
Proof. split; [lia|]. split; [in_bounds|]. vm_compute. reflexivity. Qed.

(** C2 (amended).  For every buffer, kind, value and offset in bounds:
    whenever [write_scalar] returns, [read_scalar] at the same offset of
    the buffer it leaves returns the value [normalized] per the kind
    (float32 precision, [0]/[1], low 8 bits, 32-bit unsigned, 32-bit two's
    complement) together with the packed bytes; and [write_scalar] does
    return for every [encodable] value. *)
Theorem read_after_write buf off scalar v :
  0 <= off -> off + width scalar <= len buf ->
  (forall after packed,
      write_scalar buf off scalar v = (after, Ok packed) ->
      exists nv, normalized scalar v = Ok nv
                 /\ read_scalar after off scalar = Ok (nv, packed))
  /\ (encodable scalar v ->
      exists after packed, write_scalar buf off scalar v = (after, Ok packed)).
Proof.
  intros Ho Hb. rewrite write_scalar_in_range by assumption. split.
  - intros after packed H.
    destruct (packed_bytes scalar v) as [packed'|e] eqn:Ep.
    + apply pair_equal_spec in H as [<- ->%Ok_inj].
      pose proof (packed_bytes_length _ _ _ Ep) as Hl.
      rewrite read_scalar_in_range
        by (rewrite ?len_slice_assign by assumption; assumption).
      cbv zeta. rewrite slice_slice_assign by assumption.
      destruct (decode_packed_bytes _ _ _ Ep) as (nv & Hn & Hd).
      exists nv. split; [assumption|].
      destruct scalar; try (apply Ok_inj in Hd; rewrite Hd; reflexivity).
      destruct (Py.int (Struct.decode (fst (_FMT K_bool32)) (Struct.le_word packed)));
        cbn [bind] in *; [|discriminate].
      apply Ok_inj in Hd. rewrite Hd. reflexivity.
    + apply pair_equal_spec in H as [_ H]. discriminate.
  - intros He. apply packed_bytes_encodable in He as [packed Hp]. rewrite Hp. eauto.
Qed.

Lemma read_after_write_witness :
  0 <= 0 /\ 0 + width K_uint8 <= len zeros4 /\
  exists nv, normalized K_uint8 (Int 511) = Ok nv
             /\ read_scalar [xff; x00; x00; x00] 0 K_uint8 = Ok (nv, [xff]).
Proof.
  split; [lia|]. split; [in_bounds|].
  apply (proj1 (read_after_write zeros4 0 K_uint8 (Int 511) ltac:(lia) ltac:(in_bounds))).
  vm_compute. reflexivity.
Defined.

(** C2 as stated fails: for the double [2^128], whose value at float32
    precision is the infinity, the encode raises and the decode that
    follows returns [0.0]. *)
Lemma read_after_write_float_overflow :
  0 <= 0 /\ 0 + width K_float <= len zeros4 /\
  normalized K_float (Float two_pow_128) = Ok (Float (S754_infinity false)) /\
  read_scalar (fst (write_scalar zeros4 0 K_float (Float two_pow_128))) 0 K_float
  = Ok (Float (S754_zero false), zeros4).
Proof. split; [lia|]. split; [in_bounds|]. split; vm_compute; reflexivity. Qed.


(** C4, at the failing input: in bounds, the ["int32"] value [-1] is not
    truncated to 32 bits and written; [write_scalar] raises the range error
    of [struct.pack] and leaves the buffer as it was. *)
Theorem write_scalar_int32_minus_one :
  write_scalar zeros4 0 K_int32 (Int (-1)) = (zeros4, Raise StructError).
Proof. vm_compute. reflexivity. Qed.

(** ** The order of [parse_mrdf] *)

Lemma ascii_compare_lt x y : Ascii.compare x y = Lt <-> (N_of_ascii x < N_of_ascii y)%N.
Proof. unfold Ascii.compare. apply N.compare_lt_iff. Qed.

Lemma ascii_compare_eq x y : Ascii.compare x y = Eq <-> x = y.
Proof.
  split; [apply Ascii.compare_eq_iff|]. intros ->. unfold Ascii.compare. apply N.compare_refl.
Qed.

Lemma string_compare_refl s : String.compare s s = Eq.
Proof.
  induction s as [|c s IH]; cbn; [reflexivity|].
  rewrite (proj2 (ascii_compare_eq c c) eq_refl). exact IH.
Qed.

Lemma string_compare_lt_trans a : forall b c,
  String.compare a b = Lt -> String.compare b c = Lt -> String.compare a c = Lt.
Proof.
  induction a as [|x a IH]; intros [|y b] [|z c]; cbn; try discriminate; try reflexivity.
  destruct (Ascii.compare x y) eqn:Exy; try discriminate;
    destruct (Ascii.compare y z) eqn:Eyz; try discriminate; intros Hab Hbc.
  - apply Ascii.compare_eq_iff in Exy. apply Ascii.compare_eq_iff in Eyz. subst.
    rewrite (proj2 (ascii_compare_eq z z) eq_refl). eapply IH; eassumption.
  - apply Ascii.compare_eq_iff in Exy. subst. rewrite Eyz. reflexivity.
  - apply Ascii.compare_eq_iff in Eyz. subst. rewrite Exy. reflexivity.
  - apply (proj1 (ascii_compare_lt _ _)) in Exy. apply (proj1 (ascii_compare_lt _ _)) in Eyz.
    rewrite (proj2 (ascii_compare_lt x z)) by lia. reflexivity.
Qed.

Lemma string_ltb_compare a b : String.ltb a b = true <-> String.compare a b = Lt.
Proof. unfold String.ltb. destruct (String.compare a b); split; congruence. Qed.

Lemma key_lt_le (x y : MrdfFieldInstance) :
  key_lt (sort_key x) (sort_key y) = true -> section_offset_le x y.
Proof.
  unfold key_lt, sort_key, section_offset_le. cbn [fst snd].
  destruct (String.compare _ _) eqn:E; try discriminate.
  - intros H. apply Z.ltb_lt in H. apply String.compare_eq_iff in E. right. split; [assumption|lia].
  - intros _. left. apply string_ltb_compare. assumption.
Qed.

Lemma key_lt_false_le (x y : MrdfFieldInstance) :
  key_lt (sort_key y) (sort_key x) = false -> section_offset_le x y.
Proof.
  unfold key_lt, sort_key, section_offset_le. cbn [fst snd].
  rewrite String.compare_antisym.
  destruct (String.compare (section (definition x)) (section (definition y))) eqn:E;
    cbn [CompOpp]; try discriminate.
  - intros H. apply Z.ltb_ge in H. apply String.compare_eq_iff in E. right. split; assumption.
  - intros _. left. apply string_ltb_compare. assumption.
Qed.

Lemma section_offset_le_trans : Transitive section_offset_le.
Proof.
  intros a b c. unfold section_offset_le. rewrite !string_ltb_compare.
  intros [Hab|[Eab Oab]] [Hbc|[Ebc Obc]].
  - left. eapply string_compare_lt_trans; eassumption.
  - left. rewrite <- Ebc. assumption.
  - left. rewrite Eab. assumption.
  - right. split; [congruence|lia].
Qed.

Lemma insert_by_key_perm x l : Permutation (insert_by_key x l) (x :: l).
Proof.
  induction l as [|y t IH]; cbn [insert_by_key]; [reflexivity|].
  destruct (key_lt (sort_key y) (sort_key x)); [|reflexivity].
  rewrite IH. apply perm_swap.
Qed.

Lemma sort_by_key_perm l : Permutation (sort_by_key l) l.
Proof.
  induction l as [|x t IH]; cbn [sort_by_key]; [reflexivity|].
  rewrite insert_by_key_perm. apply perm_skip. exact IH.
Qed.

Lemma insert_by_key_hd x y t :
  section_offset_le y x -> HdRel section_offset_le y t ->
  HdRel section_offset_le y (insert_by_key x t).
Proof.
  intros Hyx Ht. destruct t as [|z t]; cbn [insert_by_key].
  - constructor. assumption.
  - destruct (key_lt (sort_key z) (sort_key x)); constructor.
    + inversion Ht. assumption.
    + assumption.
Qed.

Lemma insert_by_key_sorted x l :
  Sorted section_offset_le l -> Sorted section_offset_le (insert_by_key x l).
Proof.
  induction l as [|y t IH]; cbn [insert_by_key]; intros Hs.
  - repeat constructor.
  - inversion Hs as [|? ? Ht Hhd]; subst.
    destruct (key_lt (sort_key y) (sort_key x)) eqn:E.
    + constructor; [apply IH; assumption|].
      apply insert_by_key_hd; [apply key_lt_le; assumption|assumption].
    + constructor; [assumption|]. constructor. apply key_lt_false_le. assumption.
Qed.

Lemma sort_by_key_sorted l : Sorted section_offset_le (sort_by_key l).
Proof.
  induction l as [|x t IH]; cbn [sort_by_key]; [constructor|].
  apply insert_by_key_sorted. exact IH.
Qed.

(** The sort is stable: instances of one key keep their order. *)
Lemma insert_by_key_stable k x l :
  Sorted section_offset_le l ->
  List.filter (fun i => bool_decide (sort_key i = k)) (insert_by_key x l)
  = List.filter (fun i => bool_decide (sort_key i = k)) (x :: l).
Proof.
  induction l as [|y t IH]; cbn [insert_by_key]; intros Hs; [reflexivity|].
  destruct (key_lt (sort_key y) (sort_key x)) eqn:E; [|reflexivity].
  inversion Hs as [|? ? Ht Hhd]; subst.
  cbn [List.filter] in *. rewrite (IH Ht).
  destruct (bool_decide (sort_key x = k)) eqn:Ex; [|reflexivity].
  destruct (bool_decide (sort_key y = k)) eqn:Ey; [|reflexivity].
  apply bool_decide_eq_true in Ex, Ey. rewrite Ex, Ey in E.
  unfold key_lt in E. rewrite string_compare_refl, Z.ltb_irrefl in E. discriminate.
Qed.

Lemma sort_by_key_stable k l :
  List.filter (fun i => bool_decide (sort_key i = k)) (sort_by_key l)
  = List.filter (fun i => bool_decide (sort_key i = k)) l.
Proof.
  induction l as [|x t IH]; cbn [sort_by_key]; [reflexivity|].
  rewrite insert_by_key_stable by apply sort_by_key_sorted.
  cbn [List.filter]. rewrite IH. reflexivity.
Qed.

(** ** The loop of [parse_mrdf] *)

Lemma decode_defs_definitions blob defs :
  map definition (decode_defs blob defs) = List.filter (decodes blob) defs.
Proof.
  induction defs as [|d rest IH]; cbn [decode_defs List.filter]; [reflexivity|].
  unfold decodes at 1.
  destruct (read_scalar blob (offset d) (scalar d)) as [[v r]|e]; [|exact IH].
  cbn [map definition]. rewrite IH. reflexivity.
Qed.

Lemma decode_defs_instances blob defs :
  Forall (instance_of blob) (decode_defs blob defs).
Proof.
  induction defs as [|d rest IH]; cbn [decode_defs]; [constructor|].
  destruct (read_scalar blob (offset d) (scalar d)) as [[v r]|e] eqn:E; [|exact IH].
  constructor; [|exact IH]. split; [reflexivity|exact E].
Qed.

(** C5.  For every buffer and list of definitions, [parse_mrdf] returns a
    list (it is a total function of the two, so that two calls on the same
    arguments give the same list, and no decode failure escapes it) that
    holds exactly the instances of the definitions whose decode succeeds,
    each with the decoded value and raw bytes, sorted ascending by
    (section, offset). *)
Theorem parse_mrdf_sorted_instances blob defs :
  Permutation (map definition (parse_mrdf blob defs)) (List.filter (decodes blob) defs)
  /\ Forall (instance_of blob) (parse_mrdf blob defs)
  /\ StronglySorted section_offset_le (parse_mrdf blob defs)
  /\ (forall blob' defs', blob' = blob -> defs' = defs ->
        parse_mrdf blob' defs' = parse_mrdf blob defs).
Proof.
  unfold parse_mrdf. split; [|split; [|split]].
  - rewrite <- decode_defs_definitions. apply Permutation_map. apply sort_by_key_perm.
  - eapply Permutation_Forall; [symmetry; apply sort_by_key_perm|].
    apply decode_defs_instances.
  - apply Sorted_StronglySorted; [exact section_offset_le_trans|]. apply sort_by_key_sorted.
  - intros blob' defs' -> ->. reflexivity.
Qed.

(** ** The profile registry *)

Lemma get_profile_by_key_stats : get_profile_by_key "stats" = Ok stats_profile.
Proof. reflexivity. Qed.

Lemma get_profile_by_key_physics : get_profile_by_key "physics" = Ok physics_profile.
Proof. reflexivity. Qed.

(** C10.  For every key, [get_profile_by_key] returns a registered
    profile and does not raise: the registered profile whose key is the
    argument when there is one, and the first registered profile, the
    stats one, for any other key. *)
Theorem get_profile_by_key_total k :
  exists p,
    get_profile_by_key k = Ok p
    /\ In p PROFILES
    /\ (forall q, In q PROFILES -> key q = k -> p = q)
    /\ ((forall q, In q PROFILES -> key q <> k) ->
        p = stats_profile /\ nth_error PROFILES 0 = Some p).
Proof.
  unfold get_profile_by_key, PROFILES. cbn [List.find].
  destruct (String.eqb_spec (key stats_profile) k) as [Es|Ns].
  - exists stats_profile. split; [reflexivity|]. split; [left; reflexivity|].
    split.
    + intros q [<-|[<-|[]]] Hq; [reflexivity|]. rewrite <- Es in Hq. discriminate.
    + intros Hn. exfalso. apply (Hn stats_profile); [left; reflexivity|assumption].
  - destruct (String.eqb_spec (key physics_profile) k) as [Ep|Np].
    + exists physics_profile. split; [reflexivity|]. split; [right; left; reflexivity|].
      split.
      * intros q [<-|[<-|[]]] Hq; [contradiction|reflexivity].
      * intros Hn. exfalso. apply (Hn physics_profile); [right; left; reflexivity|assumption].
    + exists stats_profile. split; [reflexivity|]. split; [left; reflexivity|].
      split.
      * intros q [<-|[<-|[]]] Hq; contradiction.
      * intros _. split; reflexivity.
Qed.

(** ** The detector *)

Lemma float_at_unpack blob off :
  0 <= off ->
  float_at blob off
  = match Struct.unpack_from Struct.fmt_f blob off with
    | Ok v => Some v
    | Raise _ => None
    end.
Proof.
  intros Ho. unfold float_at.
  destruct (Z_lt_le_dec (len blob) (off + 4)) as [Hs|Hl].
  - rewrite read_scalar_out_of_range by (cbn; lia).
    rewrite unpack_from_short by (cbn; lia). reflexivity.
  - rewrite read_scalar_in_range by (cbn; lia).
    rewrite unpack_from_in_range by (cbn; lia). reflexivity.
Qed.

Lemma physics_heuristic_plausible blob :
  match physics_heuristic blob with
  | Ok (Some p) => p = physics_profile /\ physics_plausible blob = true
  | Ok None | Raise _ => physics_plausible blob = false
  end.
Proof.
  unfold physics_heuristic, physics_plausible.
  rewrite !float_at_unpack by lia.
  destruct (Struct.unpack_from Struct.fmt_f blob 0x0030) as [bmin|e]; cbn [bind]; [|reflexivity].
  destruct (Struct.unpack_from Struct.fmt_f blob 0x0034) as [bmax|e]; cbn [bind]; [|reflexivity].
  destruct (Struct.unpack_from Struct.fmt_f blob 0x0038) as [ai|e]; cbn [bind]; [|reflexivity].
  destruct (Struct.unpack_from Struct.fmt_f blob 0x003C) as [pl|e]; cbn [bind]; [|reflexivity].
  destruct (_ && _); [|reflexivity].
  rewrite get_profile_by_key_physics. cbn [bind]. split; reflexivity.
Qed.

Lemma stats_heuristic_plausible blob :
  match stats_heuristic blob with
  | Ok (Some p) => p = stats_profile /\ stats_plausible blob = true
  | Ok None | Raise _ => stats_plausible blob = false
  end.
Proof.
  unfold stats_heuristic, stats_plausible.
  rewrite !float_at_unpack by lia.
  destruct (Struct.unpack_from Struct.fmt_f blob 0x84) as [wb|e]; cbn [bind]; [|reflexivity].
  destruct (_ && _); [|reflexivity].
  rewrite get_profile_by_key_stats. cbn [bind]. split; reflexivity.
Qed.

Lemma float_at_short blob off : len blob < off + 4 -> float_at blob off = None.
Proof.
  intros H. unfold float_at. rewrite read_scalar_out_of_range by (cbn; lia). reflexivity.
Qed.

Lemma len_slice_lower {A} (l : list A) a b :
  0 <= a -> a < b -> len (slice l a b) = b - a -> b <= len l.
Proof.
  intros Ha Hab. unfold slice, slice_index, len.
  rewrite length_take, length_drop.
  destruct (Z.ltb_spec a 0); destruct (Z.ltb_spec b 0); lia.
Qed.

Lemma slice_slice {A} (l : list A) a n i j :
  0 <= a -> a + n <= len l -> 0 <= i -> i <= j -> j <= n ->
  slice (slice l a (a + n)) i j = slice l (a + i) (a + j).
Proof.
  intros Ha Hn Hi Hij Hj.
  rewrite (slice_in_range (slice l a (a + n))) by (rewrite ?len_slice; lia).
  rewrite !slice_in_range by lia.
  replace (a + n - a) with n by lia. replace (a + j - (a + i)) with (j - i) by lia.
  replace (Z.to_nat n) with (Z.to_nat i + (Z.to_nat n - Z.to_nat i))%nat by lia.
  rewrite <- take_drop_commute, take_take, drop_drop.
  f_equal; [lia|]. f_equal. lia.
Qed.

Lemma float_at_slice blob a n i :
  0 <= a -> a + n <= len blob -> 0 <= i -> i + 4 <= n ->
  float_at blob (a + i) = float_at (slice blob a (a + n)) i.
Proof.
  intros Ha Hn Hi Hin. unfold float_at.
  rewrite !read_scalar_in_range by (rewrite ?len_slice; cbn; lia).
  cbv zeta. cbn [width _FMT snd fst].
  rewrite slice_slice by lia. rewrite Z.add_assoc. reflexivity.
Qed.

(** *** Substrings *)

Lemma append_String c s r : String.append (String c s) r = String c (String.append s r).
Proof. reflexivity. Qed.

Lemma append_empty r : String.append EmptyString r = r.
Proof. reflexivity. Qed.

Lemma prefix_append p s :
  String.prefix p s = true <-> exists post, s = String.append p post.
Proof.
  revert s. induction p as [|a p IH]; intros s.
  - split; [|destruct s; reflexivity].
    intros _. exists s. destruct s; reflexivity.
  - destruct s as [|b s]; cbn [String.prefix].
    + split; [discriminate|]. intros [post H]. rewrite append_String in H. discriminate.
    + destruct (ascii_dec a b) as [->|Hab].
      * rewrite IH. split; intros [post H]; exists post.
        -- rewrite append_String, <- H. reflexivity.
        -- rewrite append_String in H. congruence.
      * split; [discriminate|]. intros [post H]. rewrite append_String in H. congruence.
Qed.

(** [needle in s] holds exactly when [needle] is a substring of [s]. *)
Lemma contains_occurs needle s : contains needle s = true <-> occurs needle s.
Proof.
  unfold occurs. induction s as [|c s IH]; cbn [contains].
  - rewrite orb_false_r, prefix_append. split.
    + intros [post H]. exists EmptyString, post. rewrite append_empty. exact H.
    + intros (pre & post & H). destruct pre as [|x pre].
      * rewrite append_empty in H. exists post. exact H.
      * rewrite append_String in H. discriminate.
  - rewrite orb_true_iff, prefix_append, IH. split.
    + intros [[post H]|(pre & post & H)].
      * exists EmptyString, post. rewrite append_empty. exact H.
      * exists (String c pre), post. rewrite append_String, <- H. reflexivity.
    + intros (pre & post & H). destruct pre as [|x pre].
      * left. exists post. rewrite append_empty in H. exact H.
      * right. exists pre, post. rewrite append_String in H. congruence.
Qed.

Lemma path_hint_hints os_sep file_path :
  path_hint os_sep (lower file_path) = true <-> path_hints_physics os_sep file_path.
Proof.
  unfold path_hint, path_hints_physics.
  rewrite orb_true_iff, !contains_occurs. reflexivity.
Qed.

Lemma detect_profile_eq os_sep file_path blob :
  detect_profile os_sep file_path blob
  = Ok (if path_hint os_sep (lower file_path) then physics_profile
        else if physics_plausible blob then physics_profile
        else if stats_plausible blob then stats_profile
        else stats_profile).
Proof.
  unfold detect_profile.
  destruct (path_hint os_sep (lower file_path)); [reflexivity|].
  pose proof (physics_heuristic_plausible blob) as Hp.
  pose proof (stats_heuristic_plausible blob) as Hs.
  destruct (physics_heuristic blob) as [[p|]|e].
  - destruct Hp as [-> ->]. reflexivity.
  - rewrite Hp. destruct (stats_heuristic blob) as [[q|]|e'].
    + destruct Hs as [-> ->]. reflexivity.
    + rewrite Hs. reflexivity.
    + rewrite Hs. reflexivity.
  - rewrite Hp. destruct (stats_heuristic blob) as [[q|]|e'].
    + destruct Hs as [-> ->]. reflexivity.
    + rewrite Hs. reflexivity.
    + rewrite Hs. reflexivity.
Qed.

(** C6.  [detect_profile] returns a registered profile for every path
    and buffer, and applies its rules in order.  Rule 1: when the path, letters lowercased, has
    [physicstweaker] as a substring, or [physics] between two path
    separators, the result is the physics profile, whatever the buffer
    holds.  For every other path, rule 2: the physics profile when the
    floats at 0x30, 0x34, 0x38 and 0x3C decode and lie in (100, 5000),
    (100, 10000), [0, 10] and [0, 10]; else rules 3 and 4: the stats
    profile, whether the float at 0x84 lies in (1, 6) or not.  A buffer
    too short for a heuristic makes it a non-match.  A buffer with the
    float32 600.0, 1200.0, 1.0 and 1.0 at 0x30..0x3F gives the physics
    profile, with or without a path hint. *)
Theorem detect_profile_rules os_sep file_path blob :
  (exists p, detect_profile os_sep file_path blob = Ok p /\ In p PROFILES)
  /\ (path_hints_physics os_sep file_path ->
      detect_profile os_sep file_path blob = Ok physics_profile)
  /\ (~ path_hints_physics os_sep file_path ->
      detect_profile os_sep file_path blob
      = Ok (if physics_plausible blob then physics_profile
            else if stats_plausible blob then stats_profile
            else stats_profile))
  /\ (len blob < 0x40 -> physics_plausible blob = false)
  /\ (len blob < 0x88 -> stats_plausible blob = false)
  /\ (slice blob 0x30 0x40 = brake_glow_example ->
      detect_profile os_sep file_path blob = Ok physics_profile).
Proof.
  pose proof (detect_profile_eq os_sep file_path blob) as Hmain.
  pose proof (path_hint_hints os_sep file_path) as Hhint.
  split; [|split; [|split; [|split; [|split]]]].
  - rewrite Hmain. eexists. split; [reflexivity|].
    destruct (path_hint os_sep (lower file_path)); [right; left; reflexivity|].
    destruct (physics_plausible blob); [right; left; reflexivity|].
    destruct (stats_plausible blob); left; reflexivity.
  - intros Hh. apply Hhint in Hh. rewrite Hmain, Hh. reflexivity.
  - intros Hn. rewrite Hmain.
    destruct (path_hint os_sep (lower file_path)); [|reflexivity].
    exfalso. apply Hn, Hhint. reflexivity.
  - intros Hl. unfold physics_plausible.
    rewrite (float_at_short blob 0x003C) by lia.
    destruct (float_at blob 0x0030), (float_at blob 0x0034), (float_at blob 0x0038); reflexivity.
  - intros Hl. unfold stats_plausible. rewrite (float_at_short blob 0x84) by lia. reflexivity.
  - intros Hex. rewrite Hmain.
    assert (Hlen : 0x40 <= len blob).
    { apply (len_slice_lower blob 0x30 0x40); [lia|lia|]. rewrite Hex. reflexivity. }
    assert (Hpl : physics_plausible blob = true).
    { unfold physics_plausible.
      change 0x0030 with (0x30 + 0). change 0x0034 with (0x30 + 4).
      change 0x0038 with (0x30 + 8). change 0x003C with (0x30 + 12).
      rewrite !(float_at_slice blob 0x30 16) by lia.
      change (0x30 + 16) with 0x40. rewrite Hex. vm_compute. reflexivity. }
    rewrite Hpl. destruct (path_hint os_sep (lower file_path)); reflexivity.
Qed.

Lemma hinted_tweaker_path :
  path_hints_physics "/" "C:/Mods/PhysicsTweaker/car.mrdf".
Proof. left. exists "c:/mods/", "/car.mrdf". reflexivity. Qed.

Lemma hinted_segment_path :
  path_hints_physics "/" "/Vehicles/Physics/car.mrdf".
Proof. right. exists "/vehicles", "car.mrdf". reflexivity. Qed.

Lemma unhinted_path :
  ~ path_hints_physics "/" "C:/cars/physics_car.mrdf".
Proof.
  intros H. apply path_hint_hints in H. vm_compute in H. discriminate.
Qed.

Lemma detect_profile_rules_witness :
  (path_hints_physics "/" "C:/Mods/PhysicsTweaker/car.mrdf"
   /\ detect_profile "/" "C:/Mods/PhysicsTweaker/car.mrdf" (repeat x00 0x88)
      = Ok physics_profile)
  /\ (path_hints_physics "/" "/Vehicles/Physics/car.mrdf"
      /\ detect_profile "/" "/Vehicles/Physics/car.mrdf" (repeat x00 0x88)
         = Ok physics_profile)
  /\ (~ path_hints_physics "/" "C:/cars/physics_car.mrdf"
      /\ detect_profile "/" "C:/cars/physics_car.mrdf" (repeat x00 0x88)
         = Ok stats_profile)
  /\ (slice (repeat x00 0x30 ++ brake_glow_example) 0x30 0x40 = brake_glow_example
      /\ detect_profile "/" "C:/cars/car.mrdf" (repeat x00 0x30 ++ brake_glow_example)
         = Ok physics_profile).
Proof.
  split; [|split; [|split]].
  - split; [exact hinted_tweaker_path|].
    destruct (detect_profile_rules "/" "C:/Mods/PhysicsTweaker/car.mrdf" (repeat x00 0x88))
      as (_ & Hhinted & _).
    exact (Hhinted hinted_tweaker_path).
  - split; [exact hinted_segment_path|].
    destruct (detect_profile_rules "/" "/Vehicles/Physics/car.mrdf" (repeat x00 0x88))
      as (_ & Hhinted & _).
    exact (Hhinted hinted_segment_path).
  - split; [exact unhinted_path|].
    destruct (detect_profile_rules "/" "C:/cars/physics_car.mrdf" (repeat x00 0x88))
      as (_ & _ & Hother & _).
    exact (Hother unhinted_path).
  - assert (Hex : slice (repeat x00 0x30 ++ brake_glow_example) 0x30 0x40
                  = brake_glow_example) by (vm_compute; reflexivity).
    split; [exact Hex|].
    destruct (detect_profile_rules "/" "C:/cars/car.mrdf"
                (repeat x00 0x30 ++ brake_glow_example))
      as (_ & _ & _ & _ & _ & Hexample).
    exact (Hexample Hex).
Defined.

(** ** The edit operations *)

Lemma refresh_parse_buffers st :
  original_blob (refresh_parse st) = original_blob st
  /\ working_blob (refresh_parse st) = working_blob st
  /\ edits (refresh_parse st) = edits st.
Proof. unfold refresh_parse. destruct (working_blob st) eqn:E; cbn; auto. Qed.

Lemma working_blob_refresh st : working_blob (refresh_parse st) = working_blob st.
Proof. apply refresh_parse_buffers. Qed.

Lemma original_blob_refresh st : original_blob (refresh_parse st) = original_blob st.
Proof. apply refresh_parse_buffers. Qed.

Lemma edits_refresh st : edits (refresh_parse st) = edits st.
Proof. apply refresh_parse_buffers. Qed.

(** The ledger is no business of the raw overwrite, whatever it ends with. *)
Lemma apply_hex_overwrite_edits ui st : edits (fst (apply_hex_overwrite ui st)) = edits st.
Proof.
  unfold apply_hex_overwrite.
  destruct (working_blob st); [|reflexivity].
  destruct (_hex_sel_start ui), (_hex_sel_len ui); try reflexivity.
  destruct (_parse_hex_bytes (hex_edit_var ui)); [|reflexivity].
  destruct (negb _); [reflexivity|]. cbn [fst]. rewrite edits_refresh. reflexivity.
Qed.




(** The length gate of [apply_hex_overwrite].  With a target range of
    length [n] and a byte sequence parsed from the entry: when its length
    differs from [n] the overwrite fails with the byte count mismatch and
    the state, working buffer included, is as before; when the length is
    [n] the slice assignment [working[start:start+n] = new_bytes] is made,
    and for a target that lies within the buffer it replaces those bytes
    verbatim, the other bytes and the length staying as they were; in
    every case the pending-edits ledger is unchanged.  Nothing checks that
    the target lies within the buffer. *)
Theorem apply_hex_overwrite_length_gate ui st work start n new_bytes :
  working_blob st = Some work ->
  _hex_sel_start ui = Some start ->
  _hex_sel_len ui = Some n ->
  _parse_hex_bytes (hex_edit_var ui) = Ok new_bytes ->
  (len new_bytes <> n ->
     apply_hex_overwrite ui st = (st, ByteCountMismatch n (len new_bytes)))
  /\ (len new_bytes = n ->
      let st' := fst (apply_hex_overwrite ui st) in
      snd (apply_hex_overwrite ui st) = Overwritten n start
      /\ working_blob st' = Some (slice_assign work start (start + n) new_bytes)
      /\ original_blob st' = original_blob st
      /\ (0 <= start -> start + n <= len work ->
          slice (slice_assign work start (start + n) new_bytes) start (start + n) = new_bytes
          /\ length (slice_assign work start (start + n) new_bytes) = length work
          /\ forall i : nat, Z.of_nat i < start \/ start + n <= Z.of_nat i ->
               slice_assign work start (start + n) new_bytes !! i = work !! i))
  /\ edits (fst (apply_hex_overwrite ui st)) = edits st.
Proof.
  intros Hwork Hstart Hn Hparse.
  split; [|split; [|apply apply_hex_overwrite_edits]].
  - intros Hne. unfold apply_hex_overwrite. rewrite Hwork, Hstart, Hn, Hparse.
    rewrite (proj2 (Z.eqb_neq _ _) Hne). reflexivity.
  - intros Heq st'. subst st'. unfold apply_hex_overwrite. rewrite Hwork, Hstart, Hn, Hparse.
    rewrite (proj2 (Z.eqb_eq _ _) Heq). cbn [negb fst snd].
    rewrite working_blob_refresh, original_blob_refresh.
    split; [reflexivity|]. split; [reflexivity|]. split; [reflexivity|].
    intros Hs Hb.
    split; [apply slice_slice_assign; assumption|].
    split; [apply length_slice_assign; assumption|].
    intros i Hi. apply lookup_slice_assign_outside; assumption.
Qed.

Lemma apply_hex_overwrite_length_gate_witness :
  _parse_hex_bytes "01 00 00" = Ok [x01; x00; x00]
  /\ apply_hex_overwrite (widgets gear_inst EmptyString "01 00 00") opened48
     = (opened48, ByteCountMismatch 4 3).
Proof.
  split; [vm_compute; reflexivity|].
  apply (apply_hex_overwrite_length_gate
           (widgets gear_inst EmptyString "01 00 00") opened48 blob48 0x28 4 [x01; x00; x00]);
    try (vm_compute; reflexivity).
  in_bounds.
Defined.



Section EditorTheorems.

Variable float_of_str : string -> result spec_float.



End EditorTheorems.


(** ** The hex overwrite literal *)

Ltac ascii_cases c := destruct c as [[|] [|] [|] [|] [|] [|] [|] [|]].

Lemma hex_digit_not_space c : is_hex_digit c = true -> isspace c = false.
Proof. ascii_cases c; vm_compute; congruence. Qed.

Lemma hex_digit_not_underscore c : is_hex_digit c = true -> Ascii.eqb c "_" = false.
Proof. ascii_cases c; vm_compute; congruence. Qed.

Lemma hex_digit_not_comma c : is_hex_digit c = true -> Ascii.eqb c "," = false.
Proof. ascii_cases c; vm_compute; congruence. Qed.

Lemma hex_digit_not_x c :
  is_hex_digit c = true -> Ascii.eqb c "x" || Ascii.eqb c "X" = false.
Proof. ascii_cases c; vm_compute; congruence. Qed.

Lemma hex_digit_no_sign c r :
  is_hex_digit c = true -> int_sign (String c r) = (false, String c r).
Proof. ascii_cases c; intros H; try reflexivity; vm_compute in H; discriminate. Qed.

Lemma hex_digit_value_spec c :
  is_hex_digit c = true ->
  digit_value c = Some (hex_digit_value c) /\ 0 <= hex_digit_value c < 16.
Proof. ascii_cases c; vm_compute; intros H; try discriminate; repeat split; congruence. Qed.

Lemma int_prefix_two_digits a b :
  is_hex_digit b = true ->
  int_prefix 16 (String a (String b EmptyString)) = String a (String b EmptyString).
Proof.
  intros Hb. unfold int_prefix. cbn [Z.eqb Pos.eqb].
  ascii_cases a; try reflexivity.
  rewrite (hex_digit_not_x b Hb). reflexivity.
Qed.

Lemma strip_two_digits a b :
  is_hex_digit a = true -> is_hex_digit b = true ->
  strip (String a (String b EmptyString)) = String a (String b EmptyString).
Proof.
  intros Ha Hb. unfold strip. cbn [lstrip]. rewrite (hex_digit_not_space a Ha).
  cbn [rstrip]. rewrite (hex_digit_not_space b Hb). reflexivity.
Qed.

Lemma hex_digit_not_int_space c : is_hex_digit c = true -> int_isspace c = false.
Proof. ascii_cases c; vm_compute; congruence. Qed.

Lemma int_strip_two_digits a b :
  is_hex_digit a = true -> is_hex_digit b = true ->
  int_rstrip (int_lstrip (String a (String b EmptyString)))
  = String a (String b EmptyString).
Proof.
  intros Ha Hb. cbn [int_lstrip]. rewrite (hex_digit_not_int_space a Ha).
  cbn [int_rstrip]. rewrite (hex_digit_not_int_space b Hb). reflexivity.
Qed.

(** [int(t, 16)] on a two-digit token. *)
Lemma int_of_str_two_digits a b :
  is_hex_digit a = true -> is_hex_digit b = true ->
  int_of_str 16 (String a (String b EmptyString))
  = Ok (16 * hex_digit_value a + hex_digit_value b).
Proof.
  intros Ha Hb. unfold int_of_str.
  rewrite int_strip_two_digits, hex_digit_no_sign, int_prefix_two_digits by assumption.
  cbv zeta. change (negb (is_binary_base 16)) with false. cbn [andb].
  destruct (hex_digit_value_spec a Ha) as [Va Ra].
  destruct (hex_digit_value_spec b Hb) as [Vb Rb].
  cbn [int_digits].
  rewrite (hex_digit_not_underscore a Ha), Va, (proj2 (Z.ltb_lt _ 16)) by lia.
  rewrite (hex_digit_not_underscore b Hb), Vb, (proj2 (Z.ltb_lt _ 16)) by lia.
  f_equal. lia.
Qed.

Lemma two_hex_digits_reads t :
  two_hex_digits t = true -> reads_as_byte t (hex_pair_byte t).
Proof.
  destruct t as [|a [|b [|c r]]]; try discriminate. cbn [two_hex_digits].
  intros H. apply andb_true_iff in H as [Ha Hb].
  exists (16 * hex_digit_value a + hex_digit_value b).
  pose proof (hex_digit_value_spec a Ha) as [_ Ra].
  pose proof (hex_digit_value_spec b Hb) as [_ Rb].
  split; [apply int_of_str_two_digits; assumption|]. split; [lia|reflexivity].
Qed.

Lemma bytes_of_hex_parts_iff parts bs :
  bytes_of_hex_parts parts = Ok bs <-> Forall2 reads_as_byte parts bs.
Proof.
  revert bs. induction parts as [|p rest IH]; intros bs; cbn [bytes_of_hex_parts].
  - split.
    + intros <-%Ok_inj. constructor.
    + intros H. inversion H. reflexivity.
  - split.
    + destruct (int_of_str 16 p) as [v|e] eqn:Ev; cbn [bind]; [|discriminate].
      destruct ((0 <=? v) && (v <=? 255)) eqn:Er; [|discriminate].
      destruct (bytes_of_hex_parts rest) as [bs'|e] eqn:Eb; cbn [bind]; [|discriminate].
      intros <-%Ok_inj. apply andb_true_iff in Er as [H1 H2]. apply Z.leb_le in H1, H2.
      constructor; [|apply IH; reflexivity].
      exists v. split; [exact Ev|]. split; [lia|reflexivity].
    + intros H. inversion H as [|? b ? bs' (v & Ev & Rv & ->) Hrest]; subst.
      rewrite Ev. cbn [bind].
      rewrite (proj2 (Z.leb_le 0 v)), (proj2 (Z.leb_le v 255)) by lia. cbn [andb].
      rewrite (proj2 (IH bs') Hrest). reflexivity.
Qed.

Lemma bytes_of_hex_parts_raises parts e :
  bytes_of_hex_parts parts = Raise e -> e = ValueError.
Proof.
  induction parts as [|p rest IH]; cbn [bytes_of_hex_parts]; [discriminate|].
  unfold int_of_str. destruct (int_sign (int_rstrip (int_lstrip p))) as [neg body].
  cbv zeta. change (negb (is_binary_base 16)) with false. cbn [andb].
  destruct (int_digits 16 0 false (int_prefix 16 body)); cbn [bind]; [|congruence].
  destruct (_ && _); [|congruence].
  destruct (bytes_of_hex_parts rest) as [bs|e'] eqn:Eb; cbn [bind]; [discriminate|].
  intros [= <-]. apply IH. reflexivity.
Qed.

Lemma parse_hex_bytes_iff s bs :
  _parse_hex_bytes s = Ok bs <-> Forall2 reads_as_byte (hex_parts s) bs.
Proof.
  unfold _parse_hex_bytes, hex_parts.
  destruct (strip s) as [|c r] eqn:Es; cbn [is_empty].
  - cbn. split.
    + intros <-%Ok_inj. constructor.
    + intros H. inversion H. reflexivity.
  - rewrite <- bytes_of_hex_parts_iff.
    destruct (bytes_of_hex_parts _); split; congruence.
Qed.

(** ** [hex_upper], the text the entry is filled with *)

Lemma hex_byte_upper_digits b :
  exists h l, hex_byte_upper b = String h (String l EmptyString)
              /\ is_hex_digit h = true /\ is_hex_digit l = true
              /\ hex_pair_byte (hex_byte_upper b) = b.
Proof.
  unfold hex_byte_upper. eexists _, _. split; [reflexivity|].
  destruct b; vm_compute; repeat split; reflexivity.
Qed.

Lemma append_two h l X :
  String.append (String h (String l EmptyString)) X = String h (String l X).
Proof. reflexivity. Qed.

Lemma hex_upper_cons b t :
  t <> [] ->
  hex_upper (b :: t) = String.append (hex_byte_upper b) (String " " (hex_upper t)).
Proof. destruct t; [congruence|reflexivity]. Qed.

Lemma hex_upper_nonempty b t : hex_upper (b :: t) <> EmptyString.
Proof.
  destruct (hex_byte_upper_digits b) as (h & l & E & _).
  destruct t; cbn [hex_upper]; rewrite E, ?append_two; discriminate.
Qed.

Lemma lstrip_hex_upper bs : lstrip (hex_upper bs) = hex_upper bs.
Proof.
  destruct bs as [|b t]; [reflexivity|].
  destruct (hex_byte_upper_digits b) as (h & l & E & Hh & _).
  destruct t; cbn [hex_upper]; rewrite E, ?append_two; cbn [lstrip];
    rewrite (hex_digit_not_space h Hh); reflexivity.
Qed.

Lemma rstrip_hex_upper bs : rstrip (hex_upper bs) = hex_upper bs.
Proof.
  induction bs as [|b t IH]; [reflexivity|].
  destruct (hex_byte_upper_digits b) as (h & l & E & Hh & Hl & _).
  destruct t as [|b' t'].
  - cbn [hex_upper]. rewrite E. cbn [rstrip].
    rewrite (hex_digit_not_space l Hl). reflexivity.
  - rewrite hex_upper_cons by discriminate. rewrite E, append_two.
    pose proof (hex_upper_nonempty b' t') as Hne.
    cbn [rstrip]. rewrite IH.
    destruct (hex_upper (b' :: t')) as [|c r] eqn:Ex; [congruence|]. reflexivity.
Qed.

Lemma replace_hex_upper bs : replace "," " " (hex_upper bs) = hex_upper bs.
Proof.
  induction bs as [|b t IH]; [reflexivity|].
  destruct (hex_byte_upper_digits b) as (h & l & E & Hh & Hl & _).
  destruct t as [|b' t'].
  - cbn [hex_upper]. rewrite E. cbn [replace].
    rewrite (hex_digit_not_comma h Hh), (hex_digit_not_comma l Hl). reflexivity.
  - rewrite hex_upper_cons by discriminate. rewrite E, append_two. cbn [replace].
    rewrite (hex_digit_not_comma h Hh), (hex_digit_not_comma l Hl), IH. reflexivity.
Qed.

Lemma split_hex_upper bs : split (hex_upper bs) = map hex_byte_upper bs.
Proof.
  induction bs as [|b t IH]; [reflexivity|].
  destruct (hex_byte_upper_digits b) as (h & l & E & Hh & Hl & _).
  destruct t as [|b' t'].
  - cbn [hex_upper map]. rewrite E. cbn [split].
    rewrite (hex_digit_not_space h Hh), (hex_digit_not_space l Hl). reflexivity.
  - rewrite hex_upper_cons by discriminate. cbn [map] in *. rewrite E.
    rewrite append_two. rewrite <- IH.
    set (X := hex_upper (b' :: t')).
    change (split (String h (String l (String " " X))))
      with (if isspace h then split (String l (String " " X))
            else if isspace l then String h EmptyString :: split (String l (String " " X))
                 else match split (String l (String " " X)) with
                      | t0 :: ts => String h t0 :: ts
                      | [] => [String h EmptyString]
                      end).
    rewrite (hex_digit_not_space h Hh), (hex_digit_not_space l Hl).
    change (split (String l (String " " X)))
      with (if isspace l then split (String " " X)
            else if isspace " " then String l EmptyString :: split (String " " X)
                 else match split (String " " X) with
                      | t0 :: ts => String l t0 :: ts
                      | [] => [String l EmptyString]
                      end).
    rewrite (hex_digit_not_space l Hl).
    change (isspace " ") with true. cbn iota.
    change (split (String " " X)) with (split X). reflexivity.
Qed.

Lemma hex_parts_hex_upper bs : hex_parts (hex_upper bs) = map hex_byte_upper bs.
Proof.
  unfold hex_parts, strip.
  rewrite lstrip_hex_upper, rstrip_hex_upper, replace_hex_upper. apply split_hex_upper.
Qed.

(** C9 (amended).  [_parse_hex_bytes] accepts exactly the strings whose
    tokens, the runs between whitespace and commas, are each read by
    [int(_, 16)] as a value in 0..255, and returns those bytes; in
    particular it accepts every string of two-digit hexadecimal tokens, and
    reads back the text [hex_upper bs] of any bytes [bs] as [bs]; any other
    token is a parse failure.  An overwrite is applied only when the
    literal parses and its byte count equals the target length; otherwise
    the state is as before. *)
Theorem parse_hex_bytes_accepts :
  (forall s bs, _parse_hex_bytes s = Ok bs <-> Forall2 reads_as_byte (hex_parts s) bs)
  /\ (forall s, (forall bs, _parse_hex_bytes s <> Ok bs) -> _parse_hex_bytes s = Raise ValueError)
  /\ (forall s, forallb two_hex_digits (hex_parts s) = true ->
        _parse_hex_bytes s = Ok (map hex_pair_byte (hex_parts s)))
  /\ (forall bs, _parse_hex_bytes (hex_upper bs) = Ok bs)
  /\ (forall ui st n start,
        snd (apply_hex_overwrite ui st) = Overwritten n start ->
        exists bs, _hex_sel_len ui = Some n
                   /\ _parse_hex_bytes (hex_edit_var ui) = Ok bs /\ len bs = n)
  /\ (forall ui st,
        (forall n start, snd (apply_hex_overwrite ui st) <> Overwritten n start) ->
        fst (apply_hex_overwrite ui st) = st).
Proof.
  assert (Htwo : forall parts, forallb two_hex_digits parts = true ->
                               Forall2 reads_as_byte parts (map hex_pair_byte parts)).
  { induction parts as [|t rest IH]; cbn [forallb map]; [constructor|].
    intros H. apply andb_true_iff in H as [Ht Hr].
    constructor; [apply two_hex_digits_reads; assumption|apply IH; assumption]. }
  split; [exact parse_hex_bytes_iff|]. split; [|split; [|split; [|split]]].
  - intros s Hno. unfold _parse_hex_bytes in *.
    destruct (is_empty (strip s)); [exfalso; eapply Hno; reflexivity|].
    destruct (bytes_of_hex_parts _); [exfalso; eapply Hno; reflexivity|reflexivity].
  - intros s Hs. apply parse_hex_bytes_iff. apply Htwo. assumption.
  - intros bs. apply parse_hex_bytes_iff. rewrite hex_parts_hex_upper.
    induction bs as [|b t IH]; cbn [map]; constructor; [|exact IH].
    destruct (hex_byte_upper_digits b) as (h & l & E & Hh & Hl & Hb).
    rewrite <- Hb at 2. apply two_hex_digits_reads. rewrite E. cbn [two_hex_digits].
    rewrite Hh, Hl. reflexivity.
  - intros ui st n start. unfold apply_hex_overwrite.
    destruct (working_blob st); [|discriminate].
    destruct (_hex_sel_start ui) as [s0|]; [|discriminate].
    destruct (_hex_sel_len ui) as [n0|]; [|discriminate].
    destruct (_parse_hex_bytes (hex_edit_var ui)) as [bs|e]; [|discriminate].
    destruct (Z.eqb_spec (len bs) n0) as [El|Nl]; cbn [negb snd]; [|discriminate].
    intros [= <- <-]. exists bs. auto.
  - intros ui st Hno. unfold apply_hex_overwrite in *.
    destruct (working_blob st); [|reflexivity].
    destruct (_hex_sel_start ui) as [s0|]; [|reflexivity].
    destruct (_hex_sel_len ui) as [n0|]; [|reflexivity].
    destruct (_parse_hex_bytes (hex_edit_var ui)) as [bs|e]; [|reflexivity].
    destruct (negb (len bs =? n0)); [reflexivity|].
    exfalso. apply (Hno n0 s0). reflexivity.
Qed.

(** C9 as stated fails: the one-digit token ["F"], and the token ["0x1f"],
    are accepted, though neither is a two-digit hexadecimal token. *)
Lemma parse_hex_bytes_accepts_other_shapes :
  _parse_hex_bytes "F" = Ok [x0f]
  /\ forallb two_hex_digits (hex_parts "F") = false
  /\ _parse_hex_bytes "0x1f" = Ok [x1f]
  /\ forallb two_hex_digits (hex_parts "0x1f") = false.
Proof. vm_compute. repeat split; reflexivity. Qed.

(** ** The worked examples of the specification *)

Example decode_zero_float :
  read_scalar (repeat x00 0x200) 0x20 K_float = Ok (Float (S754_zero false), zeros4).
Proof. vm_compute. reflexivity. Qed.

(** [120.5] is [241 * 2^-1]; it is a float32, so it comes back as it is. *)
Example encode_decode_120_5 :
  let v := Float (binary_normalize 53 1024 241 (-1) false) in
  read_scalar (fst (write_scalar (repeat x00 0x200) 0x20 K_float v)) 0x20 K_float
  = Ok (v, [x00; x00; xf1; x42]).
Proof. vm_compute. reflexivity. Qed.

Example decode_uint32_near_end :
  read_scalar (repeat x00 0x200) (0x200 - 2) K_uint32 = Raise OutOfBounds.
Proof. vm_compute. reflexivity. Qed.

Example brake_glow_example_floats :
  Struct.pack Struct.fmt_f (lit 600) = Ok (slice brake_glow_example 0 4)
  /\ Struct.pack Struct.fmt_f (lit 1200) = Ok (slice brake_glow_example 4 8)
  /\ Struct.pack Struct.fmt_f (lit 1) = Ok (slice brake_glow_example 8 12)
  /\ Struct.pack Struct.fmt_f (lit 1) = Ok (slice brake_glow_example 12 16).
Proof. vm_compute. repeat split; reflexivity. Qed.

(** A wheelbase of [2.7] at 0x84 and zeros elsewhere: the stats profile. *)
Example detect_stats_by_wheelbase :
  detect_profile "/" "car.mrdf"
    (repeat x00 0x84 ++ [xcd; xcc; x2c; x40] ++ repeat x00 0x78)
  = Ok stats_profile.
Proof. vm_compute. reflexivity. Qed.

(** The bits 0x01 and 0x04 checked compose to 5. *)
Example tyre_bitmask_composes :
  let tyre := mk_def "TyreAvailability" "TYRES" 0xBC K_uint32 EmptyString None in
  let ui := {| _selected := None; _editor_var := "ignored";
               _enum_choice_var := EmptyString;
               _bitmask_vars := [(0x01, true); (0x02, false); (0x04, true); (0x08, false);
                                 (0x10, false); (0x20, false); (0x40, false)];
               hex_edit_var := EmptyString;
               _hex_sel_start := None; _hex_sel_len := None |} in
  new_value decimal_float_of_str ui tyre = Ok (Int 5).
Proof. vm_compute. reflexivity. Qed.

Example sample_instances_parsed :
  In gear_inst (instances opened48) /\ In speed_inst (instances opened48).
Proof. vm_compute. split; tauto. Qed.

(** * Further properties *)

(** ** Further properties of the codec *)

Lemma le_word_range bs : 0 <= Struct.le_word bs < 2 ^ (8 * len bs).
Proof.
  unfold len. induction bs as [|b t IH]; cbn [Struct.le_word length].
  - cbn. lia.
  - pose proof (Z_of_byte_range b) as Hb.
    replace (8 * Z.of_nat (S (length t))) with (8 + 8 * Z.of_nat (length t)) by lia.
    rewrite Z.pow_add_r by lia. change (2 ^ 8) with 256. lia.
Qed.

Lemma read_scalar_Ok_bounds blob off scalar p :
  read_scalar blob off scalar = Ok p -> 0 <= off /\ off + width scalar <= len blob.
Proof.
  intros H.
  destruct (Z_lt_le_dec off 0) as [Hneg|Hpos];
    [|destruct (Z_lt_le_dec (len blob) (off + width scalar)) as [Hshort|Hfit]];
    [rewrite read_scalar_out_of_range in H by lia; discriminate ..|lia].
Qed.

(** X1.  [read_scalar] returns exactly when the offset is in bounds, and
    fails in no other way than with [OutOfBounds]. *)
Theorem read_scalar_returns_iff blob off scalar :
  ((exists v raw, read_scalar blob off scalar = Ok (v, raw))
   <-> 0 <= off /\ off + width scalar <= len blob)
  /\ (forall e, read_scalar blob off scalar = Raise e -> e = OutOfBounds).
Proof.
  destruct (Z_lt_le_dec off 0) as [Hneg|Hpos];
    [|destruct (Z_lt_le_dec (len blob) (off + width scalar)) as [Hshort|Hfit]].
  - rewrite read_scalar_out_of_range by lia. split.
    + split; [intros (v & raw & H); discriminate|lia].
    + intros e [= <-]. reflexivity.
  - rewrite read_scalar_out_of_range by lia. split.
    + split; [intros (v & raw & H); discriminate|lia].
    + intros e [= <-]. reflexivity.
  - rewrite read_scalar_in_range by lia. cbv zeta. split.
    + split; [lia|]. intros _. destruct scalar; eauto.
    + intros e H. destruct scalar; discriminate.
Qed.

Lemma read_scalar_raw blob off scalar v raw :
  read_scalar blob off scalar = Ok (v, raw) ->
  raw = slice blob off (off + width scalar) /\ len raw = width scalar.
Proof.
  intros H. destruct (read_scalar_Ok_bounds _ _ _ _ H) as [Ho Hb].
  pose proof (width_pos scalar) as Hw.
  rewrite read_scalar_in_range in H by lia. cbv zeta in H.
  assert (Hl : len (slice blob off (off + width scalar)) = width scalar)
    by (apply len_slice; lia).
  destruct scalar; apply Ok_inj in H; apply pair_equal_spec in H as [_ <-];
    (split; [reflexivity|exact Hl]).
Qed.

Lemma read_scalar_value_of_kind blob off scalar v raw :
  read_scalar blob off scalar = Ok (v, raw) -> value_of_kind scalar v.
Proof.
  intros H. destruct (read_scalar_Ok_bounds _ _ _ _ H) as [Ho Hb].
  pose proof (width_pos scalar) as Hw.
  rewrite read_scalar_in_range in H by lia. cbv zeta in H.
  assert (Hl : len (slice blob off (off + width scalar)) = width scalar)
    by (apply len_slice; lia).
  pose proof (le_word_range (slice blob off (off + width scalar))) as Hr.
  rewrite Hl in Hr.
  destruct scalar; cbn [_FMT fst Struct.decode Py.int bind width snd] in *;
    apply Ok_inj in H; apply pair_equal_spec in H as [<- _]; cbn [value_of_kind].
  - eexists. split; [reflexivity|]. apply f32_to_f64_valid.
  - change (8 * 4) with 32 in Hr. change (2 ^ 31) with 2147483648.
    change (2 ^ 32) with 4294967296 in *.
    eexists. split; [reflexivity|].
    destruct (Z.ltb_spec (Struct.le_word (slice blob off (off + 4))) 2147483648); lia.
  - eexists. split; [reflexivity|]. exact Hr.
  - destruct (_ =? 0); auto.
  - eexists. split; [reflexivity|]. exact Hr.
Qed.

(** X2.  What a decode returns: the raw bytes are [blob[off:off+width]],
    [width] of them, and the value is of the kind: a binary64 float for
    ["float"], a number in the signed or unsigned 32-bit or 8-bit range for
    the integer kinds, [0] or [1] for ["bool32"]. *)
Theorem read_scalar_result blob off scalar v raw :
  read_scalar blob off scalar = Ok (v, raw) ->
  raw = slice blob off (off + width scalar)
  /\ len raw = width scalar
  /\ value_of_kind scalar v.
Proof.
  intros H. destruct (read_scalar_raw _ _ _ _ _ H) as [Hraw Hlen].
  split; [exact Hraw|]. split; [exact Hlen|].
  exact (read_scalar_value_of_kind _ _ _ _ _ H).
Qed.

Lemma read_scalar_result_witness :
  read_scalar zeros4 0 K_uint32 = Ok (Int 0, zeros4)
  /\ len zeros4 = width K_uint32.
Proof.
  split; [vm_compute; reflexivity|].
  apply (read_scalar_result zeros4 0 K_uint32 (Int 0) zeros4). vm_compute. reflexivity.
Defined.

(** X3.  The bounds check of [write_scalar] comes first: out of bounds it
    raises [OutOfBounds] and leaves the buffer as it was whatever the
    value, and in bounds it never raises [OutOfBounds]. *)
Theorem write_scalar_bounds_first buf off scalar v :
  (off < 0 \/ len buf < off + width scalar ->
     write_scalar buf off scalar v = (buf, Raise OutOfBounds))
  /\ (0 <= off /\ off + width scalar <= len buf ->
     snd (write_scalar buf off scalar v) <> Raise OutOfBounds).
Proof.
  split.
  - apply write_scalar_out_of_range.
  - intros [Ho Hb] H. apply write_scalar_OutOfBounds_iff in H. lia.
Qed.

Lemma same_outside_refl off n a : same_outside off n a a.
Proof. split; [reflexivity|]. intros; reflexivity. Qed.

Lemma same_outside_slice_assign l x a n :
  0 <= a -> a + n <= len l -> len x = n ->
  same_outside a n (slice_assign l a (a + n) x) l.
Proof.
  intros Ha Hn Hx. split.
  - apply len_slice_assign; assumption.
  - intros i Hi. apply lookup_slice_assign_outside; assumption.
Qed.

Lemma slice_same_outside a n l l' b m :
  same_outside a n l' l ->
  0 <= b -> 0 <= m -> b + m <= len l ->
  disjoint_ranges a n b m ->
  slice l' b (b + m) = slice l b (b + m).
Proof.
  intros [Hl Hsame] Hb Hm Hbm Hd.
  apply list_eq. intros i.
  rewrite !slice_in_range by lia.
  replace (b + m - b) with m by lia.
  destruct (Nat.lt_ge_cases i (Z.to_nat m)) as [Hi|Hi].
  - rewrite !lookup_take_lt by assumption. rewrite !lookup_drop.
    apply Hsame. unfold disjoint_ranges in Hd. lia.
  - rewrite !lookup_take_ge by assumption. reflexivity.
Qed.

(** A decode sees only the bytes of its range. *)
Lemma read_scalar_same_outside a n l l' off scalar :
  same_outside a n l' l ->
  disjoint_ranges a n off (width scalar) ->
  read_scalar l' off scalar = read_scalar l off scalar.
Proof.
  intros Hs Hd. pose proof (width_pos scalar). pose proof (proj1 Hs) as Hl.
  destruct (Z_lt_le_dec off 0) as [Hneg|Hpos];
    [|destruct (Z_lt_le_dec (len l) (off + width scalar)) as [Hshort|Hfit]].
  - rewrite !read_scalar_out_of_range by lia. reflexivity.
  - rewrite !read_scalar_out_of_range by lia. reflexivity.
  - rewrite !read_scalar_in_range by lia. cbv zeta.
    rewrite (slice_same_outside a n l l') by (assumption || lia). reflexivity.
Qed.

(** Whether it returns or raises, an encode leaves the length and the
    bytes outside its range. *)
Lemma write_scalar_same_outside buf off scalar v :
  same_outside off (width scalar) (fst (write_scalar buf off scalar v)) buf.
Proof.
  destruct (Z_lt_le_dec off 0) as [Hneg|Hpos];
    [|destruct (Z_lt_le_dec (len buf) (off + width scalar)) as [Hshort|Hfit]].
  - rewrite write_scalar_out_of_range by lia. apply same_outside_refl.
  - rewrite write_scalar_out_of_range by lia. apply same_outside_refl.
  - rewrite write_scalar_in_range by assumption.
    destruct (packed_bytes scalar v) as [packed|e] eqn:Ep; cbn [fst];
      [|apply same_outside_refl].
    apply same_outside_slice_assign; try assumption.
    exact (packed_bytes_length _ _ _ Ep).
Qed.

(** X4.  An encode does not disturb a decode elsewhere: after
    [write_scalar] at one range, whether it returned or raised,
    [read_scalar] at a range that does not meet it returns what it
    returned before. *)
Theorem read_scalar_after_disjoint_write buf off scalar v off' scalar' :
  disjoint_ranges off (width scalar) off' (width scalar') ->
  read_scalar (fst (write_scalar buf off scalar v)) off' scalar'
  = read_scalar buf off' scalar'.
Proof.
  intros Hd. eapply read_scalar_same_outside; [|exact Hd].
  apply write_scalar_same_outside.
Qed.

Lemma read_scalar_after_disjoint_write_witness :
  disjoint_ranges 0 (width K_uint32) 4 (width K_uint8)
  /\ read_scalar (fst (write_scalar (zeros4 ++ zeros4) 0 K_uint32 (Int 7))) 4 K_uint8
     = read_scalar (zeros4 ++ zeros4) 4 K_uint8.
Proof.
  split; [left; vm_compute; intros; discriminate|].
  apply (read_scalar_after_disjoint_write (zeros4 ++ zeros4) 0 K_uint32 (Int 7) 4 K_uint8).
  left. vm_compute. intros; discriminate.
Defined.

(** ** Rounding is exact on the values of the format *)

Lemma iter_pos_Pos_iter {A} (f : A -> A) p : forall x, SpecFloat.iter_pos f p x = Pos.iter f x p.
Proof.
  induction p as [p IH|p IH|]; intros x; cbn [SpecFloat.iter_pos Pos.iter].
  - rewrite !IH. rewrite <- !Pos.iter_swap. reflexivity.
  - rewrite !IH. reflexivity.
  - reflexivity.
Qed.

Lemma shr_1_even m :
  0 <= m ->
  shr_1 (Build_shr_record (2 * m) false false) = Build_shr_record m false false.
Proof. destruct m as [|q|q]; try reflexivity; lia. Qed.

(** Shifting out zeros leaves no round or sticky bit. *)
Lemma iter_shr_1_exact p : forall m,
  0 <= m ->
  SpecFloat.iter_pos shr_1 p (Build_shr_record (m * 2 ^ Zpos p) false false)
  = Build_shr_record m false false.
Proof.
  intros m Hm. rewrite iter_pos_Pos_iter. revert m Hm.
  induction p as [|p IH] using Pos.peano_ind; intros m Hm.
  - cbn [Pos.iter]. rewrite Z.pow_1_r, Z.mul_comm. apply shr_1_even. assumption.
  - rewrite Pos.iter_succ, Pos2Z.inj_succ, Z.pow_succ_r by lia.
    replace (m * (2 * 2 ^ Zpos p)) with ((2 * m) * 2 ^ Zpos p) by ring.
    rewrite IH by lia. apply shr_1_even. assumption.
Qed.

Section Exact.
Variables prec emax : Z.

Lemma bounded_canonical m e :
  bounded prec emax m e = true ->
  SpecFloat.fexp prec emax (Zpos (digits2_pos m) + e) = e /\ e <= emax - prec.
Proof.
  unfold bounded, canonical_mantissa. intros H. apply andb_true_iff in H as [Hc Hb].
  apply Z.eqb_eq in Hc. apply Z.leb_le in Hb. auto.
Qed.

Lemma binary_round_aux_canonical s m e :
  bounded prec emax m e = true ->
  binary_round_aux prec emax s (Zpos m) e loc_Exact = S754_finite s m e.
Proof.
  intros Hb. apply bounded_canonical in Hb as [Hc Hle].
  unfold binary_round_aux, shr_fexp. cbn [Zdigits2 shr_record_of_loc].
  rewrite Hc, Z.sub_diag. cbn [shr loc_of_shr_record round_nearest_even shr_m Zdigits2].
  rewrite Hc, Z.sub_diag. cbn [shr shr_m].
  rewrite (proj2 (Z.leb_le _ _) Hle). reflexivity.
Qed.

Lemma digits2_pos_shift m k :
  0 <= k -> Zdigits2 (Zpos m * 2 ^ k) = Zpos (digits2_pos m) + k.
Proof.
  intros Hk. pose proof (digits2_pos_bounds m) as [Hlo Hhi].
  assert (0 < 2 ^ k) by (apply Z.pow_pos_nonneg; lia).
  apply Zdigits2_unique; [lia|].
  replace (Zpos (digits2_pos m) + k - 1) with ((Zpos (digits2_pos m) - 1) + k) by lia.
  rewrite !Z.pow_add_r by lia. split; nia.
Qed.

(** The input denotes the canonical [mc * 2^ec]: its mantissa is a shift of
    [mc] one way or the other. *)
Lemma binary_round_exact s mi ei mc ec :
  bounded prec emax mc ec = true ->
  (ec <= ei /\ Zpos mc = Zpos mi * 2 ^ (ei - ec))
  \/ (ei <= ec /\ Zpos mi = Zpos mc * 2 ^ (ec - ei)) ->
  binary_round prec emax s mi ei = S754_finite s mc ec.
Proof.
  intros Hb Hval. pose proof (bounded_canonical _ _ Hb) as [Hc Hle].
  unfold binary_round, shl_align.
  destruct Hval as [[He Hm]|[He Hm]].
  - (* the input is shifted left to the canonical exponent *)
    assert (Hd : Zpos (digits2_pos mc) = Zpos (digits2_pos mi) + (ei - ec)).
    { change (Zpos (digits2_pos mc)) with (Zdigits2 (Zpos mc)). rewrite Hm.
      apply digits2_pos_shift. lia. }
    assert (Hf : SpecFloat.fexp prec emax (Zpos (digits2_pos mi) + ei) = ec).
    { rewrite <- Hc at 1. f_equal. lia. }
    rewrite Hf.
    destruct (ec - ei) as [|d|d] eqn:Ed; try lia.
    + assert (ei = ec) by lia. subst ei. rewrite Z.sub_diag, Z.pow_0_r, Z.mul_1_r in Hm.
      injection Hm as <-. apply binary_round_aux_canonical. assumption.
    + assert (Hk : ei - ec = Zpos d) by lia.
      assert (Pos.iter xO mi d = mc) as ->.
      { apply Pos2Z.inj. rewrite iter_xO_mul, Hm, Hk. reflexivity. }
      apply binary_round_aux_canonical. assumption.
  - (* the input is shifted right, exactly, to the canonical exponent *)
    assert (Hd : Zpos (digits2_pos mi) = Zpos (digits2_pos mc) + (ec - ei)).
    { change (Zpos (digits2_pos mi)) with (Zdigits2 (Zpos mi)). rewrite Hm.
      apply digits2_pos_shift. lia. }
    assert (Hf : SpecFloat.fexp prec emax (Zpos (digits2_pos mi) + ei) = ec).
    { rewrite <- Hc at 1. f_equal. lia. }
    rewrite Hf.
    destruct (ec - ei) as [|d|d] eqn:Ed; try lia.
    + assert (ei = ec) by lia. subst ei. rewrite Z.pow_0_r, Z.mul_1_r in Hm.
      injection Hm as ->. apply binary_round_aux_canonical. assumption.
    + unfold binary_round_aux at 1. unfold shr_fexp at 1.
      cbn [Zdigits2 shr_record_of_loc]. rewrite Hf, Ed. cbn [shr].
      rewrite Hm. rewrite iter_shr_1_exact by lia.
      cbn [loc_of_shr_record round_nearest_even shr_m].
      replace (ei + Zpos d) with ec by lia.
      unfold shr_fexp. cbn [Zdigits2 shr_record_of_loc].
      rewrite Hc, Z.sub_diag. cbn [shr shr_m].
      rewrite (proj2 (Z.leb_le _ _) Hle). reflexivity.
Qed.

End Exact.

(** ** Widening a float32 and casting it back *)

Lemma f32_to_f64_finite s m e :
  valid_binary 24 128 (S754_finite s m e) = true ->
  exists M E,
    F32.to_f64 (S754_finite s m e) = S754_finite s M E
    /\ E <= e /\ Zpos M = Zpos m * 2 ^ (e - E).
Proof.
  intros Hv. pose proof (valid_binary32_finite s m e Hv) as (Hm & He & _).
  pose proof (digits2_pos_bounds m) as [Hlo Hhi].
  set (d := Zpos (digits2_pos m)) in *.
  assert (Hd : d <= 24).
  { destruct (Z_le_gt_dec d 24); [assumption|].
    assert (2 ^ 24 <= 2 ^ (d - 1)) by (apply Z.pow_le_mono_r; lia). lia. }
  set (k := 53 - d).
  assert (Hk : k = 53 - d) by reflexivity. clearbody k.
  assert (Hp : 0 < Zpos m * 2 ^ k) by (assert (0 < 2 ^ k) by (apply Z.pow_pos_nonneg; lia); lia).
  exists (Z.to_pos (Zpos m * 2 ^ k)), (e - k).
  assert (HM : Zpos (Z.to_pos (Zpos m * 2 ^ k)) = Zpos m * 2 ^ k) by (apply Z2Pos.id; lia).
  split; [|split; [lia|rewrite HM; f_equal; f_equal; lia]].
  cbn [F32.to_f64]. apply binary_round_exact.
  - unfold bounded, canonical_mantissa.
    change (Zpos (digits2_pos (Z.to_pos (Zpos m * 2 ^ k))))
      with (Zdigits2 (Zpos (Z.to_pos (Zpos m * 2 ^ k)))).
    rewrite HM, digits2_pos_shift by lia. fold d.
    apply andb_true_iff. split; [apply Z.eqb_eq|apply Z.leb_le].
    + unfold SpecFloat.fexp, SpecFloat.emin. lia.
    + lia.
  - left. split; [lia|]. rewrite HM. f_equal. f_equal. lia.
Qed.

(** A float32, widened to a double and cast back, is itself. *)
Lemma f32_of_f64_to_f64 x :
  valid_binary 24 128 x = true -> F32.of_f64 (F32.to_f64 x) = x.
Proof.
  intros Hv. destruct x as [s|s| |s m e]; try reflexivity.
  destruct (f32_to_f64_finite s m e Hv) as (M & E & -> & HE & HM).
  cbn [F32.of_f64]. apply binary_round_exact; [exact Hv|].
  right. split; assumption.
Qed.

Lemma f32_to_f64_no_overflow x :
  valid_binary 24 128 x = true -> F32.overflows (F32.to_f64 x) = false.
Proof.
  intros Hv. pose proof (f32_of_f64_to_f64 x Hv) as Hx.
  destruct x as [s|s| |s m e]; try reflexivity.
  destruct (f32_to_f64_finite s m e Hv) as (M & E & HM & _).
  rewrite HM in *. unfold F32.overflows. rewrite Hx. reflexivity.
Qed.

(** ** Every 32-bit word is the pattern of a float32 *)

Lemma word32_fields w :
  0 <= w < 2 ^ 32 ->
  exists s E M,
    w = F32.sign_bit s + E * 2 ^ 23 + M /\ 0 <= E < 256 /\ 0 <= M < 2 ^ 23.
Proof.
  intros Hw. change (2 ^ 32) with 4294967296 in Hw.
  exists (2 ^ 31 <=? w), ((w / 2 ^ 23) mod 256), (w mod 2 ^ 23).
  change (2 ^ 23) with 8388608. change (2 ^ 31) with 2147483648.
  pose proof (Z.mod_pos_bound w 8388608 ltac:(lia)).
  pose proof (Z.mod_pos_bound (w / 8388608) 256 ltac:(lia)).
  pose proof (Z.div_mod w 8388608 ltac:(lia)).
  pose proof (Z.div_mod (w / 8388608) 256 ltac:(lia)).
  assert (0 <= w / 8388608 < 512)
    by (split; [apply Z.div_pos; lia|apply Z.div_lt_upper_bound; lia]).
  split; [|lia]. unfold F32.sign_bit. change (2 ^ 31) with 2147483648.
  destruct (Z.leb_spec 2147483648 w) as [Hs|Hs].
  - assert (w / 8388608 / 256 = 1); [|lia].
    assert (256 <= w / 8388608) by (apply Z.div_le_lower_bound; lia).
    symmetry. apply Z.div_unique with (r := w / 8388608 - 256); lia.
  - assert (w / 8388608 / 256 = 0); [|lia].
    apply Z.div_small. split; [lia|]. apply Z.div_lt_upper_bound; lia.
Qed.

Lemma f32_of_bits_fields s E M :
  0 <= E < 256 -> 0 <= M < 2 ^ 23 ->
  F32.of_bits (F32.sign_bit s + E * 2 ^ 23 + M)
  = if E =? 0 then
      match M with
      | Zpos p => S754_finite s p (-149)
      | _ => S754_zero s
      end
    else if E =? 255 then
      if M =? 0 then S754_infinity s else S754_nan
    else
      match M + 2 ^ 23 with
      | Zpos p => S754_finite s p (E - 150)
      | _ => S754_nan
      end.
Proof.
  intros HE HM. destruct (f32_word_fields s E M HE HM) as (Hs & He & Hm).
  cbv zeta in Hs, He, Hm. unfold F32.of_bits. rewrite Hs, He, Hm. reflexivity.
Qed.

Lemma f32_of_bits_valid w :
  0 <= w < 2 ^ 32 -> valid_binary 24 128 (F32.of_bits w) = true.
Proof.
  intros Hw. destruct (word32_fields w Hw) as (s & E & M & -> & HE & HM).
  rewrite f32_of_bits_fields by assumption.
  destruct (Z.eqb_spec E 0) as [E0|N0].
  - destruct M as [|p|p]; try reflexivity.
    cbn [valid_binary]. unfold bounded, canonical_mantissa.
    pose proof (digits2_pos_bounds p) as [Hlo Hhi].
    assert (Zpos (digits2_pos p) <= 23).
    { destruct (Z_le_gt_dec (Zpos (digits2_pos p)) 23); [assumption|].
      assert (2 ^ 23 <= 2 ^ (Zpos (digits2_pos p) - 1)) by (apply Z.pow_le_mono_r; lia). lia. }
    apply andb_true_iff. split; [apply Z.eqb_eq|apply Z.leb_le; lia].
    unfold SpecFloat.fexp, SpecFloat.emin. lia.
  - destruct (Z.eqb_spec E 255); [destruct (M =? 0); reflexivity|].
    destruct (M + 2 ^ 23) as [|p|p] eqn:Ep; try reflexivity.
    cbn [valid_binary]. unfold bounded, canonical_mantissa.
    assert (Hd : Zpos (digits2_pos p) = 24).
    { change (Zpos (digits2_pos p)) with (Zdigits2 (Zpos p)).
      apply Zdigits2_unique; [lia|]. rewrite <- Ep.
      change (2 ^ (24 - 1)) with (2 ^ 23). change (2 ^ 24) with (2 * 2 ^ 23). lia. }
    rewrite Hd. apply andb_true_iff. split; [apply Z.eqb_eq|apply Z.leb_le; lia].
    unfold SpecFloat.fexp, SpecFloat.emin. lia.
Qed.

(** The pattern of the float a word denotes is the word, short of NaN. *)
Lemma f32_bits_of_bits w :
  0 <= w < 2 ^ 32 -> F32.of_bits w <> S754_nan -> F32.bits (F32.of_bits w) = w.
Proof.
  intros Hw. destruct (word32_fields w Hw) as (s & E & M & -> & HE & HM).
  rewrite f32_of_bits_fields by assumption.
  destruct (Z.eqb_spec E 0) as [E0|N0].
  - subst E. destruct M as [|p|p]; cbn [F32.bits]; intros _; lia.
  - destruct (Z.eqb_spec E 255) as [E255|N255].
    + destruct (Z.eqb_spec M 0); [|congruence]. subst. intros _. cbn [F32.bits].
      change 0x7F800000 with (255 * 2 ^ 23). lia.
    + destruct (M + 2 ^ 23) as [|p|p] eqn:Ep; try congruence.
      intros _. cbn [F32.bits]. rewrite <- Ep. lia.
Qed.

(** ** Writing a decoded value back *)

Lemma le_bytes_le_word bs : Struct.le_bytes (length bs) (Struct.le_word bs) = bs.
Proof.
  induction bs as [|b t IH]; [reflexivity|].
  cbn [length Struct.le_bytes Struct.le_word].
  pose proof (Z_of_byte_range b) as Hb.
  assert (Hq : (Struct.Z_of_byte b + 256 * Struct.le_word t) / 256 = Struct.le_word t).
  { symmetry. apply Z.div_unique with (r := Struct.Z_of_byte b); lia. }
  assert (Hr : Struct.byte_of_Z (Struct.Z_of_byte b + 256 * Struct.le_word t) = b).
  { rewrite <- (byte_of_Z_of_byte b) at 2. unfold Struct.byte_of_Z.
    replace ((Struct.Z_of_byte b + 256 * Struct.le_word t) mod 256)
      with (Struct.Z_of_byte b mod 256); [reflexivity|].
    rewrite (Z.mul_comm 256), Z.mod_add by lia. reflexivity. }
  rewrite Hq, Hr, IH. reflexivity.
Qed.

Lemma le_bytes_le_word_len n bs :
  len bs = Z.of_nat n -> Struct.le_bytes n (Struct.le_word bs) = bs.
Proof.
  unfold len. intros H. replace n with (length bs) by lia. apply le_bytes_le_word.
Qed.

(** The bytes packed for a value that was decoded from [raw]. *)
Lemma packed_bytes_of_decoded scalar raw :
  len raw = width scalar ->
  let v := Struct.decode (fst (_FMT scalar)) (Struct.le_word raw) in
  match scalar with
  | K_float => v <> Float S754_nan -> packed_bytes scalar v = Ok raw
  | K_int32 => packed_bytes scalar v = Ok raw \/ packed_bytes scalar v = Raise StructError
  | K_uint32 | K_uint8 => packed_bytes scalar v = Ok raw
  | K_bool32 => True
  end.
Proof.
  intros Hl v. subst v. pose proof (le_word_range raw) as Hw. rewrite Hl in Hw.
  destruct scalar; cbn [_FMT fst snd width Struct.decode] in *.
  - change (8 * 4) with 32 in Hw. intros Hnan.
    set (w := Struct.le_word raw) in *.
    pose proof (f32_of_bits_valid w Hw) as Hv.
    assert (Hn : F32.of_bits w <> S754_nan).
    { intros E. apply Hnan. rewrite E. reflexivity. }
    unfold packed_bytes. cbn [Py.float bind Struct.pack].
    rewrite f32_to_f64_no_overflow, f32_of_f64_to_f64, f32_bits_of_bits by assumption.
    f_equal. apply le_bytes_le_word_len. exact Hl.
  - change (8 * 4) with 32 in Hw. change (2 ^ 32) with 4294967296 in *.
    change (2 ^ 31) with 2147483648.
    set (w := Struct.le_word raw) in *.
    destruct (Z.ltb_spec w 2147483648) as [Hlt|Hge]; rewrite packed_bytes_int32;
      unfold int32_packs; change (2 ^ 32) with 4294967296; change (2 ^ 31) with 2147483648.
    + rewrite Z.mod_small by lia. rewrite (proj2 (Z.ltb_lt _ _) Hlt).
      left. f_equal. apply le_bytes_le_word_len. exact Hl.
    + assert (Hm : (w - 4294967296) mod 4294967296 = w)
        by (symmetry; apply Z.mod_unique with (q := -1); lia).
      rewrite Hm. rewrite (proj2 (Z.ltb_ge _ _) Hge). right. reflexivity.
  - change (8 * 4) with 32 in Hw.
    unfold packed_bytes. cbn [Py.int bind Struct.pack].
    rewrite Z.mod_small by lia.
    rewrite (proj2 (Z.leb_le 0 _)), (proj2 (Z.leb_le _ (2 ^ 32 - 1))) by lia. cbn [andb].
    f_equal. apply le_bytes_le_word_len. exact Hl.
  - exact I.
  - change (8 * 1) with 8 in Hw.
    unfold packed_bytes. cbn [Py.int bind Struct.pack].
    rewrite Z.mod_small by lia. change (2 ^ 8) with 256 in Hw.
    rewrite (proj2 (Z.leb_le 0 _)), (proj2 (Z.leb_le _ 255)) by lia. cbn [andb].
    f_equal. apply le_bytes_le_word_len. exact Hl.
Qed.


(** X5.  Writing a decoded value back where it was read: for every kind
    but ["bool32"] the buffer is left byte for byte as it was (for
    ["float"] short of a NaN), the encode returning the raw bytes that were
    read for ["uint8"], ["uint32"] and ["float"]; and in every case,
    ["bool32"] included, a second decode returns the same value. *)
Theorem write_back_decoded buf off scalar v raw :
  read_scalar buf off scalar = Ok (v, raw) ->
  v <> Float S754_nan ->
  (scalar <> K_bool32 -> fst (write_scalar buf off scalar v) = buf)
  /\ (scalar = K_uint8 \/ scalar = K_uint32 \/ scalar = K_float ->
      snd (write_scalar buf off scalar v) = Ok raw)
  /\ (exists raw', read_scalar (fst (write_scalar buf off scalar v)) off scalar = Ok (v, raw')).
Proof.
  intros Hread Hnan.
  destruct (read_scalar_Ok_bounds _ _ _ _ Hread) as [Ho Hb]. pose proof (width_pos scalar) as Hw.
  pose proof Hread as Hread'.
  rewrite read_scalar_in_range in Hread by lia. cbv zeta in Hread.
  assert (Hl : len (slice buf off (off + width scalar)) = width scalar)
    by (apply len_slice; lia).
  pose proof (packed_bytes_of_decoded scalar _ Hl) as Hp. cbv zeta in Hp.
  set (sl := slice buf off (off + width scalar)) in *.
  rewrite write_scalar_in_range by assumption.
  assert (Hsame : slice_assign buf off (off + width scalar) sl = buf)
    by (apply slice_assign_slice_same; lia).
  destruct scalar; try (apply Ok_inj in Hread; apply pair_equal_spec in Hread as [<- <-]).
  - rewrite (Hp Hnan). cbn [fst snd]. rewrite Hsame. split; [auto|]. split; [auto|]. eauto.
  - destruct Hp as [-> | ->]; cbn [fst snd]; rewrite ?Hsame;
      (split; [auto|]); (split; [intros [|[|]]; discriminate|]); eauto.
  - rewrite Hp. cbn [fst snd]. rewrite Hsame. split; [auto|]. split; [auto|]. eauto.
  - split; [congruence|]. split; [intros [|[|]]; discriminate|].
    cbn [_FMT fst Struct.decode Py.int bind].
    set (b := if Struct.le_word sl =? 0 then 0 else 1).
    assert (Hb01 : b = 0 \/ b = 1) by (unfold b; destruct (_ =? 0); auto).
    assert (Hpk : packed_bytes K_bool32 (Int b) = Ok (Struct.le_bytes 4 b)).
    { unfold packed_bytes. cbn [Py.int bind Struct.pack].
      destruct Hb01 as [-> | ->]; reflexivity. }
    rewrite Hpk. cbn [fst].
    assert (Hlp : len (Struct.le_bytes 4 b) = width K_bool32)
      by (unfold len; rewrite length_le_bytes; reflexivity).
    rewrite read_scalar_in_range by (rewrite ?len_slice_assign by assumption; assumption).
    cbv zeta. rewrite slice_slice_assign by assumption.
    cbn [_FMT fst Struct.decode Py.int bind]. rewrite le_word_le_bytes.
    change (2 ^ (8 * Z.of_nat 4)) with (2 ^ 32).
    exists (Struct.le_bytes 4 b). destruct Hb01 as [-> | ->]; reflexivity.
  - rewrite Hp. cbn [fst snd]. rewrite Hsame. split; [auto|]. split; [auto|]. eauto.
Qed.

Lemma write_back_decoded_witness :
  read_scalar [x00; x00; xf1; x42] 0 K_float
  = Ok (Float (S754_finite false 8479433673408512 (-46)), [x00; x00; xf1; x42])
  /\ snd (write_scalar [x00; x00; xf1; x42] 0 K_float
            (Float (S754_finite false 8479433673408512 (-46))))
     = Ok [x00; x00; xf1; x42].
Proof.
  split; [vm_compute; reflexivity|].
  apply (write_back_decoded [x00; x00; xf1; x42] 0 K_float
           (Float (S754_finite false 8479433673408512 (-46))) [x00; x00; xf1; x42]);
    [vm_compute; reflexivity|discriminate|auto].
Defined.

(** ** Further properties of the parser *)

Lemma decodes_in_range blob d : decodes blob d = in_range blob d.
Proof.
  unfold decodes, in_range.
  destruct (Z.leb_spec 0 (offset d)) as [Ho|Ho];
    [destruct (Z.leb_spec (offset d + width (scalar d)) (len blob)) as [Hb|Hb]|].
  - rewrite read_scalar_in_range by lia. cbv zeta. destruct (scalar d); reflexivity.
  - rewrite read_scalar_out_of_range by lia. reflexivity.
  - rewrite read_scalar_out_of_range by lia. reflexivity.
Qed.

Lemma filter_ext_in_bool {A} (f g : A -> bool) l :
  (forall x, In x l -> f x = g x) -> List.filter f l = List.filter g l.
Proof.
  induction l as [|x t IH]; intros H; cbn [List.filter]; [reflexivity|].
  rewrite (H x (or_introl eq_refl)), IH; [reflexivity|].
  intros y Hy. apply H. right. assumption.
Qed.

(** X6.  [parse_mrdf] omits exactly the definitions whose bytes do not lie
    within the buffer: its instances are those of the definitions in
    range, so that all definitions appear when all are in range and none
    on an empty buffer. *)
Theorem parse_mrdf_omits_out_of_range blob defs :
  Permutation (map definition (parse_mrdf blob defs)) (List.filter (in_range blob) defs)
  /\ (forallb (in_range blob) defs = true ->
      length (parse_mrdf blob defs) = length defs)
  /\ parse_mrdf [] defs = [].
Proof.
  assert (Hperm : Permutation (map definition (parse_mrdf blob defs))
                              (List.filter (in_range blob) defs)).
  { unfold parse_mrdf. rewrite (filter_ext_in_bool (in_range blob) (decodes blob))
      by (intros; symmetry; apply decodes_in_range).
    rewrite <- decode_defs_definitions. apply Permutation_map, sort_by_key_perm. }
  split; [exact Hperm|]. split.
  - intros Hall. apply Permutation_length in Hperm. rewrite length_map in Hperm.
    rewrite Hperm. f_equal. clear Hperm.
    induction defs as [|d t IH]; [reflexivity|]. cbn [forallb List.filter] in *.
    apply andb_true_iff in Hall as [Hd Ht]. rewrite Hd, IH by assumption. reflexivity.
  - clear Hperm. unfold parse_mrdf.
    assert (Hnil : decode_defs [] defs = []); [|rewrite Hnil; reflexivity].
    induction defs as [|d t IH]; [reflexivity|]. cbn [decode_defs].
    pose proof (width_pos (scalar d)).
    rewrite read_scalar_out_of_range; [exact IH|].
    unfold len. cbn [length]. lia.
Qed.

Lemma parse_mrdf_omits_out_of_range_witness :
  forallb (in_range (repeat x00 0xC8)) STATS_MRDF_DEFS = true
  /\ length (parse_mrdf (repeat x00 0xC8) STATS_MRDF_DEFS) = length STATS_MRDF_DEFS.
Proof.
  split; [vm_compute; reflexivity|].
  apply (parse_mrdf_omits_out_of_range (repeat x00 0xC8) STATS_MRDF_DEFS).
  vm_compute. reflexivity.
Defined.

Lemma parse_mrdf_In blob defs i :
  In i (parse_mrdf blob defs) <-> In i (decode_defs blob defs).
Proof.
  unfold parse_mrdf. split; apply Permutation_in;
    [apply sort_by_key_perm|symmetry; apply sort_by_key_perm].
Qed.

Lemma decode_defs_In blob defs i :
  In i (decode_defs blob defs) -> In (definition i) defs /\ instance_of blob i.
Proof.
  induction defs as [|d rest IH]; cbn [decode_defs]; [intros []|].
  destruct (read_scalar blob (offset d) (scalar d)) as [[v r]|e] eqn:E.
  - intros [<-|Hi].
    + split; [left; reflexivity|]. split; [reflexivity|exact E].
    + destruct (IH Hi). split; [right|]; assumption.
  - intros Hi. destruct (IH Hi). split; [right|]; assumption.
Qed.

(** X7.  Every instance that [parse_mrdf] returns is an instance of one of
    the definitions, at the definition's offset and within the buffer; its
    raw bytes are the [width] bytes of the buffer at the offset, and its
    value is of the definition's kind. *)
Theorem parse_mrdf_instance blob defs i :
  In i (parse_mrdf blob defs) ->
  In (definition i) defs
  /\ inst_offset i = offset (definition i)
  /\ 0 <= inst_offset i
  /\ inst_offset i + width (scalar (definition i)) <= len blob
  /\ raw i = slice blob (inst_offset i) (inst_offset i + width (scalar (definition i)))
  /\ len (raw i) = width (scalar (definition i))
  /\ value_of_kind (scalar (definition i)) (value i).
Proof.
  intros Hi. apply parse_mrdf_In, decode_defs_In in Hi as [Hd [Ho Hr]].
  destruct (read_scalar_raw _ _ _ _ _ Hr) as [Hraw Hlen].
  pose proof (read_scalar_value_of_kind _ _ _ _ _ Hr) as Hv.
  pose proof (read_scalar_Ok_bounds _ _ _ _ Hr) as Hin.
  rewrite Ho. tauto.
Qed.

Lemma parse_mrdf_instance_witness :
  In gear_inst (parse_mrdf blob48 STATS_MRDF_DEFS)
  /\ len (raw gear_inst) = width (scalar (definition gear_inst)).
Proof.
  assert (H : In gear_inst (parse_mrdf blob48 STATS_MRDF_DEFS)) by (vm_compute; tauto).
  split; [exact H|].
  apply (parse_mrdf_instance blob48 STATS_MRDF_DEFS gear_inst H).
Defined.

(** X8.  The sort of [parse_mrdf] is stable: the instances of one
    (section, offset) key are in the order of their definitions in the
    table. *)
Theorem parse_mrdf_stable blob defs k :
  map definition (List.filter (fun i => bool_decide (sort_key i = k)) (parse_mrdf blob defs))
  = List.filter (fun d => bool_decide ((section d, offset d) = k) && decodes blob d) defs.
Proof.
  unfold parse_mrdf. rewrite sort_by_key_stable.
  induction defs as [|d rest IH]; cbn [decode_defs List.filter map]; [reflexivity|].
  unfold decodes at 1.
  destruct (read_scalar blob (offset d) (scalar d)) as [[v r]|e].
  - cbn [List.filter]. unfold sort_key at 1. cbn [definition inst_offset].
    destruct (bool_decide ((section d, offset d) = k)); cbn [andb map]; rewrite IH; reflexivity.
  - rewrite andb_false_r. exact IH.
Qed.

(** ** An edit stays within its field *)

Lemma key_lt_not_le (x z : MrdfFieldInstance) :
  key_lt (sort_key z) (sort_key x) = true -> section_offset_le x z -> False.
Proof.
  unfold key_lt, sort_key, section_offset_le. cbn [fst snd].
  rewrite string_ltb_compare, (String.compare_antisym (section (definition z))).
  destruct (String.compare (section (definition x)) (section (definition z))) eqn:E;
    cbn [CompOpp]; try discriminate.
  - intros H [Hlt|[_ Hle]]; [discriminate|]. apply Z.ltb_lt in H. lia.
  - intros _ [Hlt|[Heq _]]; [discriminate|].
    rewrite Heq, string_compare_refl in E. discriminate.
Qed.

Lemma insert_by_key_front x l :
  Forall (section_offset_le x) l -> insert_by_key x l = x :: l.
Proof.
  destruct l as [|y t]; [reflexivity|]. intros H. inversion H as [|? ? Hy _]; subst.
  cbn [insert_by_key].
  destruct (key_lt (sort_key y) (sort_key x)) eqn:E; [|reflexivity].
  exfalso. eapply key_lt_not_le; eassumption.
Qed.

Lemma filter_insert_by_key (p : MrdfFieldInstance -> bool) x l :
  StronglySorted section_offset_le l ->
  List.filter p (insert_by_key x l)
  = if p x then insert_by_key x (List.filter p l) else List.filter p l.
Proof.
  induction l as [|y t IH]; intros Hs.
  - cbn. destruct (p x); reflexivity.
  - inversion Hs as [|? ? Ht Hall]; subst. cbn [insert_by_key].
    destruct (key_lt (sort_key y) (sort_key x)) eqn:E.
    + cbn [List.filter]. rewrite (IH Ht).
      destruct (p x), (p y); try reflexivity.
      cbn [insert_by_key]. rewrite E. reflexivity.
    + cbn [List.filter]. destruct (p x) eqn:Ex; [|reflexivity].
      symmetry. apply insert_by_key_front.
      apply key_lt_false_le in E.
      assert (Hxl : Forall (section_offset_le x) (y :: t)).
      { constructor; [assumption|].
        eapply List.Forall_impl; [|exact Hall]. intros z Hz.
        eapply section_offset_le_trans; eassumption. }
      apply List.Forall_forall. intros z Hz.
      apply (proj1 (List.Forall_forall _ _) Hxl).
      change (In z (List.filter p (y :: t))) in Hz.
      apply List.filter_In in Hz. tauto.
Qed.

Lemma sort_by_key_strongly_sorted l :
  StronglySorted section_offset_le (sort_by_key l).
Proof.
  apply Sorted_StronglySorted; [exact section_offset_le_trans|apply sort_by_key_sorted].
Qed.

(** Filtering commutes with the sort. *)
Lemma filter_sort_by_key (p : MrdfFieldInstance -> bool) l :
  List.filter p (sort_by_key l) = sort_by_key (List.filter p l).
Proof.
  induction l as [|x t IH]; [reflexivity|]. cbn [sort_by_key List.filter].
  rewrite filter_insert_by_key by apply sort_by_key_strongly_sorted.
  rewrite IH. destruct (p x); reflexivity.
Qed.

(** The instances away from a range depend only on the bytes outside
    it. *)
Lemma decode_defs_same_outside off n l l' defs :
  same_outside off n l' l ->
  List.filter (away_from off n) (decode_defs l' defs)
  = List.filter (away_from off n) (decode_defs l defs).
Proof.
  intros Hs. induction defs as [|d rest IH]; [reflexivity|]. cbn [decode_defs].
  destruct (Z.leb_spec (off + n) (offset d)) as [H1|H1];
    [|destruct (Z.leb_spec (offset d + width (scalar d)) off) as [H2|H2]].
  - rewrite (read_scalar_same_outside off n l l') by (assumption || (left; assumption)).
    destruct (read_scalar l (offset d) (scalar d)) as [[w r]|e]; [|exact IH].
    cbn [List.filter]. rewrite IH. reflexivity.
  - rewrite (read_scalar_same_outside off n l l') by (assumption || (right; assumption)).
    destruct (read_scalar l (offset d) (scalar d)) as [[w r]|e]; [|exact IH].
    cbn [List.filter]. rewrite IH. reflexivity.
  - assert (Hf : forall w r,
               away_from off n
                 {| definition := d; inst_offset := offset d; raw := r; value := w |} = false).
    { intros w r. unfold away_from. cbn [inst_offset definition].
      apply orb_false_iff. split; apply Z.leb_gt; assumption. }
    destruct (read_scalar l' (offset d) (scalar d)) as [[w r]|e];
      destruct (read_scalar l (offset d) (scalar d)) as [[w' r']|e'];
      cbn [List.filter]; rewrite ?Hf; exact IH.
Qed.

Lemma parse_mrdf_same_outside off n l l' defs :
  same_outside off n l' l ->
  List.filter (away_from off n) (parse_mrdf l' defs)
  = List.filter (away_from off n) (parse_mrdf l defs).
Proof.
  intros Hs. unfold parse_mrdf.
  rewrite !filter_sort_by_key, (decode_defs_same_outside off n l l') by assumption.
  reflexivity.
Qed.

Lemma parse_mrdf_after_write buf off k v defs :
  List.filter (away_from off (width k))
    (parse_mrdf (fst (write_scalar buf off k v)) defs)
  = List.filter (away_from off (width k)) (parse_mrdf buf defs).
Proof. apply parse_mrdf_same_outside, write_scalar_same_outside. Qed.

Lemma pairwise_disjoint_away defs d d' :
  pairwise_disjoint defs = true -> In d defs -> In d' defs ->
  offset d' <> offset d ->
  (offset d + width (scalar d) <=? offset d')
  || (offset d' + width (scalar d') <=? offset d) = true.
Proof.
  induction defs as [|x rest IH]; [intros _ []|].
  cbn [pairwise_disjoint]. intros H. apply andb_true_iff in H as [Hx Hrest].
  rewrite List.forallb_forall in Hx.
  intros [<-|Hd] [<-|Hd'] Hne.
  - congruence.
  - apply Hx. assumption.
  - rewrite orb_comm. apply Hx. assumption.
  - apply IH; assumption.
Qed.

Lemma shipped_tables_disjoint :
  Forall (fun p => pairwise_disjoint (defs p) = true) PROFILES.
Proof. repeat constructor. Qed.

Section EditLocality.

Variable float_of_str : string -> result spec_float.

(** X9.  An applied edit changes no field but its own: with a field
    selected in a loaded state, the instances after [apply_edit], read
    away from the bytes of the selected field, are those of a parse of the
    buffer as it was before.  In a registered profile, whose fields do not
    overlap, that is every instance at another offset. *)
Theorem apply_edit_other_fields ui st inst work :
  _selected ui = Some inst ->
  working_blob st = Some work ->
  let d := definition inst in
  let st' := fst (apply_edit float_of_str ui st) in
  snd (apply_edit float_of_str ui st) = Applied ->
  List.filter (away_from (offset d) (width (scalar d))) (instances st')
  = List.filter (away_from (offset d) (width (scalar d)))
      (parse_mrdf work (defs (profile st)))
  /\ (In (profile st) PROFILES -> In d (defs (profile st)) ->
      forall i, In i (instances st') -> inst_offset i <> offset d ->
                In i (parse_mrdf work (defs (profile st)))).
Proof.
  intros Hsel Hwork d st' Happ. subst st'.
  assert (Hinst : instances (fst (apply_edit float_of_str ui st))
                  = parse_mrdf (fst (write_scalar work (offset d) (scalar d)
                                       (match new_value float_of_str ui d with
                                        | Ok v => v
                                        | Raise _ => Int 0
                                        end)))
                      (defs (profile st))).
  { unfold apply_edit in *. rewrite Hsel, Hwork in *. fold d in Happ |- *.
    destruct (new_value float_of_str ui d) as [v|e]; [|discriminate].
    destruct (write_scalar work (offset d) (scalar d) v) as [out [packed|e]];
      [|discriminate].
    reflexivity. }
  rewrite Hinst. split; [apply parse_mrdf_after_write|].
  intros Hp Hd i Hi Hne.
  assert (Hdisj : pairwise_disjoint (defs (profile st)) = true)
    by (apply (proj1 (List.Forall_forall _ _) shipped_tables_disjoint); assumption).
  pose proof Hi as Hi'. apply parse_mrdf_In, decode_defs_In in Hi' as [Hdi [Hoi _]].
  assert (Haway : away_from (offset d) (width (scalar d)) i = true).
  { unfold away_from. rewrite Hoi.
    apply (pairwise_disjoint_away (defs (profile st))); try assumption. congruence. }
  assert (Hf : In i (List.filter (away_from (offset d) (width (scalar d))) _))
    by (apply List.filter_In; split; [exact Hi|exact Haway]).
  rewrite parse_mrdf_after_write in Hf.
  apply List.filter_In in Hf. tauto.
Qed.

End EditLocality.

Lemma apply_edit_other_fields_witness :
  let ui := widgets gear_inst "3" EmptyString in
  let d := definition gear_inst in
  snd (apply_edit decimal_float_of_str ui opened48) = Applied
  /\ List.filter (away_from (offset d) (width (scalar d)))
       (instances (fst (apply_edit decimal_float_of_str ui opened48)))
     = List.filter (away_from (offset d) (width (scalar d)))
         (parse_mrdf blob48 (defs (profile opened48))).
Proof.
  intros ui d.
  assert (Happ : snd (apply_edit decimal_float_of_str ui opened48) = Applied)
    by (vm_compute; reflexivity).
  split; [exact Happ|].
  exact (proj1 (apply_edit_other_fields decimal_float_of_str ui opened48 gear_inst blob48
                  eq_refl eq_refl Happ)).
Defined.

(** ** The editor: lengths, the snapshot and the view *)

Section MoreSlices.
Context {A : Type}.
Implicit Types l x : list A.

Lemma slice_index_bounds n i : 0 <= n -> 0 <= slice_index n i <= n.
Proof. unfold slice_index. destruct (Z.ltb_spec i 0); lia. Qed.

(** A slice assignment from the same range of a list of the same length
    keeps the length, whatever the range. *)
Lemma len_slice_assign_slice l l' a b :
  len l' = len l -> len (slice_assign l a b (slice l' a b)) = len l.
Proof.
  intros Hl. unfold slice_assign, slice. rewrite Hl.
  pose proof (len_nonneg l) as Hn.
  pose proof (slice_index_bounds (len l) a Hn) as Ha.
  pose proof (slice_index_bounds (len l) b Hn) as Hb.
  set (a' := slice_index (len l) a) in *. set (b' := slice_index (len l) b) in *.
  unfold len in *.
  rewrite !length_app, length_take, length_take, !length_drop. lia.
Qed.

(** The length after [l[a:a+n] = x] with [a] not negative. *)
Lemma len_slice_assign_any l a n x :
  0 <= a -> 0 <= n -> len x = n ->
  len (slice_assign l a (a + n) x) = Z.max (len l) (Z.min a (len l) + n).
Proof.
  intros Ha Hn Hx. unfold slice_assign, slice_index.
  pose proof (len_nonneg l) as Hl.
  destruct (Z.ltb_spec a 0); [lia|]. destruct (Z.ltb_spec (a + n) 0); [lia|].
  unfold len in *. rewrite !length_app, length_take, length_drop. lia.
Qed.

End MoreSlices.



Lemma profile_refresh st : profile (refresh_parse st) = profile st.
Proof. unfold refresh_parse. destruct (working_blob st); reflexivity. Qed.

Lemma instances_refresh_set_working st w e :
  instances (refresh_parse (set_working st w e)) = parse_mrdf w (defs (profile st)).
Proof. reflexivity. Qed.

Lemma instances_refresh st w :
  working_blob st = Some w ->
  instances (refresh_parse st) = parse_mrdf w (defs (profile st)).
Proof. intros H. unfold refresh_parse. rewrite H. reflexivity. Qed.

(** What [apply_edit] does when it ends with [Applied]. *)
Lemma apply_edit_Applied float_of_str ui st :
  snd (apply_edit float_of_str ui st) = Applied ->
  exists inst work v packed,
    _selected ui = Some inst /\ working_blob st = Some work
    /\ new_value float_of_str ui (definition inst) = Ok v
    /\ snd (write_scalar work (offset (definition inst)) (scalar (definition inst)) v)
       = Ok packed
    /\ fst (apply_edit float_of_str ui st)
       = refresh_parse
           (set_working st
              (fst (write_scalar work (offset (definition inst))
                      (scalar (definition inst)) v))
              (<[offset (definition inst) := v]> (edits st))).
Proof.
  unfold apply_edit.
  destruct (_selected ui) as [inst|]; [|discriminate].
  destruct (working_blob st) as [work|]; [|discriminate].
  destruct (new_value float_of_str ui (definition inst)) as [v|e] eqn:Ev; [|discriminate].
  destruct (write_scalar work (offset (definition inst)) (scalar (definition inst)) v)
    as [out [packed|e]] eqn:E; [|discriminate].
  intros _. exists inst, work, v, packed. rewrite E. cbn [fst snd].
  repeat apply conj; (reflexivity || assumption).
Qed.

(** Otherwise it leaves the state as it was. *)
Lemma apply_edit_not_Applied float_of_str ui st :
  snd (apply_edit float_of_str ui st) <> Applied ->
  fst (apply_edit float_of_str ui st) = st.
Proof.
  unfold apply_edit.
  destruct (_selected ui) as [inst|]; [|reflexivity].
  destruct (working_blob st) as [work|]; [|reflexivity].
  destruct (new_value float_of_str ui (definition inst)) as [v|e]; [|reflexivity].
  destruct (write_scalar work (offset (definition inst)) (scalar (definition inst)) v)
    as [out [packed|e]]; [|reflexivity].
  intros H. exfalso. apply H. reflexivity.
Qed.

Lemma dialog_Applied_dec (dg : dialog) : {dg = Applied} + {dg <> Applied}.
Proof. destruct dg; (left; reflexivity) || (right; discriminate). Qed.


Lemma width_FMT scalar : snd (_FMT scalar) = width scalar.
Proof. destruct scalar; reflexivity. Qed.

(** What the overwrite does when it ends with [Overwritten]. *)
Lemma apply_hex_overwrite_Overwritten ui st n start :
  snd (apply_hex_overwrite ui st) = Overwritten n start ->
  exists work new_bytes,
    working_blob st = Some work
    /\ _hex_sel_start ui = Some start /\ _hex_sel_len ui = Some n
    /\ _parse_hex_bytes (hex_edit_var ui) = Ok new_bytes /\ len new_bytes = n
    /\ fst (apply_hex_overwrite ui st)
       = refresh_parse
           (set_working st (slice_assign work start (start + n) new_bytes) (edits st)).
Proof.
  unfold apply_hex_overwrite.
  destruct (working_blob st) as [work|]; [|discriminate].
  destruct (_hex_sel_start ui) as [s|]; [|discriminate].
  destruct (_hex_sel_len ui) as [k|]; [|discriminate].
  destruct (_parse_hex_bytes (hex_edit_var ui)) as [new_bytes|e]; [|discriminate].
  destruct (Z.eqb_spec (len new_bytes) k) as [Hk|Hk]; cbn [negb fst snd]; [|discriminate].
  intros [= -> ->]. exists work, new_bytes. repeat apply conj; (reflexivity || assumption).
Qed.

Lemma apply_hex_overwrite_cases ui st :
  fst (apply_hex_overwrite ui st) = st
  \/ exists n start, snd (apply_hex_overwrite ui st) = Overwritten n start.
Proof.
  unfold apply_hex_overwrite.
  destruct (working_blob st) as [work|]; [|left; reflexivity].
  destruct (_hex_sel_start ui) as [s|]; [|left; reflexivity].
  destruct (_hex_sel_len ui) as [k|]; [|left; reflexivity].
  destruct (_parse_hex_bytes (hex_edit_var ui)) as [new_bytes|e]; [|left; reflexivity].
  destruct (negb _); [left; reflexivity|right; eauto].
Qed.

(** X10.  The length of the working buffer after an overwrite that went
    through, with a target that does not start below zero: it is
    [max (len work) (min start (len work) + n)].  So the length is kept
    when the target lies within the buffer, and a target that reaches past
    the end makes the buffer longer. *)
Theorem apply_hex_overwrite_length ui st work start n :
  working_blob st = Some work -> 0 <= start ->
  snd (apply_hex_overwrite ui st) = Overwritten n start ->
  exists work',
    working_blob (fst (apply_hex_overwrite ui st)) = Some work'
    /\ len work' = Z.max (len work) (Z.min start (len work) + n)
    /\ (start + n <= len work -> len work' = len work)
    /\ (len work < start + n -> 0 < n -> len work < len work').
Proof.
  intros Hw Hs Hd.
  apply apply_hex_overwrite_Overwritten in Hd
    as (work0 & new_bytes & Hw0 & _ & _ & _ & Hn & ->).
  rewrite Hw in Hw0. injection Hw0 as <-.
  rewrite working_blob_refresh. cbn [set_working working_blob].
  eexists. split; [reflexivity|].
  pose proof (len_nonneg new_bytes). pose proof (len_nonneg work).
  rewrite len_slice_assign_any by lia. lia.
Qed.

Lemma apply_hex_overwrite_length_witness :
  let ui := widgets gear_inst EmptyString "01 00 00 00" in
  exists work',
    working_blob (fst (apply_hex_overwrite ui opened48)) = Some work'
    /\ len work' = Z.max (len blob48) (Z.min 0x28 (len blob48) + 4)
    /\ (0x28 + 4 <= len blob48 -> len work' = len blob48)
    /\ (len blob48 < 0x28 + 4 -> 0 < 4 -> len blob48 < len work').
Proof.
  intros ui.
  apply (apply_hex_overwrite_length ui opened48 blob48 0x28 4);
    [reflexivity|lia|vm_compute; reflexivity].
Defined.

(** X11.  A raw overwrite within the buffer changes no field away from its
    target: the instances after it that do not meet the target range are
    those of the parse before it. *)
Theorem apply_hex_overwrite_other_fields ui st work start n :
  working_blob st = Some work -> 0 <= start -> start + n <= len work ->
  snd (apply_hex_overwrite ui st) = Overwritten n start ->
  List.filter (away_from start n) (instances (fst (apply_hex_overwrite ui st)))
  = List.filter (away_from start n) (parse_mrdf work (defs (profile st))).
Proof.
  intros Hw Hs Hb Hd.
  apply apply_hex_overwrite_Overwritten in Hd
    as (work0 & new_bytes & Hw0 & _ & _ & _ & Hn & ->).
  rewrite Hw in Hw0. injection Hw0 as <-.
  unfold refresh_parse. cbn [set_working working_blob instances profile].
  apply parse_mrdf_same_outside, same_outside_slice_assign; assumption.
Qed.

Lemma apply_hex_overwrite_other_fields_witness :
  let ui := widgets gear_inst EmptyString "01 00 00 00" in
  List.filter (away_from 0x28 4) (instances (fst (apply_hex_overwrite ui opened48)))
  = List.filter (away_from 0x28 4) (parse_mrdf blob48 STATS_MRDF_DEFS).
Proof.
  intros ui.
  apply (apply_hex_overwrite_other_fields ui opened48 blob48 0x28 4);
    [reflexivity|lia|vm_compute; intros; discriminate|vm_compute; reflexivity].
Defined.

(** ** An overwrite target left from another file *)

(** Selecting the tyre field of the file of 192 bytes sets the overwrite
    target to its four bytes at 0xBC and fills the entry with them.  No
    other operation sets the target, [open_file] included. *)
Lemma target_after_tyre_select :
  match _on_select (fun _ => EmptyString) (fun _ => EmptyString) opened_tyres tyre_inst
          (widgets gear_inst EmptyString EmptyString) blank_view with
  | Ok (ui, _) =>
      _hex_sel_start ui = _hex_sel_start stale_target_widgets
      /\ _hex_sel_len ui = _hex_sel_len stale_target_widgets
      /\ hex_edit_var ui = hex_edit_var stale_target_widgets
  | Raise _ => False
  end.
Proof. vm_compute. repeat split; reflexivity. Qed.

(** C7, at the failing input: the tyre field of a file of 192 bytes was
    selected, which set the target to the four bytes at 0xBC, and a file
    of 48 bytes opened, which leaves the target as it is.  The overwrite
    with four bytes passes the length gate and ends with the message that
    four bytes were written in place at 0xBC; the working buffer is the
    48 bytes with the four new ones after them, 52 bytes, and has no byte
    at 0xBC: no range was replaced, the payload grew.  The revert of the
    same target checks it against the buffer and refuses. *)
Theorem apply_hex_overwrite_stale_target :
  let st := open_file "/" "small.mrdf" blob48 opened_tyres in
  let ui := stale_target_widgets in
  let st' := fst (apply_hex_overwrite ui st) in
  working_blob st = Some blob48
  /\ _hex_sel_start ui = Some 0xBC /\ _hex_sel_len ui = Some 4
  /\ _parse_hex_bytes (hex_edit_var ui) = Ok [x85; x00; x00; x00]
  /\ snd (apply_hex_overwrite ui st) = Overwritten 4 0xBC
  /\ working_blob st' = Some (blob48 ++ [x85; x00; x00; x00])
  /\ option_map len (working_blob st') = Some 52
  /\ option_map (fun w => slice w 0xBC 0xC0) (working_blob st') = Some []
  /\ original_blob st' = Some blob48
  /\ revert_hex_overwrite ui st = (st, RevertFailed).
Proof. vm_compute. repeat split; reflexivity. Qed.

(** ** Reverting *)

Lemma revert_hex_overwrite_Reverted ui st n start :
  snd (revert_hex_overwrite ui st) = Reverted n start ->
  exists orig work,
    original_blob st = Some orig /\ working_blob st = Some work
    /\ _hex_sel_start ui = Some start /\ _hex_sel_len ui = Some n
    /\ start + n <= len orig
    /\ fst (revert_hex_overwrite ui st)
       = refresh_parse
           (set_working st
              (slice_assign work start (start + n) (slice orig start (start + n)))
              (edits st)).
Proof.
  unfold revert_hex_overwrite.
  destruct (original_blob st) as [orig|]; [|discriminate].
  destruct (working_blob st) as [work|]; [|discriminate].
  destruct (_hex_sel_start ui) as [s|]; [|discriminate].
  destruct (_hex_sel_len ui) as [k|]; [|discriminate].
  destruct (Z.ltb_spec (len orig) (s + k)) as [Hk|Hk]; cbn [fst snd]; [discriminate|].
  intros [= -> ->]. exists orig, work. repeat apply conj; (reflexivity || assumption).
Qed.

Lemma revert_hex_overwrite_cases ui st :
  fst (revert_hex_overwrite ui st) = st
  \/ exists n start, snd (revert_hex_overwrite ui st) = Reverted n start.
Proof.
  unfold revert_hex_overwrite.
  destruct (original_blob st) as [orig|]; [|left; reflexivity].
  destruct (working_blob st) as [work|]; [|left; reflexivity].
  destruct (_hex_sel_start ui) as [s|]; [|left; reflexivity].
  destruct (_hex_sel_len ui) as [k|]; [|left; reflexivity].
  destruct (len orig <? s + k); [left; reflexivity|right; eauto].
Qed.






(** ** An edit and its revert *)


Section ApplyRevert.

Variable float_of_str : string -> result spec_float.


(** X15.  A pending edit shadows the bytes: after an applied edit the
    value shown for the instance at the offset is the value that was
    entered, as entered, whatever the decode of the bytes written gives;
    and the value shown for an instance with no pending edit is the decoded
    one. *)
Theorem current_value_after_apply_edit ui st inst v :
  _selected ui = Some inst ->
  new_value float_of_str ui (definition inst) = Ok v ->
  snd (apply_edit float_of_str ui st) = Applied ->
  let st' := fst (apply_edit float_of_str ui st) in
  forall i,
    (inst_offset i = offset (definition inst) -> _current_value st' i = v)
    /\ (inst_offset i <> offset (definition inst) ->
        _current_value st' i = _current_value st i).
Proof.
  intros Hs Hv Happ st' i. subst st'.
  apply apply_edit_Applied in Happ
    as (inst0 & work0 & v0 & packed & Hs0 & Hw0 & Hv0 & Hwr & Hst).
  rewrite Hs in Hs0. injection Hs0 as <-. rewrite Hv in Hv0. injection Hv0 as <-.
  unfold _current_value. rewrite Hst, edits_refresh. cbn [set_working edits]. split.
  - intros ->. rewrite lookup_insert_eq. reflexivity.
  - intros Hne. rewrite lookup_insert_ne by congruence. reflexivity.
Qed.

End ApplyRevert.


Lemma current_value_after_apply_edit_witness :
  let ui := widgets gear_inst "0x1FFFFFFFF" EmptyString in
  let st' := fst (apply_edit decimal_float_of_str ui opened48) in
  _current_value st' gear_inst = Int 0x1FFFFFFFF
  /\ In {| definition := gear_def; inst_offset := 0x28;
           raw := [xff; xff; xff; xff]; value := Int 0xFFFFFFFF |} (instances st').
Proof.
  intros ui st'. split; [|vm_compute; tauto].
  apply (current_value_after_apply_edit decimal_float_of_str ui opened48 gear_inst
           (Int 0x1FFFFFFFF));
    vm_compute; reflexivity.
Defined.

(** ** What every command keeps *)

Lemma detect_profile_registered os_sep path blob :
  exists p, detect_profile os_sep path blob = Ok p /\ In p PROFILES.
Proof.
  unfold detect_profile. destruct (path_hint os_sep (lower path)).
  - rewrite get_profile_by_key_physics. eexists. split; [reflexivity|].
    right; left; reflexivity.
  - pose proof (physics_heuristic_plausible blob) as Hp.
    pose proof (stats_heuristic_plausible blob) as Hs.
    assert (Hstats : exists p,
               match stats_heuristic blob with
               | Ok (Some p) => Ok p
               | _ => get_profile_by_key "stats"
               end = Ok p /\ In p PROFILES).
    { destruct (stats_heuristic blob) as [[q|]|e].
      - destruct Hs as [-> _]. eexists. split; [reflexivity|]. left; reflexivity.
      - rewrite get_profile_by_key_stats. eexists. split; [reflexivity|]. left; reflexivity.
      - rewrite get_profile_by_key_stats. eexists. split; [reflexivity|]. left; reflexivity. }
    destruct (physics_heuristic blob) as [[p|]|e]; try exact Hstats.
    destruct Hp as [-> _]. eexists. split; [reflexivity|]. right; left; reflexivity.
Qed.

Lemma consistent_refresh_set_working blob st w e :
  consistent blob st -> consistent blob (refresh_parse (set_working st w e)).
Proof.
  intros (Ho & Hp & _). split; [exact Ho|]. split; [exact Hp|].
  exists w. split; reflexivity.
Qed.

Lemma consistent_refresh blob st : consistent blob st -> consistent blob (refresh_parse st).
Proof.
  intros (Ho & Hp & work & Hw & Hi). unfold refresh_parse. rewrite Hw.
  split; [exact Ho|]. split; [exact Hp|]. exists work. split; reflexivity.
Qed.

Lemma consistent_with_profile blob st p :
  consistent blob st -> In p PROFILES -> consistent blob (refresh_parse (with_profile st p)).
Proof.
  intros (Ho & _ & work & Hw & _) Hp. unfold refresh_parse.
  cbn [with_profile working_blob]. rewrite Hw.
  split; [exact Ho|]. split; [exact Hp|]. exists work. split; reflexivity.
Qed.

Lemma open_file_consistent os_sep path blob st :
  consistent blob (open_file os_sep path blob st)
  /\ working_blob (open_file os_sep path blob st) = Some blob
  /\ edits (open_file os_sep path blob st) = ∅.
Proof.
  unfold open_file.
  destruct (detect_profile_registered os_sep path blob) as (p & -> & Hp).
  unfold _set_profile, refresh_parse. cbn [with_profile working_blob].
  split; [|split; reflexivity].
  split; [reflexivity|]. split; [exact Hp|]. exists blob. split; reflexivity.
Qed.

Lemma revert_field_cases ui st :
  revert_field ui st = st
  \/ exists w e, revert_field ui st = refresh_parse (set_working st w e).
Proof.
  unfold revert_field.
  destruct (_selected ui) as [inst|]; [|left; reflexivity].
  destruct (original_blob st) as [orig|]; [|left; reflexivity].
  destruct (working_blob st) as [work|]; [|left; reflexivity].
  destruct (edits st !! offset (definition inst)); [right; eauto|left; reflexivity].
Qed.

Section Invariant.

Variable float_of_str : string -> result spec_float.

Lemma invoke_consistent blob st c :
  consistent blob st -> consistent blob (invoke float_of_str st c).
Proof.
  intros Hst. destruct c as [ui|ui|ui|ui|confirmed|label'|]; cbn [invoke].
  - destruct (dialog_Applied_dec (snd (apply_edit float_of_str ui st))) as [Ha|Ha].
    + apply apply_edit_Applied in Ha as (inst & work & v & packed & _ & _ & _ & _ & ->).
      apply consistent_refresh_set_working, Hst.
    + rewrite apply_edit_not_Applied by assumption. exact Hst.
  - destruct (revert_field_cases ui st) as [->|(w & e & ->)];
      [exact Hst|apply consistent_refresh_set_working, Hst].
  - destruct (apply_hex_overwrite_cases ui st) as [->|(n & start & Hd)]; [exact Hst|].
    apply apply_hex_overwrite_Overwritten in Hd as (work & nb & _ & _ & _ & _ & _ & ->).
    apply consistent_refresh_set_working, Hst.
  - destruct (revert_hex_overwrite_cases ui st) as [->|(n & start & Hd)]; [exact Hst|].
    apply revert_hex_overwrite_Reverted in Hd as (orig & work & _ & _ & _ & _ & _ & ->).
    apply consistent_refresh_set_working, Hst.
  - unfold discard_edits. destruct (original_blob st) as [orig|]; [|exact Hst].
    destruct confirmed; cbn [negb]; [apply consistent_refresh_set_working, Hst|exact Hst].
  - unfold on_profile_changed.
    destruct (List.find _ PROFILES) as [p|] eqn:E.
    + apply consistent_with_profile; [exact Hst|].
      apply List.find_some in E. tauto.
    + apply consistent_refresh, Hst.
  - apply consistent_refresh, Hst.
Qed.

Lemma invoke_all_consistent_from blob cs st :
  consistent blob st -> consistent blob (invoke_all float_of_str st cs).
Proof.
  revert st. induction cs as [|c cs IH]; intros st Hst; [exact Hst|].
  cbn [invoke_all fold_left]. apply IH, invoke_consistent, Hst.
Qed.

(** X16.  Whatever commands follow an open, in whatever order and with
    whatever in the widgets, and whether they go through or fail: the
    snapshot stays the bytes that were opened, the profile is a registered
    one, and the instances shown are the parse of the working buffer as it
    is, under the profile as it is. *)
Theorem invoke_all_consistent os_sep path blob st0 cs :
  let st := invoke_all float_of_str (open_file os_sep path blob st0) cs in
  original_blob st = Some blob
  /\ In (profile st) PROFILES
  /\ exists work,
      working_blob st = Some work
      /\ instances st = parse_mrdf work (defs (profile st)).
Proof.
  apply invoke_all_consistent_from, open_file_consistent.
Qed.

(** The working buffer, when there is one, has the length [n]. *)
Local Abbreviation has_length n st :=
  (forall work, working_blob st = Some work -> len work = n).

Lemma has_length_refresh_set_working n st w e :
  len w = n -> has_length n (refresh_parse (set_working st w e)).
Proof. intros Hw work. rewrite working_blob_refresh. intros [= <-]. exact Hw. Qed.

Lemma invoke_length blob st c :
  consistent blob st -> has_length (len blob) st -> target_within (len blob) c ->
  has_length (len blob) (invoke float_of_str st c).
Proof.
  intros (Ho & _ & work & Hw & _) Hlen Hc. pose proof (Hlen work Hw) as Hl.
  destruct c as [ui|ui|ui|ui|confirmed|label'|]; cbn [invoke].
  - destruct (dialog_Applied_dec (snd (apply_edit float_of_str ui st))) as [Ha|Ha].
    + apply apply_edit_Applied in Ha as (inst & work0 & v & packed & _ & Hw0 & _ & _ & ->).
      rewrite Hw in Hw0. injection Hw0 as <-.
      apply has_length_refresh_set_working.
      rewrite (proj1 (write_scalar_same_outside _ _ _ _)). exact Hl.
    + rewrite apply_edit_not_Applied by assumption. exact Hlen.
  - unfold revert_field.
    destruct (_selected ui) as [inst|]; [|exact Hlen]. rewrite Ho, Hw.
    destruct (edits st !! offset (definition inst)); [|exact Hlen].
    apply has_length_refresh_set_working.
    rewrite len_slice_assign_slice; [exact Hl|congruence].
  - destruct (apply_hex_overwrite_cases ui st) as [->|(n & start & Hd)]; [exact Hlen|].
    apply apply_hex_overwrite_Overwritten in Hd
      as (work0 & nb & Hw0 & Hs & Hn & _ & Hnb & ->).
    rewrite Hw in Hw0. injection Hw0 as <-.
    cbn [target_within] in Hc. rewrite Hs, Hn in Hc.
    apply has_length_refresh_set_working.
    rewrite len_slice_assign; [exact Hl|lia|lia|exact Hnb].
  - destruct (revert_hex_overwrite_cases ui st) as [->|(n & start & Hd)]; [exact Hlen|].
    apply revert_hex_overwrite_Reverted in Hd
      as (orig & work0 & Ho0 & Hw0 & _ & _ & _ & ->).
    rewrite Hw in Hw0. injection Hw0 as <-. rewrite Ho in Ho0. injection Ho0 as <-.
    apply has_length_refresh_set_working.
    rewrite len_slice_assign_slice; [exact Hl|congruence].
  - unfold discard_edits. rewrite Ho.
    destruct confirmed; cbn [negb]; [|exact Hlen].
    apply has_length_refresh_set_working. reflexivity.
  - unfold on_profile_changed. intros w. rewrite working_blob_refresh.
    destruct (List.find _ PROFILES); [cbn [with_profile working_blob]|]; apply Hlen.
  - intros w. rewrite working_blob_refresh. apply Hlen.
Qed.

(** X17.  The length of the working buffer never changes after an open,
    whatever commands follow, as long as every overwrite that is attempted
    has its target within the file. *)
Theorem invoke_all_length os_sep path blob st0 cs :
  Forall (target_within (len blob)) cs ->
  exists work,
    working_blob (invoke_all float_of_str (open_file os_sep path blob st0) cs) = Some work
    /\ len work = len blob.
Proof.
  intros Hcs.
  assert (H : forall st,
             consistent blob st -> has_length (len blob) st ->
             consistent blob (invoke_all float_of_str st cs)
             /\ has_length (len blob) (invoke_all float_of_str st cs)).
  { induction Hcs as [|c cs Hc Hcs IH]; intros st Hst Hlen; [split; assumption|].
    cbn [invoke_all fold_left]. apply IH.
    - apply invoke_consistent, Hst.
    - apply invoke_length; assumption. }
  destruct (open_file_consistent os_sep path blob st0) as (Hst & Hw & _).
  destruct (H _ Hst) as [(_ & _ & work & Hwork & _) Hlen].
  - intros w. rewrite Hw. intros [= <-]. reflexivity.
  - exists work. split; [exact Hwork|]. apply Hlen, Hwork.
Qed.

(** X18.  Discard goes back to the file as opened: after any commands, a
    confirmed [discard_edits] leaves the bytes that were opened as the
    working buffer, an empty ledger, and the parse of those bytes under the
    profile then selected; and declined, it changes nothing. *)
Theorem discard_edits_after_any os_sep path blob st0 cs :
  let st := invoke_all float_of_str (open_file os_sep path blob st0) cs in
  working_blob (discard_edits true st) = Some blob
  /\ edits (discard_edits true st) = ∅
  /\ instances (discard_edits true st) = parse_mrdf blob (defs (profile st))
  /\ profile (discard_edits true st) = profile st
  /\ discard_edits false st = st.
Proof.
  intros st.
  assert (Ho : original_blob st = Some blob).
  { apply (invoke_all_consistent_from blob cs), open_file_consistent. }
  unfold discard_edits. rewrite Ho. cbn [negb].
  rewrite working_blob_refresh, edits_refresh, profile_refresh,
    instances_refresh_set_working.
  repeat apply conj; reflexivity.
Qed.

End Invariant.

Lemma invoke_all_length_witness :
  let cs := [ApplyEdit (widgets gear_inst "3" EmptyString);
             Overwrite (widgets speed_inst EmptyString "00 00 F1 42");
             RevertField (widgets gear_inst EmptyString EmptyString)] in
  Forall (target_within (len blob48)) cs
  /\ exists work,
      working_blob (invoke_all decimal_float_of_str
                      (open_file "/" "car.mrdf" blob48 initial) cs) = Some work
      /\ len work = len blob48.
Proof.
  intros cs.
  assert (Hcs : Forall (target_within (len blob48)) cs).
  { repeat constructor; vm_compute; intros; discriminate. }
  split; [exact Hcs|].
  exact (invoke_all_length decimal_float_of_str "/" "car.mrdf" blob48 initial cs Hcs).
Defined.

(** ** Numbers as text *)

Lemma hex_digit_upper_spec d :
  0 <= d < 16 ->
  digit_value (hex_digit_upper d) = Some d /\ is_hex_digit (hex_digit_upper d) = true.
Proof.
  intros Hd. assert (E : d = Z.of_nat (Z.to_nat d)) by lia. rewrite E.
  assert (Hn : (Z.to_nat d < 16)%nat) by lia. revert Hn.
  generalize (Z.to_nat d) as n. intros n Hn.
  do 16 (destruct n as [|n]; [vm_compute; auto|]). lia.
Qed.

Lemma int_digits_digit base acc b d rest :
  0 <= d < base -> base <= 16 ->
  int_digits base acc b (String (hex_digit_upper d) rest)
  = int_digits base (acc * base + d) true rest.
Proof.
  intros Hd Hb. destruct (hex_digit_upper_spec d) as [Hv Hh]; [lia|].
  cbn [int_digits]. rewrite (hex_digit_not_underscore _ Hh), Hv.
  destruct (Z.ltb_spec d base); [reflexivity|lia].
Qed.

(** Reading the digits of [n] gives [n]. *)
Lemma int_digits_digits_acc base fuel : forall n b rest,
  2 <= base <= 16 -> 0 <= n < base ^ Z.of_nat (S fuel) ->
  int_digits base 0 b (digits_acc base (S fuel) n rest) = int_digits base n true rest.
Proof.
  induction fuel as [|fuel IH]; intros n b rest Hb Hn.
  - change (Z.of_nat 1) with 1 in Hn. rewrite Z.pow_1_r in Hn.
    cbn [digits_acc]. destruct (Z.ltb_spec n base) as [Hlt|Hge]; [|lia].
    rewrite Z.mod_small by lia. rewrite int_digits_digit by lia. reflexivity.
  - remember (S fuel) as f eqn:Ef.
    cbn [digits_acc]. destruct (Z.ltb_spec n base) as [Hlt|Hge].
    + rewrite Z.mod_small by lia. rewrite int_digits_digit by lia. reflexivity.
    + rewrite Nat2Z.inj_succ, Z.pow_succ_r in Hn by lia. subst f.
      rewrite IH; [|assumption|].
      * rewrite int_digits_digit; [|apply Z.mod_pos_bound; lia|lia].
        f_equal. rewrite Z.mul_comm. symmetry. apply Z.div_mod. lia.
      * split; [apply Z.div_pos; lia|]. apply Z.div_lt_upper_bound; lia.
Qed.

Lemma digits_fuel base n :
  2 <= base -> 0 <= n -> n < base ^ Z.of_nat (S (Z.to_nat (Z.log2 n))).
Proof.
  intros Hb Hn. rewrite Nat2Z.inj_succ, Z2Nat.id by apply Z.log2_nonneg.
  destruct (Z.eq_dec n 0) as [->|Hz]; [cbn; lia|].
  pose proof (Z.log2_spec n ltac:(lia)) as [_ Hlt].
  eapply Z.lt_le_trans; [exact Hlt|].
  apply Z.pow_le_mono_l. lia.
Qed.

Lemma int_digits_digits base n b :
  2 <= base <= 16 -> 0 <= n -> int_digits base 0 b (digits base n) = Some n.
Proof.
  intros Hb Hn. unfold digits.
  rewrite int_digits_digits_acc; [reflexivity|assumption|].
  split; [assumption|apply digits_fuel; lia].
Qed.

(** The characters of the digits are hexadecimal digits, in front of
    what was there. *)
Lemma digits_acc_hex base fuel : forall n acc,
  2 <= base <= 16 -> 0 <= n ->
  string_forall is_hex_digit acc = true ->
  string_forall is_hex_digit (digits_acc base fuel n acc) = true.
Proof.
  induction fuel as [|fuel IH]; intros n acc Hb Hn Hacc; [exact Hacc|].
  cbn [digits_acc].
  assert (Hd : string_forall is_hex_digit (String (hex_digit_upper (n mod base)) acc) = true).
  { cbn [string_forall]. rewrite Hacc, andb_true_r.
    apply hex_digit_upper_spec. pose proof (Z.mod_pos_bound n base). lia. }
  destruct (n <? base); [exact Hd|].
  apply IH; [assumption|apply Z.div_pos; lia|exact Hd].
Qed.

Lemma digits_hex base n :
  2 <= base <= 16 -> 0 <= n -> string_forall is_hex_digit (digits base n) = true.
Proof. intros. apply digits_acc_hex; auto. Qed.

Lemma digits_acc_nonempty base fuel n acc :
  digits_acc base (S fuel) n acc <> EmptyString.
Proof.
  revert n acc. induction fuel as [|fuel IH]; intros n acc.
  - cbn. destruct (n <? base); discriminate.
  - cbn [digits_acc]. destruct (n <? base); [discriminate|]. apply IH.
Qed.

Lemma digits_nonempty base n : digits base n <> EmptyString.
Proof. apply digits_acc_nonempty. Qed.

(** The number of digits. *)
Lemma digits_acc_length base fuel : forall n acc k,
  2 <= base -> 0 <= n < base ^ Z.of_nat k -> (0 < k)%nat ->
  (String.length (digits_acc base fuel n acc) <= k + String.length acc)%nat.
Proof.
  induction fuel as [|fuel IH]; intros n acc k Hb Hn Hk; [cbn; lia|].
  cbn [digits_acc]. destruct (Z.ltb_spec n base) as [Hlt|Hge]; [cbn; lia|].
  destruct k as [|k]; [lia|]. destruct k as [|k].
  { cbn in Hn. lia. }
  rewrite Nat2Z.inj_succ, Z.pow_succ_r in Hn by lia.
  specialize (IH (n / base) (String (hex_digit_upper (n mod base)) acc) (S k) Hb).
  cbn [String.length] in IH. etransitivity; [apply IH|lia]; [|lia].
  split; [apply Z.div_pos; lia|]. apply Z.div_lt_upper_bound; lia.
Qed.

Lemma digits_length base n k :
  2 <= base -> 0 <= n < base ^ Z.of_nat k -> (0 < k)%nat ->
  (String.length (digits base n) <= k)%nat.
Proof.
  intros Hb Hn Hk. pose proof (digits_acc_length base (S (Z.to_nat (Z.log2 n))) n
                                 EmptyString k Hb Hn Hk) as H.
  cbn [String.length] in H. unfold digits. lia.
Qed.

(** *** Strings without white space *)

Lemma string_forall_impl (p q : ascii -> bool) s :
  (forall c, p c = true -> q c = true) ->
  string_forall p s = true -> string_forall q s = true.
Proof.
  intros Hpq. induction s as [|c r IH]; [reflexivity|]. cbn [string_forall].
  intros H. apply andb_true_iff in H as [Hc Hr]. rewrite (Hpq c Hc), (IH Hr). reflexivity.
Qed.

Lemma lstrip_no_space s :
  string_forall (fun c => negb (isspace c)) s = true -> lstrip s = s.
Proof.
  destruct s as [|c r]; [reflexivity|]. cbn [string_forall lstrip].
  intros H. apply andb_true_iff in H as [Hc _].
  destruct (isspace c); [discriminate|reflexivity].
Qed.

Lemma rstrip_no_space s :
  string_forall (fun c => negb (isspace c)) s = true -> rstrip s = s.
Proof.
  induction s as [|c r IH]; [reflexivity|]. cbn [string_forall rstrip].
  intros H. apply andb_true_iff in H as [Hc Hr]. rewrite (IH Hr).
  destruct r; [|reflexivity]. destruct (isspace c); [discriminate|reflexivity].
Qed.

Lemma strip_no_space s :
  string_forall (fun c => negb (isspace c)) s = true -> strip s = s.
Proof.
  intros H. unfold strip. rewrite lstrip_no_space by assumption.
  apply rstrip_no_space. assumption.
Qed.

Lemma hex_no_space s :
  string_forall is_hex_digit s = true ->
  string_forall (fun c => negb (isspace c)) s = true.
Proof.
  apply string_forall_impl. intros c Hc. rewrite (hex_digit_not_space c Hc). reflexivity.
Qed.

Lemma string_forall_fill p n c s :
  p c = true -> string_forall p s = true -> string_forall p (fill n c s) = true.
Proof.
  intros Hc Hs. induction n as [|n IH]; [exact Hs|].
  cbn [fill string_forall]. rewrite Hc, IH. reflexivity.
Qed.

Lemma int_digits_fill_zero n s b :
  int_digits 16 0 b (fill n "0" s) = int_digits 16 0 (b || negb (Nat.eqb n 0)) s.
Proof.
  revert b. induction n as [|n IH]; intros b; [cbn; rewrite orb_false_r; reflexivity|].
  cbn [fill]. change (String "0" (fill n "0" s))
    with (String (hex_digit_upper 0) (fill n "0" s)).
  rewrite int_digits_digit by lia. cbn [Z.mul Z.add]. rewrite IH.
  cbn [orb Nat.eqb negb]. rewrite orb_true_r. reflexivity.
Qed.

Lemma int_prefix_hex base s :
  string_forall is_hex_digit s = true -> int_prefix base s = s.
Proof.
  intros H. unfold int_prefix. destruct (base =? 16); [|reflexivity].
  destruct s as [|c [|x r]]; [reflexivity|ascii_cases c; reflexivity|].
  cbn [string_forall] in H. apply andb_true_iff in H as [_ H].
  apply andb_true_iff in H as [Hx _].
  rewrite (hex_digit_not_x x Hx). ascii_cases c; reflexivity.
Qed.

Lemma int_sign_hex s :
  string_forall is_hex_digit s = true -> int_sign s = (false, s).
Proof.
  destruct s as [|c r]; [reflexivity|]. cbn [string_forall].
  intros H. apply andb_true_iff in H as [Hc _]. apply hex_digit_no_sign. assumption.
Qed.

Lemma int_lstrip_no_space s :
  string_forall (fun c => negb (int_isspace c)) s = true -> int_lstrip s = s.
Proof.
  destruct s as [|c r]; [reflexivity|]. cbn [string_forall int_lstrip].
  intros H. apply andb_true_iff in H as [Hc _].
  destruct (int_isspace c); [discriminate|reflexivity].
Qed.

Lemma int_rstrip_no_space s :
  string_forall (fun c => negb (int_isspace c)) s = true -> int_rstrip s = s.
Proof.
  induction s as [|c r IH]; [reflexivity|]. cbn [string_forall int_rstrip].
  intros H. apply andb_true_iff in H as [Hc Hr]. rewrite (IH Hr).
  destruct r; [|reflexivity]. destruct (int_isspace c); [discriminate|reflexivity].
Qed.

Lemma hex_no_int_space s :
  string_forall is_hex_digit s = true ->
  string_forall (fun c => negb (int_isspace c)) s = true.
Proof.
  apply string_forall_impl. intros c Hc. rewrite (hex_digit_not_int_space c Hc). reflexivity.
Qed.

Lemma count_digits_hex s :
  string_forall is_hex_digit s = true -> count_digits s = Z.of_nat (String.length s).
Proof.
  induction s as [|c r IH]; [reflexivity|]. cbn [string_forall count_digits String.length].
  intros H. apply andb_true_iff in H as [Hc Hr].
  rewrite (hex_digit_not_underscore c Hc), (IH Hr). lia.
Qed.

(** [int(s, base)] reads [str(z)] and the format [{z:08X}] back: a
    literal of digits alone, with or without a minus sign, of no more
    than [int_max_str_digits] digits unless the base is a power of two. *)
Lemma int_of_str_unsigned base s n :
  string_forall is_hex_digit s = true ->
  (forall b, int_digits base 0 b s = Some n) ->
  is_binary_base base = true \/ Z.of_nat (String.length s) <= int_max_str_digits ->
  int_of_str base s = Ok n /\ int_of_str base (String "-" s) = Ok (- n).
Proof.
  intros Hs Hd Hlim.
  assert (Hgate : negb (is_binary_base base) && (int_max_str_digits <? count_digits s)
                  = false).
  { rewrite count_digits_hex by assumption. destruct Hlim as [->|Hl]; [reflexivity|].
    apply andb_false_iff. right. apply Z.ltb_ge. exact Hl. }
  unfold int_of_str. split.
  - rewrite int_lstrip_no_space, int_rstrip_no_space
      by (apply hex_no_int_space; assumption).
    rewrite int_sign_hex, int_prefix_hex by assumption. cbv zeta.
    rewrite Hd, Hgate. reflexivity.
  - rewrite int_lstrip_no_space, int_rstrip_no_space
      by (cbn [string_forall]; rewrite hex_no_int_space by assumption; reflexivity).
    cbn [int_sign]. rewrite int_prefix_hex by assumption. cbv zeta.
    rewrite Hd, Hgate. reflexivity.
Qed.

(** What [str(z)] is when it returns: the digits of [|z|], no more than
    [int_max_str_digits], after a minus sign for a negative [z]. *)
Lemma str_of_Z_Ok z s :
  str_of_Z z = Ok s ->
  Z.of_nat (String.length (digits 10 (Z.abs z))) <= int_max_str_digits
  /\ s = if z <? 0 then String "-" (digits 10 (Z.abs z)) else digits 10 (Z.abs z).
Proof.
  unfold str_of_Z.
  destruct (Z.ltb_spec int_max_str_digits (Z.of_nat (String.length (digits 10 (Z.abs z)))));
    [discriminate|].
  intros [= <-]. split; [assumption|reflexivity].
Qed.

Lemma int_of_str_str_of_Z z s : str_of_Z z = Ok s -> int_of_str 10 s = Ok z.
Proof.
  intros H. apply str_of_Z_Ok in H as [Hl ->].
  destruct (int_of_str_unsigned 10 (digits 10 (Z.abs z)) (Z.abs z)) as [Hp Hn].
  - apply digits_hex; lia.
  - intros b. apply int_digits_digits; lia.
  - right. exact Hl.
  - destruct (Z.ltb_spec z 0) as [Hneg|Hpos].
    + rewrite Hn. f_equal. lia.
    + rewrite Hp. f_equal. lia.
Qed.

Lemma int_of_str_format_08X z : int_of_str 16 (format_08X z) = Ok z.
Proof.
  unfold format_08X. destruct (Z.ltb_spec z 0) as [Hneg|Hpos].
  - replace z with (- - z) at 3 by lia.
    apply int_of_str_unsigned.
    + apply string_forall_fill; [reflexivity|apply digits_hex; lia].
    + intros b. rewrite int_digits_fill_zero. apply int_digits_digits; lia.
    + left. reflexivity.
  - apply int_of_str_unsigned.
    + apply string_forall_fill; [reflexivity|apply digits_hex; lia].
    + intros b. rewrite int_digits_fill_zero. apply int_digits_digits; lia.
    + left. reflexivity.
Qed.

Lemma length_fill n c s : String.length (fill n c s) = (n + String.length s)%nat.
Proof. induction n as [|n IH]; [reflexivity|]. cbn [fill String.length]. rewrite IH. lia. Qed.

(** Eight characters for an offset below [16 ^ 8]. *)
Lemma length_format_08X z :
  0 <= z < 16 ^ 8 -> String.length (format_08X z) = 8%nat.
Proof.
  intros Hz. unfold format_08X. destruct (Z.ltb_spec z 0); [lia|].
  rewrite length_fill.
  pose proof (digits_length 16 z 8 ltac:(lia) Hz ltac:(lia)). lia.
Qed.

(** ** The hex dump *)

Lemma format_08X_no_space z :
  string_forall (fun c => negb (isspace c)) (format_08X z) = true
  /\ format_08X z <> EmptyString.
Proof.
  unfold format_08X. destruct (Z.ltb_spec z 0) as [Hneg|Hpos].
  - split; [|discriminate]. cbn [string_forall].
    change (negb (isspace "-")) with true. cbn [andb].
    apply hex_no_space, string_forall_fill; [reflexivity|apply digits_hex; lia].
  - split.
    + apply hex_no_space, string_forall_fill; [reflexivity|apply digits_hex; lia].
    + pose proof (digits_nonempty 16 z) as Hne.
      destruct (8 - String.length (digits 16 z))%nat; cbn [fill]; [exact Hne|discriminate].
Qed.

(** The first token of a text that starts with a run without white space
    and a blank. *)
Lemma split_token t r :
  t <> EmptyString -> string_forall (fun c => negb (isspace c)) t = true ->
  split (String.append t (String " " r)) = t :: split r.
Proof.
  induction t as [|c t IH]; [congruence|]. intros _ H.
  cbn [string_forall] in H. apply andb_true_iff in H as [Hc Ht].
  apply negb_true_iff in Hc. rewrite append_String.
  destruct t as [|c' t'].
  - rewrite append_empty. cbn [split]. rewrite Hc.
    change (isspace " ") with true. cbn iota. reflexivity.
  - specialize (IH ltac:(discriminate) Ht).
    pose proof Ht as Ht'. cbn [string_forall] in Ht'.
    apply andb_true_iff in Ht' as [Hc' _]. apply negb_true_iff in Hc'.
    rewrite append_String in IH |- *.
    set (X := String.append t' (String " " r)) in *.
    change (split (String c (String c' X)))
      with (if isspace c then split (String c' X)
            else if isspace c' then String c EmptyString :: split (String c' X)
                 else match split (String c' X) with
                      | t0 :: ts => String c t0 :: ts
                      | [] => [String c EmptyString]
                      end).
    rewrite Hc, Hc', IH. reflexivity.
Qed.

Lemma hex_line_eq blob bytes_per_line off :
  hex_line blob bytes_per_line off
  = String.append (format_08X off)
      (String " "
         (String " "
            (String.append
               (ljust (Z.to_nat (bytes_per_line * 3 - 1))
                  (hex_upper (slice blob off (off + bytes_per_line))))
               (String " "
                  (String " "
                     (String "|"
                        (String.append
                           (ascii_part (slice blob off (off + bytes_per_line)))
                           "|"))))))).
Proof. reflexivity. Qed.

(** The first token of a line of the dump reads back as its offset. *)
Lemma hex_line_offset blob bytes_per_line off :
  exists tok rest,
    split (hex_line blob bytes_per_line off) = tok :: rest
    /\ int_of_str 16 tok = Ok off.
Proof.
  rewrite hex_line_eq. destruct (format_08X_no_space off) as [Hs Hne].
  rewrite split_token by assumption.
  eexists _, _. split; [reflexivity|]. apply int_of_str_format_08X.
Qed.

(** The offsets [a + 16 j], [a + 16 (j + 1)], ... of [n] lines. *)
Local Abbreviation line_offsets a j n :=
  (map (fun i : nat => a + Z.of_nat i * 16) (seq j n)).

Lemma index_lines_offsets blob bpl a n : forall j idx index,
  exists index',
    index_lines idx (map (hex_line blob bpl) (line_offsets a j n)) index = Ok index'
    /\ (forall k, (j <= k < j + n)%nat ->
          index' !! (a + Z.of_nat k * 16) = Some (idx + Z.of_nat (k - j)))
    /\ (forall key, (forall k, (j <= k < j + n)%nat -> key <> a + Z.of_nat k * 16) ->
          index' !! key = index !! key).
Proof.
  induction n as [|n IH]; intros j idx index.
  - exists index. split; [reflexivity|]. split; [intros k Hk; lia|reflexivity].
  - cbn [seq map index_lines].
    destruct (hex_line_offset blob bpl (a + Z.of_nat j * 16)) as (tok & rest & -> & ->).
    cbn [bind].
    destruct (IH (S j) (idx + 1) (<[a + Z.of_nat j * 16 := idx]> index))
      as (index' & -> & Hin & Hout).
    exists index'. split; [reflexivity|]. split.
    + intros k Hk. destruct (Nat.eq_dec k j) as [->|Hne].
      * rewrite Hout by (intros k Hk'; lia).
        rewrite lookup_insert_eq. f_equal. lia.
      * rewrite Hin by lia. f_equal. lia.
    + intros key Hkey. rewrite Hout by (intros k Hk; apply Hkey; lia).
      apply lookup_insert_ne. specialize (Hkey j ltac:(lia)). congruence.
Qed.

Lemma range_16 start stop :
  range start stop 16
  = Ok (line_offsets start 0
          (Z.to_nat (if start <? stop then (stop - start - 1) / 16 + 1 else 0))).
Proof. reflexivity. Qed.

Lemma range_1 start stop :
  start < stop ->
  range start stop 1 = Ok (map (fun i : nat => start + Z.of_nat i) (seq 0 (Z.to_nat (stop - start)))).
Proof.
  intros H. unfold range. cbn [Z.eqb Z.ltb Z.compare].
  destruct (Z.ltb_spec start stop); [|lia].
  rewrite Z.div_1_r. replace (stop - start - 1 + 1) with (stop - start) by lia.
  f_equal. apply map_ext. intros i. lia.
Qed.

(** The number of lines of a page that starts at [start]. *)
Lemma line_count_bounds start stop :
  let n := if start <? stop then (stop - start - 1) / 16 + 1 else 0 in
  0 <= n /\ (forall k, 0 <= k -> (k < n <-> start + 16 * k < stop)).
Proof.
  cbv zeta. destruct (Z.ltb_spec start stop) as [Hlt|Hge].
  - pose proof (Z.div_mod (stop - start - 1) 16 ltac:(lia)) as Hdm.
    pose proof (Z.mod_pos_bound (stop - start - 1) 16 ltac:(lia)) as Hm.
    pose proof (Z.div_pos (stop - start - 1) 16 ltac:(lia) ltac:(lia)) as Hq.
    split; [lia|]. intros k Hk. lia.
  - split; [lia|]. intros k Hk. lia.
Qed.

(** X19.  [format_hex_lines] with 16 bytes a line never raises and gives
    one line for each offset [start], [start + 16], ... below
    [min (len blob) (start + nbytes)], in that order; and on every line the
    first token, read as a hexadecimal number, is the offset of the line,
    for negative offsets too. *)
Theorem format_hex_lines_offsets blob start nbytes :
  exists lines,
    format_hex_lines blob start nbytes 16 = Ok lines
    /\ (forall k, 0 <= k ->
          (k < len lines <-> start + 16 * k < Z.min (len blob) (start + nbytes)))
    /\ (forall (k : nat) line, lines !! k = Some line ->
          line = hex_line blob 16 (start + 16 * Z.of_nat k)
          /\ exists tok rest,
              split line = tok :: rest
              /\ int_of_str 16 tok = Ok (start + 16 * Z.of_nat k)).
Proof.
  unfold format_hex_lines. rewrite range_16. cbn [bind].
  set (stop := Z.min (len blob) (start + nbytes)).
  destruct (line_count_bounds start stop) as [Hn Hk]. cbv zeta in Hn, Hk.
  set (n := if start <? stop then (stop - start - 1) / 16 + 1 else 0) in *.
  eexists. split; [reflexivity|]. split.
  - intros k Hk0. unfold len. rewrite !length_map, length_seq, Z2Nat.id by assumption.
    apply Hk. assumption.
  - intros k line Hline.
    rewrite !list_lookup_fmap in Hline.
    destruct (seq 0 (Z.to_nat n) !! k) as [i|] eqn:Ei; [|discriminate].
    apply lookup_seq in Ei as [-> _]. cbn in Hline. injection Hline as <-.
    cbn [Nat.add]. replace (start + Z.of_nat k * 16) with (start + 16 * Z.of_nat k) by lia.
    split; [reflexivity|apply hex_line_offset].
Qed.

(** ** The hex view *)

Lemma clamp_bounds n lo hi : lo <= hi -> lo <= clamp n lo hi <= hi.
Proof. unfold clamp. lia. Qed.

Lemma clamp_in_range n lo hi : lo <= n <= hi -> clamp n lo hi = n.
Proof. unfold clamp. lia. Qed.

Lemma floor16_spec n : (n / 16) * 16 <= n < (n / 16) * 16 + 16 /\ ((n / 16) * 16) mod 16 = 0.
Proof.
  pose proof (Z.div_mod n 16 ltac:(lia)). pose proof (Z.mod_pos_bound n 16 ltac:(lia)).
  split; [lia|]. apply Z.mod_mul. lia.
Qed.

(** Rounding down to a line and clamping to the buffer, for an anchor
    that is not past the last byte. *)
Lemma clamp_floor16 n m :
  0 <= m -> n <= m ->
  let a := clamp ((n / 16) * 16) 0 m in
  0 <= a <= m /\ a mod 16 = 0 /\ (0 <= n -> a = (n / 16) * 16).
Proof.
  intros Hm Hn a. subst a. destruct (floor16_spec n) as [Hf Hmod]. unfold clamp.
  destruct (Z_lt_le_dec ((n / 16) * 16) 0) as [Hneg|Hpos].
  - rewrite Z.min_r, Z.max_l by lia. split; [lia|]. split; [reflexivity|].
    intros H0. pose proof (Z.div_pos n 16 H0 ltac:(lia)). lia.
  - rewrite Z.min_r, Z.max_r by lia. split; [lia|]. split; [exact Hmod|reflexivity].
Qed.

Lemma tag_range_total working hv start length :
  exists tags, _tag_range_in_hex working hv start length = Ok tags.
Proof.
  unfold _tag_range_in_hex. destruct working; [|eauto].
  destruct (length <=? 0); [eauto|]. destruct (_ <=? _); [eauto|].
  unfold range. cbn [Z.eqb bind]. eauto.
Qed.

(** [highlight] returns, and leaves the page as it is. *)
Lemma highlight_total working inst ui hv :
  exists ui' hv',
    highlight working inst ui hv = Ok (ui', hv')
    /\ hex_anchor hv' = hex_anchor hv /\ hex_text hv' = hex_text hv
    /\ _hex_line_index hv' = _hex_line_index hv
    /\ _selected ui' = _selected ui.
Proof.
  unfold highlight. destruct working as [work|].
  - destruct (tag_range_total (Some work) hv (inst_offset inst)
                (snd (_FMT (scalar (definition inst))))) as (tags & ->).
    cbn [bind]. eexists _, _. split; [reflexivity|]. cbn. auto.
  - eexists _, _. split; [reflexivity|]. cbn. auto.
Qed.

(** The page [_refresh_hex_view] builds, before it highlights the
    selection. *)
Lemma refresh_page blob anchor :
  exists lines index,
    format_hex_lines blob anchor hex_bytes_per_page 16 = Ok lines
    /\ index_lines 0 lines ∅ = Ok index
    /\ (forall (k : nat) line, lines !! k = Some line ->
          line = hex_line blob 16 (anchor + 16 * Z.of_nat k)
          /\ index !! (anchor + 16 * Z.of_nat k) = Some (Z.of_nat k))
    /\ (forall key idx, index !! key = Some idx ->
          exists k : nat, idx = Z.of_nat k /\ key = anchor + 16 * Z.of_nat k
                          /\ is_Some (lines !! k))
    /\ (forall k, 0 <= k ->
          (k < len lines
           <-> anchor + 16 * k < Z.min (len blob) (anchor + hex_bytes_per_page))).
Proof.
  unfold format_hex_lines. rewrite range_16. cbn [bind].
  set (stop := Z.min (len blob) (anchor + hex_bytes_per_page)).
  destruct (line_count_bounds anchor stop) as [Hn Hk]. cbv zeta in Hn, Hk.
  set (n := if anchor <? stop then (stop - anchor - 1) / 16 + 1 else 0) in *.
  destruct (index_lines_offsets blob 16 anchor (Z.to_nat n) 0%nat 0 ∅)
    as (index & Hidx & Hin & Hout).
  eexists _, index. split; [reflexivity|]. split; [exact Hidx|].
  assert (Hlook : forall (k : nat) line,
             map (hex_line blob 16)
               (map (fun i : nat => anchor + Z.of_nat i * 16) (seq 0 (Z.to_nat n))) !! k
             = Some line ->
             (k < Z.to_nat n)%nat /\ line = hex_line blob 16 (anchor + 16 * Z.of_nat k)).
  { intros k line Hline. rewrite !list_lookup_fmap in Hline.
    destruct (seq 0 (Z.to_nat n) !! k) as [i|] eqn:Ei; [|discriminate].
    apply lookup_seq in Ei as [-> Hlt]. cbn in Hline. injection Hline as <-.
    split; [exact Hlt|]. f_equal. lia. }
  split; [|split].
  - intros k line Hline. destruct (Hlook k line Hline) as [Hlt ->].
    split; [reflexivity|].
    replace (anchor + 16 * Z.of_nat k) with (anchor + Z.of_nat k * 16) by lia.
    rewrite Hin by lia. f_equal. lia.
  - intros key idx Hkey.
    assert (Hdec : (exists k : nat, (k < Z.to_nat n)%nat /\ key = anchor + Z.of_nat k * 16)
                   \/ ~ (exists k : nat, (k < Z.to_nat n)%nat
                                         /\ key = anchor + Z.of_nat k * 16)).
    { destruct (Z.eq_dec ((key - anchor) mod 16) 0) as [Hm|Hm];
        [destruct (Z_lt_le_dec (key - anchor) 0) as [Hlo|Hlo];
         [|destruct (Z_lt_le_dec ((key - anchor) / 16) n) as [Hhi|Hhi]]|].
      - right. intros (k & _ & ->). lia.
      - left. exists (Z.to_nat ((key - anchor) / 16)).
        pose proof (Z.div_mod (key - anchor) 16 ltac:(lia)).
        pose proof (Z.div_pos (key - anchor) 16 Hlo ltac:(lia)).
        split; [lia|]. rewrite Z2Nat.id by assumption. lia.
      - right. intros (k & Hlt & ->).
        replace (anchor + Z.of_nat k * 16 - anchor) with (Z.of_nat k * 16) in Hhi by lia.
        rewrite Z.div_mul in Hhi by lia. lia.
      - right. intros (k & _ & ->). apply Hm.
        replace (anchor + Z.of_nat k * 16 - anchor) with (Z.of_nat k * 16) by lia.
        apply Z.mod_mul. lia. }
    destruct Hdec as [(k & Hlt & ->)|Hno].
    + rewrite Hin in Hkey by lia. injection Hkey as <-.
      exists k. split; [lia|]. split; [lia|].
      apply lookup_lt_is_Some. rewrite !length_map, length_seq. exact Hlt.
    + rewrite Hout in Hkey; [rewrite lookup_empty in Hkey; discriminate|].
      intros k Hk' ->. apply Hno. exists k. split; [lia|reflexivity].
  - intros k Hk0. unfold len. rewrite !length_map, length_seq, Z2Nat.id by assumption.
    apply Hk. assumption.
Qed.

(** [_refresh_hex_view] on a buffer, whatever the selection. *)
Lemma refresh_hex_view_page blob ui hv :
  let a := clamp ((hex_anchor hv / 16) * 16) 0 (Z.max 0 (len blob - 1)) in
  exists ui' hv',
    _refresh_hex_view (Some blob) ui hv = Ok (ui', hv')
    /\ hex_anchor hv' = a
    /\ format_hex_lines blob a hex_bytes_per_page 16 = Ok (hex_text hv')
    /\ index_lines 0 (hex_text hv') ∅ = Ok (_hex_line_index hv')
    /\ _selected ui' = _selected ui.
Proof.
  intros a. unfold _refresh_hex_view. fold a.
  destruct (refresh_page blob a) as (lines & index & Hl & Hi & _).
  rewrite Hl. cbn [bind]. rewrite Hi. cbn [bind].
  destruct (_selected ui) as [sel|] eqn:Es.
  - destruct (highlight_total (Some blob) sel ui
                {| hex_anchor := a; hex_text := lines;
                   _hex_line_index := index; sel_value := ∅ |})
      as (ui' & hv' & -> & Ha & Ht & Hi' & Hsel).
    exists ui', hv'. rewrite Ha, Ht, Hi', Hsel. cbn. auto.
  - eexists _, _. split; [reflexivity|]. cbn. auto.
Qed.

(** X20.  [_refresh_hex_view] on a loaded buffer never raises.  The page
    it shows starts at the anchor rounded down to a line and clamped to the
    buffer: within the buffer, and on a line boundary if the anchor was not
    past the last byte.  Its lines are those of the dump from there, and
    the line index sends exactly the offset of each line shown to the place
    of the line. *)
Theorem refresh_hex_view_anchor blob ui hv :
  exists ui' hv',
    _refresh_hex_view (Some blob) ui hv = Ok (ui', hv')
    /\ hex_anchor hv' = clamp ((hex_anchor hv / 16) * 16) 0 (Z.max 0 (len blob - 1))
    /\ 0 <= hex_anchor hv' <= Z.max 0 (len blob - 1)
    /\ (hex_anchor hv <= Z.max 0 (len blob - 1) ->
        hex_anchor hv' mod 16 = 0
        /\ (0 <= hex_anchor hv -> hex_anchor hv' <= hex_anchor hv < hex_anchor hv' + 16))
    /\ (forall (k : nat) line, hex_text hv' !! k = Some line ->
          line = hex_line blob 16 (hex_anchor hv' + 16 * Z.of_nat k)
          /\ _hex_line_index hv' !! (hex_anchor hv' + 16 * Z.of_nat k) = Some (Z.of_nat k))
    /\ (forall key idx, _hex_line_index hv' !! key = Some idx ->
          exists k : nat, idx = Z.of_nat k /\ key = hex_anchor hv' + 16 * Z.of_nat k
                          /\ is_Some (hex_text hv' !! k))
    /\ (forall k, 0 <= k ->
          (k < len (hex_text hv')
           <-> hex_anchor hv' + 16 * k
               < Z.min (len blob) (hex_anchor hv' + hex_bytes_per_page))).
Proof.
  destruct (refresh_hex_view_page blob ui hv) as (ui' & hv' & Hr & Ha & Hl & Hi & _).
  exists ui', hv'. split; [exact Hr|]. split; [exact Ha|].
  pose proof (len_nonneg blob) as Hlen.
  split; [rewrite Ha; apply clamp_bounds; lia|].
  split.
  - intros Hle.
    destruct (clamp_floor16 (hex_anchor hv) (Z.max 0 (len blob - 1)) ltac:(lia) Hle)
      as (_ & Hmod & Heq).
    rewrite Ha. split; [exact Hmod|]. intros H0. rewrite (Heq H0).
    destruct (floor16_spec (hex_anchor hv)) as [Hf _]. lia.
  - destruct (refresh_page blob (hex_anchor hv'))
      as (lines & index & Hl' & Hi' & Hlines & Hindex & Hcount).
    rewrite Ha in Hl'. rewrite Hl in Hl'. injection Hl' as <-.
    rewrite Hi in Hi'. injection Hi' as <-.
    auto.
Qed.

(** X21.  [hex_page] never raises and always lands on a line boundary
    within the buffer: at the anchor moved by a page of 1024 bytes, clamped
    to the buffer and rounded down to a line.  From an anchor on a line
    boundary, a page forward that fits is exactly 1024 bytes on, and a page
    back from 1024 or more is exactly 1024 bytes back. *)
Theorem hex_page_anchor work direction ui hv :
  let m := Z.max 0 (len work - 1) in
  exists ui' hv',
    hex_page (Some work) direction ui hv = Ok (ui', hv')
    /\ hex_anchor hv'
       = (clamp (hex_anchor hv + direction * hex_bytes_per_page) 0 m / 16) * 16
    /\ hex_anchor hv' mod 16 = 0
    /\ 0 <= hex_anchor hv' <= m
    /\ (hex_anchor hv mod 16 = 0 ->
        0 <= hex_anchor hv + direction * hex_bytes_per_page <= m ->
        hex_anchor hv' = hex_anchor hv + direction * hex_bytes_per_page).
Proof.
  intros m. unfold hex_page. change (Z.max 0 (len work - 1)) with m.
  set (c := clamp (hex_anchor hv + direction * hex_bytes_per_page) 0 m).
  destruct (refresh_hex_view_page work ui (with_anchor hv c))
    as (ui' & hv' & -> & Ha & _).
  cbn [with_anchor hex_anchor] in Ha. change (Z.max 0 (len work - 1)) with m in Ha.
  pose proof (len_nonneg work) as Hlen.
  assert (Hc : 0 <= c <= m) by (apply clamp_bounds; lia).
  destruct (clamp_floor16 c m ltac:(lia) ltac:(lia)) as (Hr & Hmod & Heq).
  cbv zeta in Hr, Hmod, Heq. rewrite <- Ha in Hr, Hmod, Heq.
  exists ui', hv'. split; [reflexivity|]. split; [apply Heq; lia|].
  split; [exact Hmod|]. split; [exact Hr|].
  intros Halign Hfit. rewrite Heq by lia. unfold c.
  rewrite clamp_in_range by assumption.
  set (x := hex_anchor hv + direction * hex_bytes_per_page).
  assert (Hx : x mod 16 = 0).
  { unfold x, hex_bytes_per_page.
    replace (direction * (16 * 64)) with (direction * 64 * 16) by lia.
    rewrite Z.mod_add by lia. exact Halign. }
  pose proof (Z.div_mod x 16 ltac:(lia)). lia.
Qed.

Lemma int_of_str_0x s n :
  s <> EmptyString -> string_forall is_hex_digit s = true ->
  (forall b, int_digits 16 0 b s = Some n) ->
  int_of_str 16 (String "0" (String "x" s)) = Ok n.
Proof.
  intros Hne Hs Hd. unfold int_of_str.
  rewrite int_lstrip_no_space, int_rstrip_no_space
    by (cbn [string_forall]; rewrite hex_no_int_space by assumption; reflexivity).
  cbn [int_sign]. unfold int_prefix. cbn [Z.eqb Pos.eqb].
  change (Ascii.eqb "x" "x" || Ascii.eqb "x" "X") with true. cbn iota.
  destruct s as [|c r]; [congruence|].
  cbn [string_forall] in Hs. apply andb_true_iff in Hs as [Hc _].
  assert (Hu : Ascii.eqb c "_" = false) by (apply hex_digit_not_underscore; exact Hc).
  assert (Hm : match String c r with String "_" r' => r' | _ => String c r end
               = String c r).
  { revert Hu. ascii_cases c; try reflexivity. vm_compute. discriminate. }
  rewrite Hm. cbv zeta. rewrite Hd. reflexivity.
Qed.

(** X22.  [hex_jump]: text that [int(_, 16)] rejects ends with the error
    box and moves nothing; text it reads as [off] moves the page to the
    line of [off] clamped to the buffer, so that an offset within the
    buffer is on the first line shown.  The offset column of the dump,
    [{off:08X}], is read as [off], and so are the hexadecimal digits of
    [off] with or without [0x] in front. *)
Theorem hex_jump_anchor work jump_var ui hv :
  let m := Z.max 0 (len work - 1) in
  (forall e, int_of_str 16 (strip jump_var) = Raise e ->
     hex_jump (Some work) jump_var ui hv = (Ok (ui, hv), true))
  /\ (forall off, int_of_str 16 (strip jump_var) = Ok off ->
        exists ui' hv',
          hex_jump (Some work) jump_var ui hv = (Ok (ui', hv'), false)
          /\ hex_anchor hv' = (clamp off 0 m / 16) * 16
          /\ hex_anchor hv' mod 16 = 0
          /\ (0 <= off <= m -> hex_anchor hv' <= off < hex_anchor hv' + 16))
  /\ (forall off, 0 <= off ->
        int_of_str 16 (strip (format_08X off)) = Ok off
        /\ int_of_str 16 (strip (digits 16 off)) = Ok off
        /\ int_of_str 16 (strip (String "0" (String "x" (digits 16 off)))) = Ok off).
Proof.
  intros m. pose proof (len_nonneg work) as Hlen. split; [|split].
  - intros e He. unfold hex_jump. rewrite He.
    destruct (startswith _ _); reflexivity.
  - intros off Hoff. unfold hex_jump. rewrite Hoff.
    assert (Hif : (if startswith (lower (strip jump_var)) "0x"
                   then Ok off else Ok off) = Ok off :> result Z)
      by (destruct (startswith _ _); reflexivity).
    rewrite Hif. change (Z.max 0 (len work - 1)) with m.
    set (c := clamp off 0 m).
    assert (Hc : 0 <= c <= m) by (apply clamp_bounds; lia).
    destruct (floor16_spec c) as [Hf Hmod].
    destruct (refresh_hex_view_page work ui (with_anchor hv ((c / 16) * 16)))
      as (ui' & hv' & -> & Ha & _).
    cbn [with_anchor hex_anchor] in Ha. change (Z.max 0 (len work - 1)) with m in Ha.
    assert (Hfl : (c / 16 * 16 / 16) * 16 = c / 16 * 16)
      by (rewrite Z.div_mul by lia; reflexivity).
    rewrite Hfl in Ha.
    assert (H0 : 0 <= c / 16 * 16).
    { pose proof (Z.div_pos c 16 ltac:(lia) ltac:(lia)). lia. }
    rewrite clamp_in_range in Ha by lia.
    exists ui', hv'. split; [reflexivity|]. rewrite Ha.
    split; [reflexivity|]. split; [exact Hmod|].
    intros Hin. unfold c in *. rewrite clamp_in_range in * by assumption. lia.
  - intros off Hoff.
    assert (Hd : forall b, int_digits 16 0 b (digits 16 off) = Some off)
      by (intros b; apply int_digits_digits; lia).
    assert (Hh : string_forall is_hex_digit (digits 16 off) = true)
      by (apply digits_hex; lia).
    split; [|split].
    + rewrite strip_no_space by apply format_08X_no_space. apply int_of_str_format_08X.
    + rewrite strip_no_space by (apply hex_no_space; exact Hh).
      apply int_of_str_unsigned; [assumption|assumption|left; reflexivity].
    + rewrite strip_no_space.
      * apply int_of_str_0x; [apply digits_nonempty|assumption|assumption].
      * cbn [string_forall]. rewrite hex_no_space by assumption. reflexivity.
Qed.

Lemma hex_jump_anchor_witness :
  exists ui' hv',
    hex_jump (Some blob48) "0x2A" (widgets gear_inst EmptyString EmptyString)
      blank_view
    = (Ok (ui', hv'), false)
    /\ hex_anchor hv' = 32.
Proof.
  destruct (proj1 (proj2 (hex_jump_anchor blob48 "0x2A"
                            (widgets gear_inst EmptyString EmptyString)
                            blank_view))
              42 eq_refl) as (ui' & hv' & Hj & Ha & _).
  exists ui', hv'. split; [exact Hj|]. rewrite Ha. reflexivity.
Defined.

(** ** Selecting a field in the hex view *)

Lemma lookup_slice {A} (l : list A) a b (i : nat) :
  0 <= a -> Z.of_nat i < b - a -> a + Z.of_nat i < len l ->
  slice l a b !! i = l !! (Z.to_nat a + i)%nat.
Proof.
  intros Ha Hi Hl. unfold slice, slice_index.
  destruct (Z.ltb_spec a 0); [lia|]. destruct (Z.ltb_spec b 0); [lia|].
  rewrite lookup_take_lt by lia. rewrite lookup_drop. f_equal. lia.
Qed.

Lemma substring_skip p s k m :
  String.substring (String.length p + k) m (String.append p s) = String.substring k m s.
Proof. induction p as [|c p IH]; [reflexivity|]. cbn [String.length Nat.add]. exact IH. Qed.

Lemma append_assoc_string a b c :
  String.append (String.append a b) c = String.append a (String.append b c).
Proof.
  induction a as [|x a IH]; [reflexivity|]. rewrite !append_String, IH. reflexivity.
Qed.

Lemma substring_two h l X :
  String.substring 0 2 (String h (String l X)) = String h (String l EmptyString).
Proof. destruct X; reflexivity. Qed.

(** The two digits of the [i]-th byte are at [3 i] in the hex part. *)
Lemma substring_hex_upper chunk : forall (i : nat) b W,
  chunk !! i = Some b ->
  String.substring (3 * i) 2 (String.append (hex_upper chunk) W) = hex_byte_upper b.
Proof.
  induction chunk as [|b0 t IH]; intros i b W Hb; [discriminate|].
  destruct (hex_byte_upper_digits b0) as (h & l & E & _).
  destruct i as [|i].
  - cbn in Hb. injection Hb as <-.
    destruct t as [|b1 t'].
    + cbn [hex_upper]. rewrite E, append_two. apply substring_two.
    + rewrite hex_upper_cons by discriminate. rewrite E, append_two, !append_String.
      apply substring_two.
  - cbn in Hb. destruct t as [|b1 t']; [discriminate|].
    rewrite hex_upper_cons by discriminate. rewrite E, append_two.
    rewrite !append_String.
    replace (3 * S i)%nat with (S (S (S (3 * i)))) by lia.
    cbn [String.substring]. apply IH. exact Hb.
Qed.

(** The columns [_tag_range_in_hex] computes are where the dump has the
    byte: columns [10 + 3 i] and [11 + 3 i] of the line of [off] hold the
    two digits of the byte at [off + i], for offsets of up to eight
    digits. *)
Lemma hex_line_columns blob off (i : nat) b :
  0 <= off < 16 ^ 8 -> (i < 16)%nat ->
  blob !! (Z.to_nat off + i)%nat = Some b ->
  String.substring (10 + 3 * i) 2 (hex_line blob 16 off) = hex_byte_upper b.
Proof.
  intros Hoff Hi Hb. rewrite hex_line_eq.
  assert (Hlen : Z.of_nat (Z.to_nat off + i) < len blob).
  { unfold len. apply lookup_lt_Some in Hb. lia. }
  pose proof (length_format_08X off Hoff) as H8.
  replace (10 + 3 * i)%nat with (String.length (format_08X off) + (2 + 3 * i))%nat by lia.
  rewrite substring_skip. cbn [Nat.add String.substring].
  unfold ljust. rewrite append_assoc_string.
  apply substring_hex_upper. rewrite lookup_slice by lia. exact Hb.
Qed.

Lemma tag_offsets_map {X} index (f : X -> Z) (k : X -> Z) l :
  (forall x, In x l -> index !! ((f x / 16) * 16) = Some (k x)) ->
  tag_offsets index (map f l)
  = map (fun x => (k x + 1, 10 + (f x - (f x / 16) * 16) * 3,
                   10 + (f x - (f x / 16) * 16) * 3 + 2)) l.
Proof.
  induction l as [|x l IH]; intros H; [reflexivity|].
  cbn [map tag_offsets]. rewrite (H x) by (left; reflexivity).
  rewrite IH by (intros y Hy; apply H; right; exact Hy). reflexivity.
Qed.

(** Every range [_tag_range_in_hex] adds is that of an offset of the
    range asked for whose line the index knows. *)
Lemma tag_offsets_In index offs r :
  In r (tag_offsets index offs) ->
  exists off idx,
    In off offs /\ index !! ((off / 16) * 16) = Some idx
    /\ r = (idx + 1, 10 + (off - (off / 16) * 16) * 3,
            10 + (off - (off / 16) * 16) * 3 + 2).
Proof.
  induction offs as [|o offs IH]; cbn [tag_offsets]; [intros []|].
  destruct (index !! ((o / 16) * 16)) as [idx|] eqn:E.
  - intros [<-|H].
    + exists o, idx. split; [left; reflexivity|]. split; [exact E|reflexivity].
    + destruct (IH H) as (off & idx' & Hin & Hi & ->).
      exists off, idx'. split; [right; exact Hin|]. split; [exact Hi|reflexivity].
  - intros H. destruct (IH H) as (off & idx' & Hin & Hi & ->).
    exists off, idx'. split; [right; exact Hin|]. split; [exact Hi|reflexivity].
Qed.

Lemma tag_range_In working hv start length tags r :
  _tag_range_in_hex working hv start length = Ok tags -> In r tags ->
  exists off idx,
    start <= off < start + length
    /\ _hex_line_index hv !! ((off / 16) * 16) = Some idx
    /\ r = (idx + 1, 10 + (off - (off / 16) * 16) * 3,
            10 + (off - (off / 16) * 16) * 3 + 2).
Proof.
  unfold _tag_range_in_hex. destruct working as [work|]; [|intros [= <-] []].
  destruct (length <=? 0); [intros [= <-] []|].
  set (a := Z.max start (hex_anchor hv)).
  set (b := Z.min (start + length) (hex_anchor hv + hex_bytes_per_page)).
  destruct (Z.leb_spec b a) as [|Hab]; [intros [= <-] []|].
  rewrite range_1 by assumption. cbn [bind]. intros [= <-] Hin.
  apply tag_offsets_In in Hin as (off & idx & Hoff & Hi & ->).
  apply in_map_iff in Hoff as (i & <- & Hi'). apply in_seq in Hi'.
  eexists _, idx. split; [|split; [exact Hi|reflexivity]]. unfold a, b in *. lia.
Qed.

(** The tag after [highlight]: the ranges it had and those added. *)
Lemma highlight_tags work inst ui hv ui' hv' :
  highlight (Some work) inst ui hv = Ok (ui', hv') ->
  exists tags,
    _tag_range_in_hex (Some work) hv (inst_offset inst) (width (scalar (definition inst)))
    = Ok tags
    /\ sel_value hv' = sel_value hv ∪ list_to_set tags
    /\ hex_anchor hv' = hex_anchor hv /\ hex_text hv' = hex_text hv
    /\ _hex_line_index hv' = _hex_line_index hv.
Proof.
  unfold highlight. rewrite width_FMT.
  destruct (_tag_range_in_hex _ _ _ _) as [tags|]; [|discriminate].
  cbn [bind]. intros [= <- <-]. exists tags. cbn. auto.
Qed.

(** After [_refresh_hex_view] the tag has ranges of the field selected
    in [ui] alone, each on a line the index knows. *)
Lemma refresh_hex_view_tags blob ui hv ui' hv' r :
  _refresh_hex_view (Some blob) ui hv = Ok (ui', hv') ->
  r ∈ sel_value hv' ->
  exists sel off idx,
    _selected ui = Some sel
    /\ inst_offset sel <= off < inst_offset sel + width (scalar (definition sel))
    /\ _hex_line_index hv' !! ((off / 16) * 16) = Some idx
    /\ r = (idx + 1, 10 + (off - (off / 16) * 16) * 3,
            10 + (off - (off / 16) * 16) * 3 + 2).
Proof.
  unfold _refresh_hex_view.
  destruct (format_hex_lines _ _ _ _) as [lines|]; [|discriminate]. cbn [bind].
  destruct (index_lines _ _ _) as [index|]; [|discriminate]. cbn [bind].
  destruct (_selected ui) as [sel|].
  - intros H Hr. apply highlight_tags in H as (tags & Ht & Hs & _ & _ & Hi).
    rewrite Hs in Hr. cbn [sel_value] in Hr.
    apply elem_of_union in Hr as [Hr|Hr]; [apply elem_of_empty in Hr; contradiction|].
    apply elem_of_list_to_set, list_elem_of_In in Hr.
    destruct (tag_range_In _ _ _ _ _ _ Ht Hr) as (off & idx & Ho & Hx & ->).
    exists sel, off, idx. rewrite Hi. auto.
  - intros [= _ <-] Hr. cbn [sel_value] in Hr. apply elem_of_empty in Hr. contradiction.
Qed.

Lemma digits_range_inj a off1 off2 :
  a mod 16 = 0 -> digits_range a off1 = digits_range a off2 -> off1 = off2.
Proof.
  intros Ha. unfold digits_range. intros [= Hl Hc].
  pose proof (Z.div_mod a 16 ltac:(lia)) as Hd. rewrite Ha in Hd.
  replace (off1 / 16 * 16 - a) with ((off1 / 16 - a / 16) * 16) in Hl by lia.
  replace (off2 / 16 * 16 - a) with ((off2 / 16 - a / 16) * 16) in Hl by lia.
  rewrite !Z.div_mul in Hl by lia.
  pose proof (Z.div_mod off1 16 ltac:(lia)). pose proof (Z.div_mod off2 16 ltac:(lia)).
  lia.
Qed.

(** X23.  Selecting a field that lies within a buffer of up to [16 ^ 8]
    bytes, whatever field the widgets have as the selected one:
    [_highlight_selected_in_hex] never raises; the page starts four lines
    above the line of the field, or at zero, on a line boundary, and the
    whole field is on it; the overwrite target is the field's range and
    the entry holds the field's bytes in hexadecimal.  The tag has, for
    each byte of the field, the range on the line of the byte and at the
    two columns where the dump has the digits of that byte.  The tag is
    cleared on entry only, so it keeps what the refresh of the view
    tagged: every range it has is that of a byte of the field or of a
    byte of the field selected in the widgets.  When that field is the
    one highlighted, or none is selected, the tag has the ranges of the
    field's bytes and no other: one for each byte. *)
Theorem highlight_selected_in_hex work inst ui hv :
  let start := inst_offset inst in
  let length := width (scalar (definition inst)) in
  0 <= start -> start + length <= len work -> len work <= 16 ^ 8 ->
  exists ui' hv',
    _highlight_selected_in_hex (Some work) inst false ui hv = Ok (ui', hv')
    /\ _hex_sel_start ui' = Some start /\ _hex_sel_len ui' = Some length
    /\ hex_edit_var ui' = hex_upper (slice work start (start + length))
    /\ hex_anchor hv' = Z.max 0 ((start / 16) * 16 - 64)
    /\ hex_anchor hv' mod 16 = 0
    /\ hex_anchor hv' <= start
    /\ start + length <= hex_anchor hv' + hex_bytes_per_page
    /\ (forall i : nat, Z.of_nat i < length ->
          exists line_no c0 line b,
            (line_no, c0, c0 + 2) ∈ sel_value hv'
            /\ (line_no, c0, c0 + 2) = digits_range (hex_anchor hv') (start + Z.of_nat i)
            /\ hex_text hv' !! Z.to_nat (line_no - 1) = Some line
            /\ 1 <= line_no
            /\ work !! Z.to_nat (start + Z.of_nat i) = Some b
            /\ String.substring (Z.to_nat c0) 2 line = hex_byte_upper b)
    /\ (forall r, r ∈ sel_value hv' ->
          exists off,
            r = digits_range (hex_anchor hv') off
            /\ (start <= off < start + length
                \/ exists sel,
                     _selected ui = Some sel
                     /\ inst_offset sel <= off
                        < inst_offset sel + width (scalar (definition sel))))
    /\ (_selected ui = Some inst \/ _selected ui = None ->
        sel_value hv'
        = list_to_set (map (fun i : nat => digits_range (hex_anchor hv') (start + Z.of_nat i))
                         (seq 0 (Z.to_nat length)))
        /\ size (sel_value hv') = Z.to_nat length).
Proof.
  intros start length Hs Hb Hcap.
  pose proof (width_pos (scalar (definition inst))) as Hw. fold length in Hw.
  assert (Hw4 : length <= 4)
    by (unfold length; destruct (scalar (definition inst)); vm_compute; intros; discriminate).
  pose proof (len_nonneg work) as Hlen.
  unfold _highlight_selected_in_hex. fold start.
  set (m := Z.max 0 (len work - 1)).
  set (a := clamp ((start / 16) * 16 - 16 * 4) 0 m).
  destruct (floor16_spec start) as [Hfl Hflmod].
  assert (Hdiv : 0 <= start / 16) by (apply Z.div_pos; lia).
  assert (Ha : a = Z.max 0 ((start / 16) * 16 - 64)) by (unfold a, clamp; lia).
  assert (Hamod : a mod 16 = 0).
  { rewrite Ha. destruct (Z_lt_le_dec ((start / 16) * 16 - 64) 0).
    - rewrite Z.max_l by lia. reflexivity.
    - rewrite Z.max_r by lia.
      replace (start / 16 * 16 - 64) with ((start / 16 - 4) * 16) by lia.
      apply Z.mod_mul. lia. }
  assert (Har : 0 <= a <= m) by (unfold a; apply clamp_bounds; lia).
  destruct (refresh_hex_view_page work ui (with_anchor (with_tags hv ∅) a))
    as (ui1 & hv1 & Er & Ha1 & Hl1 & Hi1 & _).
  pose proof (fun r => refresh_hex_view_tags work ui _ ui1 hv1 r Er) as Htags1.
  rewrite Er. clear Er.
  cbn [with_anchor with_tags hex_anchor] in Ha1, Hl1.
  change (Z.max 0 (len work - 1)) with m in Ha1, Hl1.
  assert (Hfa : (a / 16) * 16 = a).
  { pose proof (Z.div_mod a 16 ltac:(lia)). lia. }
  rewrite Hfa, clamp_in_range in Ha1, Hl1 by lia.
  destruct (refresh_page work a) as (lines & index & Hl & Hi & Hlines & Hkeys & Hcount).
  rewrite Hl in Hl1. injection Hl1 as Hl1. rewrite <- Hl1 in Hi1.
  rewrite Hi in Hi1. injection Hi1 as Hi1.
  (* a range on a line that the index knows is that of its offset *)
  assert (Hrange : forall off idx, index !! ((off / 16) * 16) = Some idx ->
            (idx + 1, 10 + (off - (off / 16) * 16) * 3, 10 + (off - (off / 16) * 16) * 3 + 2)
            = digits_range a off).
  { intros off idx Hx. destruct (Hkeys _ _ Hx) as (k & -> & Hk & _).
    unfold digits_range. rewrite Hk.
    replace (a + 16 * Z.of_nat k - a) with (Z.of_nat k * 16) by lia.
    rewrite Z.div_mul by lia. rewrite <- Hk.
    rewrite (Z.mod_eq off 16) by lia.
    replace (off - 16 * (off / 16)) with (off - off / 16 * 16) by lia. reflexivity. }
  cbn [bind fst snd]. unfold highlight, _tag_range_in_hex. fold start.
  rewrite width_FMT. fold length.
  destruct (Z.leb_spec length 0); [lia|].
  rewrite Ha1.
  rewrite (Z.max_l start a) by lia.
  assert (Hpage : start + length <= a + hex_bytes_per_page)
    by (unfold hex_bytes_per_page; lia).
  rewrite (Z.min_l (start + length)) by assumption.
  destruct (Z.leb_spec (start + length) start); [lia|].
  rewrite range_1 by lia. cbn [bind].
  replace (start + length - start) with length by lia.
  (* every byte of the field has its line on the page *)
  assert (Hline : forall i : nat, Z.of_nat i < length ->
            let off := start + Z.of_nat i in
            let k := Z.to_nat (((off / 16) * 16 - a) / 16) in
            (off / 16) * 16 = a + 16 * Z.of_nat k
            /\ lines !! k = Some (hex_line work 16 ((off / 16) * 16))
            /\ index !! ((off / 16) * 16) = Some (Z.of_nat k)).
  { intros i Hi' off k.
    destruct (floor16_spec off) as [Hfo Hfomod].
    assert (Hge : a <= (off / 16) * 16).
    { assert (start / 16 <= off / 16) by (apply Z.div_le_mono; unfold off; lia). lia. }
    assert (Hk : (off / 16) * 16 = a + 16 * Z.of_nat k).
    { unfold k. rewrite Z2Nat.id by (apply Z.div_pos; lia).
      assert (Hm : ((off / 16) * 16 - a) mod 16 = 0).
      { rewrite Zminus_mod, Hfomod, Hamod. reflexivity. }
      pose proof (Z.div_mod ((off / 16) * 16 - a) 16 ltac:(lia)). lia. }
    assert (Hsome : is_Some (lines !! k)).
    { apply lookup_lt_is_Some.
      assert (Hlt : Z.of_nat k < len lines).
      { apply Hcount; [lia|]. rewrite <- Hk. unfold off, hex_bytes_per_page in *. lia. }
      unfold len in Hlt. lia. }
    destruct Hsome as [line Hline].
    destruct (Hlines k line Hline) as [-> Hidx].
    rewrite <- Hk in Hline, Hidx. auto. }
  rewrite (tag_offsets_map _ (fun i : nat => start + Z.of_nat i)
             (fun i : nat =>
                Z.of_nat (Z.to_nat ((((start + Z.of_nat i) / 16) * 16 - a) / 16)))).
  2:{ intros i Hin. apply in_seq in Hin. rewrite <- Hi1.
      apply (Hline i). lia. }
  (* the ranges added are those of the bytes of the field *)
  assert (Hadded :
    map (fun i : nat =>
           (Z.of_nat (Z.to_nat ((((start + Z.of_nat i) / 16) * 16 - a) / 16)) + 1,
            10 + (start + Z.of_nat i - ((start + Z.of_nat i) / 16) * 16) * 3,
            10 + (start + Z.of_nat i - ((start + Z.of_nat i) / 16) * 16) * 3 + 2))
      (seq 0 (Z.to_nat length))
    = map (fun i : nat => digits_range a (start + Z.of_nat i)) (seq 0 (Z.to_nat length))).
  { apply map_ext_in. intros i Hin. apply in_seq in Hin.
    apply Hrange. apply (Hline i). lia. }
  rewrite Hadded. clear Hadded.
  set (L := map (fun i : nat => digits_range a (start + Z.of_nat i))
              (seq 0 (Z.to_nat length))).
  assert (HinL : forall i : nat, Z.of_nat i < length ->
            digits_range a (start + Z.of_nat i) ∈ (list_to_set L : gset (Z * Z * Z))).
  { intros i Hi'. apply elem_of_list_to_set, list_elem_of_In, in_map_iff.
    exists i. split; [reflexivity|]. apply in_seq. lia. }
  assert (HofL : forall r, r ∈ (list_to_set L : gset (Z * Z * Z)) ->
            exists off, r = digits_range a off /\ start <= off < start + length).
  { intros r Hr. apply elem_of_list_to_set, list_elem_of_In, in_map_iff in Hr
      as (i & <- & Hin). apply in_seq in Hin. eexists. split; [reflexivity|]. lia. }
  assert (Hof1 : forall r, r ∈ sel_value hv1 ->
            exists off sel, r = digits_range a off /\ _selected ui = Some sel
              /\ inst_offset sel <= off
                 < inst_offset sel + width (scalar (definition sel))).
  { intros r Hr. destruct (Htags1 r Hr) as (sel & off & idx & Hsel & Ho & Hx & ->).
    exists off, sel. rewrite <- Hi1 in Hx. rewrite (Hrange off idx Hx). auto. }
  eexists _, _. split; [reflexivity|].
  cbn [with_target with_tags _hex_sel_start _hex_sel_len hex_edit_var hex_anchor
       sel_value hex_text].
  rewrite Ha1.
  split; [reflexivity|]. split; [reflexivity|]. split; [reflexivity|].
  split; [exact Ha|]. split; [exact Hamod|]. split; [lia|]. split; [exact Hpage|].
  split; [|split].
  - intros i Hi'. destruct (Hline i Hi') as (Hk & Hl' & Hx). cbv zeta in Hk, Hl', Hx.
    set (off := start + Z.of_nat i) in *.
    set (k := Z.to_nat (((off / 16) * 16 - a) / 16)) in *.
    destruct (floor16_spec off) as [Hfo _].
    assert (Hsome : is_Some (work !! Z.to_nat off)).
    { apply lookup_lt_is_Some. unfold len in *. unfold off. lia. }
    destruct Hsome as [b Hbyte].
    exists (Z.of_nat k + 1), (10 + (off - (off / 16) * 16) * 3),
      (hex_line work 16 ((off / 16) * 16)), b.
    rewrite (Hrange off _ Hx).
    split; [apply elem_of_union_r, HinL; exact Hi'|].
    split; [reflexivity|].
    split.
    { replace (Z.of_nat k + 1 - 1) with (Z.of_nat k) by lia. rewrite Nat2Z.id, <- Hl1.
      exact Hl'. }
    split; [lia|]. split; [exact Hbyte|].
    replace (Z.to_nat (10 + (off - (off / 16) * 16) * 3))
      with (10 + 3 * Z.to_nat (off - (off / 16) * 16))%nat by lia.
    apply hex_line_columns; [unfold off in *; lia|lia|].
    rewrite <- Hbyte. f_equal. lia.
  - intros r Hr. apply elem_of_union in Hr as [Hr|Hr].
    + destruct (Hof1 r Hr) as (off & sel & -> & Hsel & Ho).
      exists off. split; [reflexivity|]. right. exists sel. auto.
    + destruct (HofL r Hr) as (off & -> & Ho). exists off. auto.
  - intros Hsel.
    assert (Hsub : sel_value hv1 ⊆ list_to_set L).
    { intros r Hr. destruct (Hof1 r Hr) as (off & sel & -> & Hsel' & Ho).
      destruct Hsel as [Hsel|Hsel]; rewrite Hsel in Hsel'; [|discriminate].
      injection Hsel' as <-. fold start length in Ho.
      replace off with (start + Z.of_nat (Z.to_nat (off - start))) by lia.
      apply HinL. lia. }
    assert (Heq : sel_value hv1 ∪ list_to_set L = list_to_set L)
      by (apply leibniz_equiv, subseteq_union_1; exact Hsub).
    rewrite Heq. split; [reflexivity|].
    rewrite size_list_to_set.
    + unfold L. rewrite length_map, length_seq. reflexivity.
    + unfold L. apply NoDup_fmap_2_strong; [|apply NoDup_seq].
      intros i j _ _ Hij. apply digits_range_inj in Hij; [lia|exact Hamod].
Qed.

(** The gear field highlighted while it is the selected one, in a file of
    48 bytes: the tag has the four ranges of its digits on the third
    line. *)
Lemma highlight_selected_in_hex_witness :
  exists ui' hv',
    _highlight_selected_in_hex (Some blob48) gear_inst false
      (widgets gear_inst EmptyString EmptyString)
      blank_view
    = Ok (ui', hv')
    /\ hex_edit_var ui' = "00 00 00 00"
    /\ sel_value hv' = {[ (3, 34, 36); (3, 37, 39); (3, 40, 42); (3, 43, 45) ]}
    /\ size (sel_value hv') = 4%nat.
Proof.
  destruct (highlight_selected_in_hex blob48 gear_inst
              (widgets gear_inst EmptyString EmptyString)
              blank_view)
    as (ui' & hv' & Hr & _ & _ & He & Ha & _ & _ & _ & _ & _ & Hexact);
    [vm_compute; intros; discriminate ..|].
  exists ui', hv'. split; [exact Hr|]. split; [exact He|].
  destruct (Hexact (or_introl eq_refl)) as [Hv Hsz].
  split; [|exact Hsz].
  rewrite Hv, Ha.
  replace (map _ _) with [(3, 34, 36); (3, 37, 39); (3, 40, 42); (3, 43, 45)]
    by (vm_compute; reflexivity).
  cbn [list_to_set]. rewrite union_empty_r_L, !assoc_L by apply _. reflexivity.
Defined.

(** The gear field highlighted while the widgets have the speed field as
    the selected one: the tag keeps the ranges that the refresh gave the
    speed field, on the same line, and has eight. *)
Lemma highlight_keeps_selected_tags :
  match _highlight_selected_in_hex (Some blob48) gear_inst false
          (widgets speed_inst EmptyString EmptyString) blank_view with
  | Ok (_, hv') =>
      sel_value hv'
      = {[ (3, 10, 12); (3, 13, 15); (3, 16, 18); (3, 19, 21);
           (3, 34, 36); (3, 37, 39); (3, 40, 42); (3, 43, 45) ]}
  | Raise _ => False
  end.
Proof. vm_compute. reflexivity. Qed.

(** ** Overwrite after a selection *)


(** The target and the entry after [highlight] on a buffer. *)
Lemma highlight_target work inst ui hv ui' hv' :
  highlight (Some work) inst ui hv = Ok (ui', hv') ->
  let start := inst_offset inst in
  let length := width (scalar (definition inst)) in
  _hex_sel_start ui' = Some start /\ _hex_sel_len ui' = Some length
  /\ hex_edit_var ui' = hex_upper (slice work start (start + length))
  /\ _selected ui' = _selected ui /\ _editor_var ui' = _editor_var ui
  /\ _enum_choice_var ui' = _enum_choice_var ui /\ _bitmask_vars ui' = _bitmask_vars ui.
Proof.
  unfold highlight.
  destruct (tag_range_total (Some work) hv (inst_offset inst)
              (snd (_FMT (scalar (definition inst))))) as (tags & ->).
  cbn [bind]. intros [= <- <-]. cbn. repeat apply conj; reflexivity.
Qed.

Lemma highlight_selected_target work inst refresh_only ui hv ui' hv' :
  _highlight_selected_in_hex (Some work) inst refresh_only ui hv = Ok (ui', hv') ->
  let start := inst_offset inst in
  let length := width (scalar (definition inst)) in
  _hex_sel_start ui' = Some start /\ _hex_sel_len ui' = Some length
  /\ hex_edit_var ui' = hex_upper (slice work start (start + length))
  /\ _editor_var ui' = _editor_var ui
  /\ _enum_choice_var ui' = _enum_choice_var ui /\ _bitmask_vars ui' = _bitmask_vars ui.
Proof.
  unfold _highlight_selected_in_hex. destruct refresh_only.
  - intros H. apply highlight_target in H. tauto.
  - destruct (_refresh_hex_view (Some work) ui _) as [[ui1 hv1]|e] eqn:Er; [|discriminate].
    cbn [bind fst snd]. intros H. apply highlight_target in H.
    assert (Hui1 : _editor_var ui1 = _editor_var ui
                   /\ _enum_choice_var ui1 = _enum_choice_var ui
                   /\ _bitmask_vars ui1 = _bitmask_vars ui).
    { unfold _refresh_hex_view in Er.
      destruct (format_hex_lines _ _ _ _) as [lines|]; [|discriminate].
      cbn [bind] in Er. destruct (index_lines _ _ _) as [index|]; [|discriminate].
      cbn [bind] in Er. destruct (_selected ui) as [sel|].
      - apply highlight_target in Er. tauto.
      - injection Er as <- _. auto. }
    destruct Hui1 as (H1 & H2 & H3). rewrite <- H1, <- H2, <- H3. tauto.
Qed.



(** ** Apply after a selection *)

Lemma highlight_selected_vars working inst refresh_only ui hv ui' hv' :
  _highlight_selected_in_hex working inst refresh_only ui hv = Ok (ui', hv') ->
  _editor_var ui' = _editor_var ui
  /\ _enum_choice_var ui' = _enum_choice_var ui
  /\ _bitmask_vars ui' = _bitmask_vars ui.
Proof.
  destruct working as [work|].
  - intros H. apply highlight_selected_target in H. tauto.
  - cbn. intros [= <- _]. auto.
Qed.

Lemma lower_char_hex c : is_hex_digit c = true -> is_hex_digit (lower_char c) = true.
Proof. ascii_cases c; vm_compute; congruence. Qed.

Lemma str_of_Z_shape z s :
  str_of_Z z = Ok s ->
  exists c r, s = String c r
              /\ (c = "-"%char \/ is_hex_digit c = true)
              /\ string_forall is_hex_digit r = true.
Proof.
  intros H. apply str_of_Z_Ok in H as [_ ->].
  pose proof (digits_hex 10 (Z.abs z) ltac:(lia) ltac:(lia)) as Hh.
  destruct (z <? 0).
  - eexists _, _. split; [reflexivity|]. split; [left; reflexivity|exact Hh].
  - pose proof (digits_nonempty 10 (Z.abs z)) as Hne.
    destruct (digits 10 (Z.abs z)) as [|c r]; [congruence|].
    cbn [string_forall] in Hh. apply andb_true_iff in Hh as [Hc Hr].
    eexists _, _. split; [reflexivity|]. auto.
Qed.

Lemma str_of_Z_no_space z s :
  str_of_Z z = Ok s ->
  string_forall (fun c => negb (isspace c)) s = true /\ s <> EmptyString.
Proof.
  intros H. destruct (str_of_Z_shape z s H) as (c & r & -> & Hc & Hr).
  split; [|discriminate].
  cbn [string_forall]. rewrite (hex_no_space r Hr), andb_true_r.
  destruct Hc as [->|Hc]; [reflexivity|].
  rewrite (hex_digit_not_space c Hc). reflexivity.
Qed.

Lemma str_of_Z_not_0x z s : str_of_Z z = Ok s -> startswith (lower s) "0x" = false.
Proof.
  intros H. destruct (str_of_Z_shape z s H) as (c & r & -> & Hc & Hr).
  unfold startswith. cbn [lower String.prefix].
  destruct Hc as [->|Hc]; [reflexivity|].
  destruct (ascii_dec "0" (lower_char c)) as [E|E]; [|reflexivity].
  destruct r as [|x r']; cbn [lower String.prefix]; [reflexivity|].
  cbn [string_forall] in Hr. apply andb_true_iff in Hr as [Hx _].
  pose proof (hex_digit_not_x _ (lower_char_hex x Hx)) as Hnx.
  apply orb_false_iff in Hnx as [Hnx _]. apply Ascii.eqb_neq in Hnx.
  destruct (ascii_dec "x" (lower_char x)) as [E'|E']; [congruence|reflexivity].
Qed.

Lemma rstrip_nonempty c r :
  isspace c = false -> rstrip (String c r) <> EmptyString.
Proof.
  intros Hc. cbn [rstrip]. destruct (rstrip r); [rewrite Hc|]; discriminate.
Qed.

Lemma enum_text_first e iv t :
  enum_text e iv = Ok t ->
  is_empty (strip t) = false
  /\ exists s rest, str_of_Z iv = Ok s /\ split t = s :: rest.
Proof.
  unfold enum_text. cbv zeta.
  destruct (str_of_Z iv) as [s|] eqn:E; [|discriminate]. cbn [bind]. intros [= <-].
  destruct (str_of_Z_no_space iv s E) as [Hs Hne]. split.
  - destruct s as [|c r]; [congruence|].
    cbn [string_forall] in Hs. apply andb_true_iff in Hs as [Hc _].
    apply negb_true_iff in Hc. rewrite append_String. unfold strip.
    cbn [lstrip]. rewrite Hc.
    pose proof (rstrip_nonempty c (String.append r (String.append " ("
                  (String.append (enum_get e iv) ")"))) Hc) as H.
    destruct (rstrip _); [congruence|reflexivity].
  - change (String.append " (" (String.append (enum_get e iv) ")"))
      with (String " " (String "(" (String.append (enum_get e iv) ")"))).
    rewrite split_token by assumption. eauto.
Qed.

Lemma land_pow2 x k :
  0 <= k -> Z.land x (2 ^ k) = if Z.testbit x k then 2 ^ k else 0.
Proof.
  intros Hk. apply Z.bits_inj'. intros n Hn. rewrite Z.land_spec, Z.pow2_bits_eqb by lia.
  destruct (Z.eqb_spec k n) as [->|Hne].
  - rewrite andb_true_r. destruct (Z.testbit x n) eqn:E.
    + rewrite Z.pow2_bits_true by lia. reflexivity.
    + rewrite Z.bits_0. reflexivity.
  - rewrite andb_false_r. destruct (Z.testbit x k).
    + rewrite Z.pow2_bits_false by lia. reflexivity.
    + rewrite Z.bits_0. reflexivity.
Qed.

(** A checkbox set from a bit gives the bit back. *)
Lemma tyre_step acc x k :
  0 <= k ->
  (if negb (Z.land x (2 ^ k) =? 0) then Z.lor acc (2 ^ k) else acc)
  = Z.lor acc (Z.land x (2 ^ k)).
Proof.
  intros Hk. rewrite land_pow2 by assumption.
  assert (Hp : 0 < 2 ^ k) by (apply Z.pow_pos_nonneg; lia).
  destruct (Z.testbit x k).
  - destruct (Z.eqb_spec (2 ^ k) 0); [lia|reflexivity].
  - cbn. rewrite Z.lor_0_r. reflexivity.
Qed.

Lemma fold_bits_of x vars acc :
  fold_left (fun (new_val : Z) (mv : Z * bool) =>
               if snd mv then Z.lor new_val (fst mv) else new_val)
    (bits_of x vars) acc
  = fold_left (fun new_val m =>
                 if negb (Z.land x m =? 0) then Z.lor new_val m else new_val)
      (map fst vars) acc.
Proof.
  revert acc. induction vars as [|mv vars IH]; intros acc; [reflexivity|].
  cbn [bits_of map fold_left fst snd]. apply IH.
Qed.

Lemma fold_lor ms a : fold_left Z.lor ms a = Z.lor a (fold_left Z.lor ms 0).
Proof.
  revert a. induction ms as [|m ms IH]; intros a; cbn [fold_left].
  - rewrite Z.lor_0_r. reflexivity.
  - rewrite (IH (Z.lor a m)), (IH (Z.lor 0 m)), Z.lor_0_l, Z.lor_assoc. reflexivity.
Qed.

Lemma fold_masks x ms acc :
  Forall (fun m => exists k, 0 <= k /\ m = 2 ^ k) ms ->
  fold_left (fun new_val m =>
               if negb (Z.land x m =? 0) then Z.lor new_val m else new_val) ms acc
  = Z.lor acc (Z.land x (fold_left Z.lor ms 0)).
Proof.
  intros H. revert acc. induction H as [|m ms (k & Hk & ->) _ IH]; intros acc.
  - cbn. rewrite Z.land_0_r, Z.lor_0_r. reflexivity.
  - cbn [fold_left]. rewrite tyre_step by assumption. rewrite IH.
    rewrite (fold_lor ms (Z.lor 0 (2 ^ k))), Z.lor_0_l.
    rewrite Z.land_lor_distr_r, Z.lor_assoc. reflexivity.
Qed.

Lemma tyre_bits_compose x :
  fold_left (fun new_val m =>
               if negb (Z.land x m =? 0) then Z.lor new_val m else new_val)
    (map fst TYRE_BITS) 0
  = Z.land x 0x7F.
Proof.
  rewrite fold_masks.
  - rewrite Z.lor_0_l. reflexivity.
  - cbn [TYRE_BITS map fst].
    repeat constructor;
      [exists 0|exists 1|exists 2|exists 3|exists 4|exists 5|exists 6];
      (split; [lia|reflexivity]).
Qed.

Section SelectTheorems.

Variable float_of_str : string -> result spec_float.
Variable str_of_float : spec_float -> string.
Variable format_6g : spec_float -> string.

(** The widgets [_on_select] leaves, for a value that is an [int]. *)
Lemma on_select_widgets st inst ui hv ui' hv' z :
  _current_value st inst = Int z ->
  _on_select str_of_float format_6g st inst ui hv = Ok (ui', hv') ->
  let d := definition inst in
  (scalar d <> K_float -> str_of_Z z = Ok (_editor_var ui'))
  /\ (forall e, enum d = Some e -> enum_text e z = Ok (_enum_choice_var ui'))
  /\ (String.eqb (name d) "TyreAvailability" = true ->
      _bitmask_vars ui' = bits_of (Z.land z 0xFF) (_bitmask_vars ui)).
Proof.
  intros Hcur. unfold _on_select. rewrite Hcur.
  destruct (_value_to_string format_6g (definition inst) (Int z)) as [shown|]; [|discriminate].
  cbn [bind].
  destruct (match scalar (definition inst) with
            | K_float => let* x := float (Int z) in Ok (str_of_float x)
            | _ => str str_of_float (Int z)
            end) as [editor|] eqn:Ee; [|discriminate].
  cbn [bind Py.int].
  destruct (enum (definition inst)) as [e|] eqn:Een; cbn [bind];
    [destruct (enum_text e z) as [choice|] eqn:Ec; [|discriminate]; cbn [bind]|];
    destruct (String.eqb (name (definition inst)) "TyreAvailability") eqn:Et; cbn [bind];
    intros H; apply highlight_selected_vars in H as (H1 & H2 & H3);
    cbn [_editor_var _enum_choice_var _bitmask_vars] in H1, H2, H3;
    (split; [|split]);
    try (intros Hk; rewrite H1;
         destruct (scalar (definition inst)); try congruence;
         cbn [str] in Ee; congruence);
    try (intros e' [= <-]; rewrite H2; exact Ec);
    try (intros e' He'; discriminate);
    try (intros _; exact H3);
    try (intros Hf; discriminate).
Qed.

(** X25.  The tyre checkboxes keep seven bits: when the field
    [TyreAvailability] is selected with the value [c] and applied with no
    checkbox touched, the value [apply_edit] takes from the checkboxes is
    [c & 0x7F], so bit 7 and everything above the low byte is dropped. *)
Theorem tyre_select_then_apply st inst ui hv ui' hv' c :
  name (definition inst) = "TyreAvailability" ->
  map fst (_bitmask_vars ui) = map fst TYRE_BITS ->
  _current_value st inst = Int c ->
  _on_select str_of_float format_6g st inst ui hv = Ok (ui', hv') ->
  new_value float_of_str ui' (definition inst) = Ok (Int (Z.land c 0x7F))
  /\ (0 <= c < 128 -> new_value float_of_str ui' (definition inst) = Ok (Int c)).
Proof.
  intros Hname Hkeys Hcur Hsel.
  assert (Ht : String.eqb (name (definition inst)) "TyreAvailability" = true)
    by (rewrite Hname; reflexivity).
  destruct (on_select_widgets _ _ _ _ _ _ _ Hcur Hsel) as (_ & _ & Hbits).
  assert (E : new_value float_of_str ui' (definition inst) = Ok (Int (Z.land c 0x7F))).
  { unfold new_value. rewrite Ht, (Hbits Ht), fold_bits_of, Hkeys, tyre_bits_compose.
    rewrite <- Z.land_assoc. reflexivity. }
  split; [exact E|]. intros Hc. rewrite E. do 2 f_equal.
  change 0x7F with (Z.ones 7). rewrite Z.land_ones by lia.
  apply Z.mod_small. change (2 ^ 7) with 128. lia.
Qed.

(** The entry and the choice that a selection fills in read back as the
    value. *)
Lemma new_value_after_select st inst ui hv ui' hv' z :
  String.eqb (name (definition inst)) "TyreAvailability" = false ->
  scalar (definition inst) <> K_float ->
  _current_value st inst = Int z ->
  _on_select str_of_float format_6g st inst ui hv = Ok (ui', hv') ->
  new_value float_of_str ui' (definition inst) = Ok (Int z).
Proof.
  intros Ht Hk Hcur Hsel.
  destruct (on_select_widgets _ _ _ _ _ _ _ Hcur Hsel) as (Hed & Hen & _).
  unfold new_value. rewrite Ht.
  destruct (enum (definition inst)) as [e|] eqn:Ee.
  - destruct (enum_text_first e z _ (Hen e eq_refl)) as (Hne & s & rest & Hs & Hsp).
    rewrite Hne, Hsp. cbn [negb andb]. rewrite (int_of_str_str_of_Z z s Hs). reflexivity.
  - cbn [andb]. specialize (Hed Hk).
    rewrite strip_no_space by apply (str_of_Z_no_space z _ Hed).
    rewrite (str_of_Z_not_0x z _ Hed), (int_of_str_str_of_Z z _ Hed).
    destruct (scalar (definition inst)); try congruence; reflexivity.
Qed.

(** X26.  Apply after a selection takes the value that was shown: for a
    field that is neither a float nor the tyre mask, selected with the
    [int] value [z], the value [apply_edit] reads back from the entry, or
    from the choice of an enumeration, is [z]. *)
Theorem select_then_new_value st inst ui hv ui' hv' z :
  String.eqb (name (definition inst)) "TyreAvailability" = false ->
  scalar (definition inst) <> K_float ->
  _current_value st inst = Int z ->
  _on_select str_of_float format_6g st inst ui hv = Ok (ui', hv') ->
  new_value float_of_str ui' (definition inst) = Ok (Int z).
Proof. exact (new_value_after_select st inst ui hv ui' hv' z). Qed.


End SelectTheorems.

Lemma tyre_select_then_apply_witness :
  exists ui' hv',
    _on_select (fun _ => EmptyString) (fun _ => EmptyString) opened_tyres tyre_inst
      (widgets tyre_inst EmptyString EmptyString) blank_view
    = Ok (ui', hv')
    /\ new_value decimal_float_of_str ui' (definition tyre_inst) = Ok (Int 0x05).
Proof.
  destruct (_on_select (fun _ => EmptyString) (fun _ => EmptyString) opened_tyres tyre_inst
              (widgets tyre_inst EmptyString EmptyString) blank_view)
    as [[ui' hv']|e] eqn:E; [|vm_compute in E; discriminate].
  exists ui', hv'. split; [reflexivity|].
  exact (proj1 (tyre_select_then_apply decimal_float_of_str _ _ opened_tyres tyre_inst
                  (widgets tyre_inst EmptyString EmptyString) blank_view ui' hv' 0x85
                  eq_refl eq_refl eq_refl E)).
Defined.

Lemma select_then_new_value_witness :
  exists ui' hv',
    _on_select (fun _ => EmptyString) (fun _ => EmptyString) opened48 gear_inst
      (widgets speed_inst "junk" EmptyString) blank_view
    = Ok (ui', hv')
    /\ new_value decimal_float_of_str ui' (definition gear_inst) = Ok (Int 0).
Proof.
  destruct (_on_select (fun _ => EmptyString) (fun _ => EmptyString) opened48 gear_inst
              (widgets speed_inst "junk" EmptyString) blank_view)
    as [[ui' hv']|e] eqn:E; [|vm_compute in E; discriminate].
  exists ui', hv'. split; [reflexivity|].
  exact (select_then_new_value decimal_float_of_str _ _ opened48 gear_inst
           (widgets speed_inst "junk" EmptyString) blank_view ui' hv' 0
           eq_refl ltac:(discriminate) eq_refl E).
Defined.


(** ** The tree *)

Local Abbreviation str_lt := (fun a b : string => String.ltb a b = true).
Local Abbreviation offset_le :=
  (fun a b : MrdfFieldInstance => inst_offset a <= inst_offset b).

Lemma string_ltb_irrefl s : String.ltb s s = false.
Proof. unfold String.ltb. rewrite string_compare_refl. reflexivity. Qed.

Lemma string_ltb_asym a b : String.ltb a b = true -> String.ltb b a = false.
Proof.
  unfold String.ltb. rewrite (String.compare_antisym a b).
  destruct (String.compare b a); cbn; congruence.
Qed.

Lemma StronglySorted_snoc {A} (R : A -> A -> Prop) l x :
  StronglySorted R (l ++ [x]) <-> StronglySorted R l /\ Forall (fun y => R y x) l.
Proof.
  induction l as [|y l IH]; cbn [app].
  - split; [intros _; split; constructor|intros _; repeat constructor].
  - split.
    + intros H. inversion H as [|? ? Hs Hall]; subst.
      apply IH in Hs as [Hs Hx]. apply List.Forall_app in Hall as [Hall Hyx].
      inversion Hyx; subst. split; constructor; assumption.
    + intros [H Hx]. inversion H as [|? ? Hs Hall]; subst.
      inversion Hx as [|? ? Hyx Hx']; subst.
      constructor; [apply IH; split; assumption|].
      apply List.Forall_app. split; [assumption|repeat constructor; assumption].
Qed.

Lemma StronglySorted_filter {A} (R : A -> A -> Prop) (p : A -> bool) l :
  StronglySorted R l -> StronglySorted R (List.filter p l).
Proof.
  induction 1 as [|x l Hs IH Hall]; cbn [List.filter]; [constructor|].
  destruct (p x); [|exact IH]. constructor; [exact IH|].
  apply List.Forall_forall. intros y Hy. apply List.filter_In in Hy as [Hy _].
  exact (proj1 (List.Forall_forall _ _) Hall y Hy).
Qed.

(** [sorted] leaves a sorted list as it is. *)
Lemma sorted_strs_sorted l : StronglySorted str_lt l -> sorted_strs l = l.
Proof.
  induction 1 as [|x l Hs IH Hall]; [reflexivity|].
  cbn [sorted_strs fold_right]. fold (sorted_strs l). rewrite IH.
  destruct l as [|y r]; [reflexivity|]. cbn [insert_str].
  inversion Hall as [|? ? Hxy _]; subst. rewrite (string_ltb_asym _ _ Hxy). reflexivity.
Qed.

Lemma sorted_by_offset_sorted l : StronglySorted offset_le l -> sorted_by_offset l = l.
Proof.
  induction 1 as [|x l Hs IH Hall]; [reflexivity|].
  cbn [sorted_by_offset fold_right]. fold (sorted_by_offset l). rewrite IH.
  destruct l as [|y r]; [reflexivity|]. cbn [insert_by_offset].
  inversion Hall as [|? ? Hxy _]; subst.
  destruct (Z.ltb_spec (inst_offset y) (inst_offset x)); [lia|reflexivity].
Qed.

(** The filter can be applied before the grouping. *)
Lemma group_sections_filter filter_txt l : forall acc,
  fold_left
    (fun sections inst =>
       if matches filter_txt inst
       then setdefault_append (section (definition inst)) inst sections
       else sections) l acc
  = fold_left
      (fun sections inst => setdefault_append (section (definition inst)) inst sections)
      (List.filter (matches filter_txt) l) acc.
Proof.
  induction l as [|x l IH]; intros acc; [reflexivity|].
  cbn [fold_left List.filter]. destruct (matches filter_txt x); cbn [fold_left]; apply IH.
Qed.

(** A group of a sorted list: not empty, of one section, sorted by
    offset. *)
Local Abbreviation run_of :=
  (fun sg : string * list MrdfFieldInstance =>
     snd sg <> []
     /\ Forall (fun i => section (definition i) = fst sg) (snd sg)
     /\ StronglySorted offset_le (snd sg)).

Lemma setdefault_append_keys sec x G k :
  In k (map fst (setdefault_append sec x G)) -> In k (map fst G) \/ k = sec.
Proof.
  induction G as [|[s g] rest IH]; cbn [setdefault_append map fst].
  - intros [<-|[]]. right. reflexivity.
  - destruct (String.eqb s sec); cbn [map fst].
    + intros H. left. exact H.
    + intros [<-|H]; [left; left; reflexivity|].
      destruct (IH H) as [H'|H']; [left; right; exact H'|right; exact H'].
Qed.

Lemma setdefault_append_run x G :
  StronglySorted str_lt (map fst G) ->
  (forall k, In k (map fst G) ->
     String.ltb k (section (definition x)) = true \/ k = section (definition x)) ->
  (forall y, In y (concat (map snd G)) ->
     section (definition y) = section (definition x) -> inst_offset y <= inst_offset x) ->
  Forall run_of G ->
  let G' := setdefault_append (section (definition x)) x G in
  concat (map snd G') = concat (map snd G) ++ [x]
  /\ StronglySorted str_lt (map fst G')
  /\ Forall run_of G'.
Proof.
  set (sec := section (definition x)).
  induction G as [|[s g] rest IH]; intros Hkeys Hle Hoff Hruns; cbn [setdefault_append].
  - cbv zeta. cbn [map concat fst snd app]. split; [reflexivity|].
    split; [repeat constructor|].
    constructor; [|constructor]. cbn [fst snd].
    split; [discriminate|]. split; [constructor; [reflexivity|constructor]|].
    repeat constructor.
  - cbn [map fst snd concat] in *.
    inversion Hkeys as [|? ? Hk Hall]; subst. inversion Hruns as [|? ? Hrun Hruns']; subst.
    destruct Hrun as (Hne & Hsec & Hsorted). cbn [fst snd] in Hne, Hsec, Hsorted.
    destruct (String.eqb_spec s sec) as [->|Hneq].
    + assert (Hrest : rest = []).
      { destruct rest as [|[s' g'] rest']; [reflexivity|exfalso].
        cbn [map fst] in Hall, Hle. inversion Hall as [|? ? Hlt _]; subst.
        destruct (Hle s' ltac:(right; left; reflexivity)) as [H|H].
        - rewrite (string_ltb_asym _ _ Hlt) in H. discriminate.
        - subst s'. rewrite string_ltb_irrefl in Hlt. discriminate. }
      subst rest. cbv zeta. cbn [map concat fst snd]. rewrite !app_nil_r.
      split; [reflexivity|]. split; [repeat constructor|].
      constructor; [|constructor]. cbn [fst snd]. split; [|split].
      * destruct g; discriminate.
      * apply List.Forall_app. split; [exact Hsec|repeat constructor].
      * apply StronglySorted_snoc. split; [exact Hsorted|].
        apply List.Forall_forall. intros y Hy. apply Hoff.
        -- apply in_or_app. left. exact Hy.
        -- exact (proj1 (List.Forall_forall _ _) Hsec y Hy).
    + destruct IH as (Hc & Hs & Hr).
      * exact Hk.
      * intros k Hk'. apply Hle. right. exact Hk'.
      * intros y Hy. apply Hoff. apply in_or_app. right. exact Hy.
      * exact Hruns'.
      * cbv zeta in *. cbn [map concat fst snd]. rewrite Hc, app_assoc.
        split; [reflexivity|]. split.
        -- constructor; [exact Hs|].
           apply List.Forall_forall. intros k Hk'.
           destruct (setdefault_append_keys _ _ _ _ Hk') as [Hin| ->].
           ++ exact (proj1 (List.Forall_forall _ _) Hall k Hin).
           ++ destruct (Hle s ltac:(left; reflexivity)) as [H|H]; [exact H|congruence].
        -- constructor; [|exact Hr]. cbn [fst snd]. auto.
Qed.

Lemma group_runs l :
  StronglySorted section_offset_le l ->
  let G := fold_left
             (fun sections inst =>
                setdefault_append (section (definition inst)) inst sections) l [] in
  concat (map snd G) = l
  /\ StronglySorted str_lt (map fst G)
  /\ Forall run_of G.
Proof.
  induction l as [|x l IH] using rev_ind; intros Hs.
  - cbn. split; [reflexivity|]. split; constructor.
  - apply StronglySorted_snoc in Hs as [Hs Hx].
    rewrite fold_left_app. cbn [fold_left].
    destruct (IH Hs) as (Hc & Hk & Hr). cbv zeta in Hc, Hk, Hr.
    set (G := fold_left _ l []) in *.
    assert (Hmem : forall s g y, In (s, g) G -> In y g -> In y l).
    { intros s g y Hsg Hy. rewrite <- Hc. apply in_concat. exists g.
      split; [|exact Hy]. apply (in_map snd G (s, g)). exact Hsg. }
    destruct (setdefault_append_run x G) as (Hc' & Hk' & Hr').
    + exact Hk.
    + intros k Hin. apply in_map_iff in Hin as ([s g] & <- & Hsg). cbn [fst].
      pose proof (proj1 (List.Forall_forall _ _) Hr _ Hsg) as (Hne & Hsec & _).
      cbn [fst snd] in Hne, Hsec. destruct g as [|y g']; [congruence|].
      pose proof (List.Forall_inv Hsec) as Hy. cbv beta in Hy.
      pose proof (proj1 (List.Forall_forall _ _) Hx y
                    (Hmem _ _ y Hsg ltac:(left; reflexivity))) as [H|[H _]].
      * left. rewrite <- Hy. exact H.
      * right. rewrite <- Hy. exact H.
    + intros y Hy Hsec. rewrite Hc in Hy.
      pose proof (proj1 (List.Forall_forall _ _) Hx y Hy) as [H|[_ H]]; [|exact H].
      rewrite Hsec, string_ltb_irrefl in H. discriminate.
    + exact Hr.
    + cbv zeta in *. rewrite Hc', Hc. auto.
Qed.

Lemma dict_get_sorted G s g :
  StronglySorted str_lt (map fst G) -> In (s, g) G -> dict_get s G = g.
Proof.
  induction G as [|[s0 g0] rest IH]; intros Hk Hin; [destruct Hin|].
  cbn [map fst] in Hk. inversion Hk as [|? ? Hk' Hall]; subst. cbn [dict_get].
  destruct Hin as [[= -> ->]|Hin].
  - rewrite String.eqb_refl. reflexivity.
  - destruct (String.eqb_spec s0 s) as [->|Hne]; [|apply IH; assumption].
    exfalso. pose proof (proj1 (List.Forall_forall _ _) Hall s
                           (in_map fst rest (s, g) Hin)) as H.
    cbn [fst] in H. rewrite string_ltb_irrefl in H. discriminate.
Qed.

Section TreeTheorems.

Variable format_6g : spec_float -> string.

Lemma show_rows_total st insts :
  (forall i, In i insts ->
     exists s, _value_to_string format_6g (definition i) (_current_value st i) = Ok s) ->
  exists rows, show_rows format_6g st insts = Ok rows /\ map fst rows = insts.
Proof.
  induction insts as [|i rest IH]; intros H; [exists []; split; reflexivity|].
  destruct (H i ltac:(left; reflexivity)) as [s Hs].
  destruct IH as (rows & Hr & Hm); [intros j Hj; apply H; right; exact Hj|].
  cbn [show_rows]. rewrite Hs. cbn [bind]. rewrite Hr. cbn [bind].
  eexists. split; [reflexivity|]. cbn [map fst]. rewrite Hm. reflexivity.
Qed.

Lemma show_sections_total st G :
  (forall i, In i (concat (map snd G)) ->
     exists s, _value_to_string format_6g (definition i) (_current_value st i) = Ok s) ->
  exists nodes,
    show_sections format_6g st G = Ok nodes
    /\ map (fun r => (fst r, map fst (snd r))) nodes = G.
Proof.
  induction G as [|[sec insts] rest IH]; intros H; [exists []; split; reflexivity|].
  cbn [map snd concat] in H.
  destruct (show_rows_total st insts) as (rows & Hr & Hm);
    [intros i Hi; apply H, in_or_app; left; exact Hi|].
  destruct IH as (nodes & Hn & Hmn);
    [intros i Hi; apply H, in_or_app; right; exact Hi|].
  cbn [show_sections]. rewrite Hr. cbn [bind]. rewrite Hn. cbn [bind].
  eexists. split; [reflexivity|]. cbn [map fst snd]. rewrite Hm, Hmn. reflexivity.
Qed.

(** X28.  The tree shows the fields in the order of the parse: for
    instances sorted by section and offset, as [parse_mrdf] leaves them,
    and values that have a text, [_rebuild_tree] returns; its rows, read
    from the top, are the instances the filter keeps, in the order they
    have in the list; the section nodes are in ascending order with no
    section twice, and every row is under the node of its section. *)
Theorem rebuild_tree_order filter_var st :
  StronglySorted section_offset_le (instances st) ->
  (forall i, In i (instances st) ->
     exists s, _value_to_string format_6g (definition i) (_current_value st i) = Ok s) ->
  exists nodes,
    _rebuild_tree format_6g filter_var st = Ok nodes
    /\ concat (map (fun r => map fst (snd r)) nodes)
       = List.filter (matches (lower (strip filter_var))) (instances st)
    /\ StronglySorted str_lt (map fst nodes)
    /\ Forall (fun r => snd r <> []
                        /\ Forall (fun ix => section (definition (fst ix)) = fst r) (snd r))
         nodes.
Proof.
  intros Hs Hshow. unfold _rebuild_tree, group_sections.
  rewrite group_sections_filter.
  set (l := List.filter (matches (lower (strip filter_var))) (instances st)).
  destruct (group_runs l) as (Hc & Hk & Hr); [apply StronglySorted_filter; exact Hs|].
  cbv zeta in Hc, Hk, Hr. set (G := fold_left _ l []) in *.
  rewrite (sorted_strs_sorted _ Hk), map_map.
  assert (HG : map (fun sg => (fst sg, sorted_by_offset (dict_get (fst sg) G))) G = G).
  { transitivity (map (fun sg => sg) G); [|apply List.map_id].
    apply map_ext_in. intros [s g] Hin. cbn [fst].
    rewrite (dict_get_sorted G s g Hk Hin).
    pose proof (proj1 (List.Forall_forall _ _) Hr _ Hin) as (_ & _ & Hso).
    cbn [snd] in Hso. rewrite (sorted_by_offset_sorted _ Hso). reflexivity. }
  rewrite HG.
  destruct (show_sections_total st G) as (nodes & Hn & Hm).
  { intros i Hi. rewrite Hc in Hi. apply Hshow.
    apply List.filter_In in Hi. tauto. }
  exists nodes. split; [exact Hn|].
  assert (Hfst : map fst nodes = map fst G).
  { rewrite <- Hm, map_map. reflexivity. }
  assert (Hsnd : map (fun r => map fst (snd r)) nodes = map snd G).
  { rewrite <- Hm, map_map. reflexivity. }
  split; [rewrite Hsnd; exact Hc|]. split; [rewrite Hfst; exact Hk|].
  apply List.Forall_forall. intros r Hin.
  assert (HinG : In (fst r, map fst (snd r)) G).
  { rewrite <- Hm. apply (in_map (fun r => (fst r, map fst (snd r)))). exact Hin. }
  pose proof (proj1 (List.Forall_forall _ _) Hr _ HinG) as (Hne & Hsec & _).
  cbn [fst snd] in Hne, Hsec. split.
  - intros E. apply Hne. rewrite E. reflexivity.
  - apply List.Forall_forall. intros ix Hix.
    apply (proj1 (List.Forall_forall _ _) Hsec (fst ix)).
    apply in_map. exact Hix.
Qed.

End TreeTheorems.

Lemma rebuild_tree_order_witness :
  exists nodes,
    _rebuild_tree (fun _ => EmptyString) " GEAR " opened48 = Ok nodes
    /\ concat (map (fun r => map fst (snd r)) nodes) = [gear_inst].
Proof.
  destruct (rebuild_tree_order (fun _ => EmptyString) " GEAR " opened48)
    as (nodes & Hn & Hc & _).
  - apply sort_by_key_strongly_sorted.
  - intros i Hi. vm_compute in Hi.
    repeat (destruct Hi as [<-|Hi]; [eexists; vm_compute; reflexivity|]). destruct Hi.
  - exists nodes. split; [exact Hn|]. rewrite Hc. vm_compute. reflexivity.
Defined.

(** ** Opening a file and switching the profile *)

Section OpenProfile.

Variable float_of_str : string -> result spec_float.

(** X29.  [open_file] starts afresh whatever the state before: the
    snapshot and the working buffer are the bytes read, the ledger is
    empty, the profile is the one [detect_profile] returns, a registered
    one, and the instances are the parse of the bytes under it. *)
Theorem open_file_state os_sep path blob st :
  exists p,
    detect_profile os_sep path blob = Ok p /\ In p PROFILES
    /\ open_file os_sep path blob st
       = {| original_blob := Some blob;
            working_blob := Some blob;
            edits := ∅;
            profile := p;
            instances := parse_mrdf blob (defs p) |}.
Proof.
  destruct (detect_profile_registered os_sep path blob) as (p & Hp & Hin).
  exists p. split; [exact Hp|]. split; [exact Hin|].
  unfold open_file. rewrite Hp. reflexivity.
Qed.

Lemma on_profile_changed_buffers label' st :
  original_blob (on_profile_changed label' st) = original_blob st
  /\ working_blob (on_profile_changed label' st) = working_blob st
  /\ edits (on_profile_changed label' st) = edits st.
Proof.
  unfold on_profile_changed.
  rewrite original_blob_refresh, working_blob_refresh, edits_refresh.
  destruct (List.find _ PROFILES); auto.
Qed.

(** X30.  A change of profile touches no byte and no pending edit: the
    label of a registered profile selects it and any other label leaves
    the profile, the buffers and the ledger stay, and the instances are
    parsed anew.  The ledger being keyed by the offset alone, an edit
    applied under one profile is then shown as the value of whatever field
    the other profile has at that offset. *)
Theorem on_profile_changed_keeps_edits label' st :
  let st' := on_profile_changed label' st in
  original_blob st' = original_blob st
  /\ working_blob st' = working_blob st
  /\ edits st' = edits st
  /\ (forall p, In p PROFILES -> label p = label' -> profile st' = p)
  /\ ((forall p, In p PROFILES -> label p <> label') -> profile st' = profile st)
  /\ (forall work, working_blob st = Some work ->
        instances st' = parse_mrdf work (defs (profile st')))
  /\ (forall ui inst v,
        _selected ui = Some inst ->
        new_value float_of_str ui (definition inst) = Ok v ->
        snd (apply_edit float_of_str ui st) = Applied ->
        forall i,
          inst_offset i = offset (definition inst) ->
          _current_value (on_profile_changed label' (fst (apply_edit float_of_str ui st))) i
          = v).
Proof.
  intros st'. subst st'.
  destruct (on_profile_changed_buffers label' st) as (Ho & Hw & He).
  split; [exact Ho|]. split; [exact Hw|]. split; [exact He|].
  assert (Hprof : profile (on_profile_changed label' st)
                  = match List.find (fun p => String.eqb (label p) label') PROFILES with
                    | Some p => p
                    | None => profile st
                    end).
  { unfold on_profile_changed. rewrite profile_refresh.
    destruct (List.find _ PROFILES); reflexivity. }
  split; [|split; [|split]].
  - intros p Hin Hl. rewrite Hprof.
    assert (Hcases : p = stats_profile \/ p = physics_profile)
      by (destruct Hin as [<-|[<-|[]]]; auto).
    destruct Hcases as [-> | ->]; cbn [label stats_profile physics_profile] in Hl;
      subst label'; reflexivity.
  - intros Hno. rewrite Hprof.
    destruct (List.find _ PROFILES) as [p|] eqn:E; [|reflexivity].
    apply List.find_some in E as [Hin Hl]. apply String.eqb_eq in Hl.
    exfalso. exact (Hno p Hin Hl).
  - intros work Hwork. unfold on_profile_changed.
    rewrite profile_refresh. apply instances_refresh.
    destruct (List.find _ PROFILES); [cbn [with_profile working_blob]|]; exact Hwork.
  - intros ui inst v Hs Hv Happ i Hi.
    unfold _current_value.
    rewrite (proj2 (proj2 (on_profile_changed_buffers label' _))).
    apply apply_edit_Applied in Happ
      as (inst0 & work0 & v0 & packed & Hs0 & _ & Hv0 & _ & ->).
    rewrite Hs in Hs0. injection Hs0 as <-. rewrite Hv in Hv0. injection Hv0 as <-.
    rewrite edits_refresh. cbn [set_working edits].
    rewrite Hi, lookup_insert_eq. reflexivity.
Qed.

End OpenProfile.
